(** * Pikamoon NFT allocator: a shallow embedding of [allocator.py]

    The development follows the three operations of [NFTAllocator]:
    [generate_nft_pool], [allocate_nfts] and [validate_allocation], together
    with the final set comparison of [main]; then [main] as a whole from the
    loaded values on, the loaders and [save_allocations] over parsed JSON
    values, and the verifier of [verify.py].

    Conventions.
    - Python [int] is [Z]; [len] is [Z.of_nat (length _)].
    - Python [str] is [string]; strings are read as UTF-8 byte sequences, on
      which the bytewise lexicographic order of [String.ltb] coincides with
      Python's code point order.
    - A Python [dict] is an insertion-ordered association list with pairwise
      distinct keys ([dict_wf]); its iteration order is the order of the list.
    - A Python [set] of strings is a [gset string].
    - A percentage (a JSON number) is an [int] or a [float].  Floats are the
      binary64 values of IEEE 754, as [spec_float] of the Standard Library,
      and the arithmetic on them rounds as Python's does; its
      [OverflowError], [ValueError] and [ZeroDivisionError] are outcomes of
      the calls.  The numbers that the verifier compares are exact
      rationals, since comparisons of Python numbers are exact.
    - The process-wide generator of the [random] module is an explicit state,
      threaded through a small state-and-exit monad.
    - [print] calls are left out, but not the arithmetic of what they print
      where it can raise: the percentages of the rarity distribution are
      computed.  What the validator prints before returning [False] is kept
      as its [verdict].  Integers are printed at any size: the limit of the
      interpreter on the digits of an [int] converted to text, a setting of
      recent versions, is not modelled. *)

From Stdlib Require Import ZArith Lia QArith Qround SpecFloat.
From Stdlib Require OrderedTypeEx.
From stdpp Require Import base list strings gmap sorting.

Close Scope Q_scope.
Local Open Scope Z_scope.
#[local] Set Warnings "-clear-no-such-hyp".

(** ** Outcomes of a call: normal return, [sys.exit(code)], or an exception
    that nothing catches *)

Inductive outcome (A : Type) : Type :=
  | Returned (a : A)
  | SystemExit (code : Z)
  | IndexError
  | OverflowError
  | ValueError
  | ZeroDivisionError.
Arguments Returned {A} a.
Arguments SystemExit {A} code.
Arguments IndexError {A}.
Arguments OverflowError {A}.
Arguments ValueError {A}.
Arguments ZeroDivisionError {A}.

(** Sequencing: what follows a call runs on the value that it returned. *)
Definition and_then {A B} (o : outcome A) (k : A → outcome B) : outcome B :=
  match o with
  | Returned a => k a
  | SystemExit c => SystemExit c
  | IndexError => IndexError
  | OverflowError => OverflowError
  | ValueError => ValueError
  | ZeroDivisionError => ZeroDivisionError
  end.

Global Instance outcome_bind : MBind outcome := λ A B k o, and_then o k.
Global Instance outcome_ret : MRet outcome := λ A a, Returned a.
Global Instance outcome_fmap : FMap outcome :=
  λ A B f o, and_then o (λ a, Returned (f a)).

Definition returned {A} (o : outcome A) : option A :=
  match o with Returned a => Some a | _ => None end.

(** ** The monad of computations over the generator state [G] *)

Module Run.
Definition M (G A : Type) : Type := G → outcome (A * G).

Definition ret {G A} (a : A) : M G A := λ g, Returned (a, g).

Definition bind {G A B} (m : M G A) (k : A → M G B) : M G B :=
  λ g, match m g with
       | Returned (a, g') => k a g'
       | SystemExit c => SystemExit c
       | IndexError => IndexError
       | OverflowError => OverflowError
       | ValueError => ValueError
       | ZeroDivisionError => ZeroDivisionError
       end.

(** [sys.exit(code)] *)
Definition sys_exit {G A} (code : Z) : M G A := λ _, SystemExit code.

(** assignment to the module-level generator *)
Definition put {G} (g : G) : M G unit := λ _, Returned (tt, g).

(** a call of a state-passing library routine *)
Definition call {G A} (f : G → A * G) : M G A := λ g, Returned (f g).

(** a call of a pure routine that can raise *)
Definition lift {G A} (o : outcome A) : M G A :=
  λ g, match o with
       | Returned a => Returned (a, g)
       | SystemExit c => SystemExit c
       | IndexError => IndexError
       | OverflowError => OverflowError
       | ValueError => ValueError
       | ZeroDivisionError => ZeroDivisionError
       end.

(** the value a computation returns, if it returns *)
Definition value {G A} (m : M G A) (g : G) : outcome A :=
  match m g with
  | Returned (a, _) => Returned a
  | SystemExit c => SystemExit c
  | IndexError => IndexError
  | OverflowError => OverflowError
  | ValueError => ValueError
  | ZeroDivisionError => ZeroDivisionError
  end.
End Run.

Notation "'do' x ← m ; k" := (Run.bind m (λ x, k))
  (at level 10, x name, m at level 100, k at level 200,
   format "'[v' 'do'  x  ←  m ; '/' k ']'").
Notation "'do_' m ; k" := (Run.bind m (λ _, k))
  (at level 10, m at level 100, k at level 200,
   format "'[v' 'do_'  m ; '/' k ']'").

(** ** The [random] module, as an interface

    [random.seed(s)] replaces the generator state by one that depends on the
    seed string only; [random.shuffle(x)] rearranges a list in place and
    advances the generator.  The Mersenne Twister is library code, so the
    allocator is verified against this interface. *)

Class RandomSource (G : Type) : Type := {
  random_seed : string → G;
  random_shuffle : ∀ {A : Type}, list A → G → list A * G;
  random_shuffle_perm :
    ∀ (A : Type) (l : list A) (g : G), (random_shuffle l g).1 ≡ₚ l
}.

(** ** Python strings: comparison *)

Definition str_lt (a b : string) : Prop := String.ltb a b = true.

Global Instance str_lt_dec a b : Decision (str_lt a b).
Proof. unfold str_lt. apply _. Defined.

(** ** Python values that occur as second tuple components *)

Class PyOrd (V : Type) : Type := {
  py_eqb : V → V → bool;   (* [==] *)
  py_ltb : V → V → bool    (* [<]  *)
}.

Global Instance int_PyOrd : PyOrd Z := {| py_eqb := Z.eqb; py_ltb := Z.ltb |}.

Global Instance rational_PyOrd : PyOrd Q :=
  {| py_eqb := Qeq_bool; py_ltb := λ x y, negb (Qle_bool y x) |}.

(** [(k1, v1) < (k2, v2)] on tuples: the first components that differ
    decide. *)
Definition tuple_ltb {V} `{PyOrd V} (x y : string * V) : bool :=
  if String.eqb x.1 y.1
  then (if py_eqb x.2 y.2 then false else py_ltb x.2 y.2)
  else String.ltb x.1 y.1.

(** ** [sorted]: a stable sort that only uses [<] *)

Section Sorted.
Context {A : Type} (ltb : A → A → bool).

(** [x] stood before every element of [l] in the input: it goes in front of
    the first element that is not smaller than it. *)
Fixpoint sorted_insert (x : A) (l : list A) : list A :=
  match l with
  | [] => [x]
  | y :: l' => if ltb y x then y :: sorted_insert x l' else x :: y :: l'
  end.

Definition sorted_by (l : list A) : list A := foldr sorted_insert [] l.
End Sorted.

(** ** Python dictionaries with string keys *)

Definition dict (V : Type) : Type := list (string * V).

Definition dict_wf {V} (d : dict V) : Prop := NoDup d.*1.

(** [d.get(k, default)] *)
Fixpoint dict_get {V} (d : dict V) (k : string) (default : V) : V :=
  match d with
  | [] => default
  | (k', v) :: d' => if String.eqb k' k then v else dict_get d' k default
  end.

(** [d[k] = v]: an existing key keeps its position, a new key is appended. *)
Fixpoint dict_set {V} (d : dict V) (k : string) (v : V) : dict V :=
  match d with
  | [] => [(k, v)]
  | (k', v') :: d' =>
      if String.eqb k' k then (k', v) :: d' else (k', v') :: dict_set d' k v
  end.

Definition dict_items {V} (d : dict V) : list (string * V) := d.
Definition dict_values {V} (d : dict V) : list V := d.*2.

(** [sorted(d.items())] *)
Definition sorted_items {V} `{PyOrd V} (d : dict V) : list (string * V) :=
  sorted_by tuple_ltb (dict_items d).

(** [sum(xs)] over integers *)
Definition py_sum (xs : list Z) : Z := foldl Z.add 0 xs.

(** [len(xs)] *)
Definition len {A} (xs : list A) : Z := Z.of_nat (length xs).

(** ** Data classes *)

(** [NFT]: an asset address and its rarity; the rarity of an input entry may
    be [None]. *)
Record NFT : Type := { asset : string; rarity : option string }.

(** The dictionary [{"asset": ..., "rarity": ...}] stored in an allocation. *)
Record NftEntry : Type := { entry_asset : string; entry_rarity : option string }.

(** [WalletAllocation] *)
Record WalletAllocation : Type := {
  wallet : string;
  nfts : list NftEntry;
  total_nfts : Z
}.

Global Instance NFT_eq_dec : EqDecision NFT.
Proof. solve_decision. Defined.
Global Instance NftEntry_eq_dec : EqDecision NftEntry.
Proof. solve_decision. Defined.
Global Instance WalletAllocation_eq_dec : EqDecision WalletAllocation.
Proof. solve_decision. Defined.

(** ** Python numbers

    An [int] is a [Z].  A [float] is an IEEE 754 binary64 value: a
    [spec_float] at the precision of 53 bits with the exponent bound 1024,
    on which every operation rounds to the nearest value, ties to even.  A
    number of a JSON file is read as an [int] when it is written without
    fraction and exponent and as a [float] otherwise; [NaN] and the
    infinities are floats. *)

Inductive number : Type :=
  | PyInt (n : Z)
  | PyFloat (x : spec_float).

Definition float_mul : spec_float → spec_float → spec_float := SFmul 53 1024.
Definition float_div : spec_float → spec_float → spec_float := SFdiv 53 1024.

(** The float nearest to the quotient of two integers, the second one not
    zero; an infinity when the quotient is out of range. *)
Definition nearest_float (a b : Z) : spec_float :=
  if a =? 0 then S754_zero (b <? 0)
  else
    let '(q, e, l) := SFdiv_core_binary 53 1024 (Z.abs a) 0 (Z.abs b) 0 in
    binary_round_aux 53 1024 (xorb (a <? 0) (b <? 0)) q e l.

(** The conversion of an [int] operand to [float]:
    [OverflowError: int too large to convert to float]. *)
Definition float_of_int (n : Z) : outcome spec_float :=
  match binary_normalize 53 1024 n 0 false with
  | S754_infinity _ => OverflowError
  | x => Returned x
  end.

(** [a / b] on two [int]s: the nearest float, or
    [OverflowError: integer division result too large for a float]. *)
Definition int_true_divide (a b : Z) : outcome spec_float :=
  if b =? 0 then ZeroDivisionError
  else
    match nearest_float a b with
    | S754_infinity _ => OverflowError
    | x => Returned x
    end.

(** [x / y] on two [float]s. *)
Definition float_true_divide (x y : spec_float) : outcome spec_float :=
  match y with
  | S754_zero _ => ZeroDivisionError
  | _ => Returned (float_div x y)
  end.

(** [a * b] *)
Definition py_mul (a b : number) : outcome number :=
  match a, b with
  | PyInt m, PyInt n => Returned (PyInt (m * n))
  | PyInt m, PyFloat y => x ← float_of_int m; Returned (PyFloat (float_mul x y))
  | PyFloat x, PyInt n => y ← float_of_int n; Returned (PyFloat (float_mul x y))
  | PyFloat x, PyFloat y => Returned (PyFloat (float_mul x y))
  end.

(** [a / b] *)
Definition py_truediv (a b : number) : outcome number :=
  match a, b with
  | PyInt m, PyInt n => PyFloat <$> int_true_divide m n
  | PyInt m, PyFloat y => x ← float_of_int m; PyFloat <$> float_true_divide x y
  | PyFloat x, PyInt n => y ← float_of_int n; PyFloat <$> float_true_divide x y
  | PyFloat x, PyFloat y => PyFloat <$> float_true_divide x y
  end.

(** [int(x)]: an [int] is returned as it is; a [float] is truncated towards
    zero, [NaN] is a [ValueError] and an infinity an [OverflowError]. *)
Definition py_int (x : number) : outcome Z :=
  match x with
  | PyInt n => Returned n
  | PyFloat S754_nan => ValueError
  | PyFloat (S754_infinity _) => OverflowError
  | PyFloat (S754_zero _) => Returned 0
  | PyFloat (S754_finite s m e) =>
      Returned (cond_Zopp s (Z.shiftl (Z.pos m) e))
  end.

(** The order of two numbers; [None] when one of them is [NaN].  An [int]
    and a [float] are compared by their exact values. *)
Definition float_compare_int (x : spec_float) (n : Z) : option comparison :=
  match x with
  | S754_nan => None
  | S754_infinity s => Some (if s then Lt else Gt)
  | S754_zero _ => Some (0 ?= n)
  | S754_finite s m e =>
      if 0 <=? e then Some (cond_Zopp s (Z.pos m) * 2 ^ e ?= n)
      else Some (cond_Zopp s (Z.pos m) ?= n * 2 ^ (- e))
  end.

Definition number_compare (a b : number) : option comparison :=
  match a, b with
  | PyInt m, PyInt n => Some (m ?= n)
  | PyFloat x, PyFloat y => SFcompare x y
  | PyFloat x, PyInt n => float_compare_int x n
  | PyInt m, PyFloat y => CompOpp <$> float_compare_int y m
  end.

Global Instance number_PyOrd : PyOrd number :=
  {| py_eqb := λ a b, bool_decide (number_compare a b = Some Eq);
     py_ltb := λ a b, bool_decide (number_compare a b = Some Lt) |}.

(** ** [NFTAllocator.generate_nft_pool] *)

(** [int(total_nfts * percentage / 100)] *)
Definition percentage_count (total_nfts : Z) (percentage : number)
    : outcome Z :=
  product ← py_mul (PyInt total_nfts) percentage;
  share ← py_truediv product (PyInt 100);
  py_int share.

(** The loop over [enumerate(sorted_rarities)] that fills [rarity_counts];
    [i] is the index of the head of [entries], [n] is [len(sorted_rarities)]. *)
Fixpoint count_rarities (total_nfts n i : Z) (entries : list (string * number))
    (rarity_counts : dict Z) (remaining_nfts : Z) : outcome (dict Z * Z) :=
  match entries with
  | [] => Returned (rarity_counts, remaining_nfts)
  | (rarity, percentage) :: rest =>
      if i =? n - 1 then
        let count := remaining_nfts in
        count_rarities total_nfts n (i + 1) rest
          (dict_set rarity_counts rarity count) remaining_nfts
      else
        count ← percentage_count total_nfts percentage;
        count_rarities total_nfts n (i + 1) rest
          (dict_set rarity_counts rarity count) (remaining_nfts - count)
  end.

(** [actual_percentage = (count / total_nfts) * 100], for each entry of
    the sorted counts: the numbers of the distribution that is printed. *)
Definition actual_percentage (count total_nfts : Z) : outcome number :=
  ratio ← py_truediv (PyInt count) (PyInt total_nfts);
  py_mul ratio (PyInt 100).

Fixpoint print_distribution (entries : list (string * Z)) (total_nfts : Z)
    : outcome (list (string * Z * number)) :=
  match entries with
  | [] => Returned []
  | (rarity, count) :: rest =>
      percentage ← actual_percentage count total_nfts;
      lines ← print_distribution rest total_nfts;
      Returned ((rarity, count, percentage) :: lines)
  end.

(** The loop that counts the rarities of the pre-assigned branch, in which
    every item has one. *)
Definition tally_rarities (rarities : list string) : dict Z :=
  foldl (λ rarity_counts rarity,
           dict_set rarity_counts rarity (dict_get rarity_counts rarity 0 + 1))
        [] rarities.

(** [for _ in range(count)]: one rarity handed to the next assets, as long as
    assets are left. *)
Fixpoint assign_rarity (iterations : nat) (asset_addresses : list string)
    (rarity : string) (asset_rarity_pairs : list (string * string))
    (asset_index : nat) : outcome (list (string * string) * nat) :=
  match iterations with
  | O => Returned (asset_rarity_pairs, asset_index)
  | S iterations' =>
      if bool_decide (asset_index < length asset_addresses)%nat then
        match asset_addresses !! asset_index with
        | Some a =>
            assign_rarity iterations' asset_addresses rarity
              (asset_rarity_pairs ++ [(a, rarity)]) (S asset_index)
        | None => IndexError
        end
      else
        assign_rarity iterations' asset_addresses rarity
          asset_rarity_pairs asset_index
  end.

(** [for rarity, count in sorted(rarity_counts.items())] *)
Fixpoint assign_rarities (buckets : list (string * Z))
    (asset_addresses : list string)
    (asset_rarity_pairs : list (string * string)) (asset_index : nat)
    : outcome (list (string * string)) :=
  match buckets with
  | [] => Returned asset_rarity_pairs
  | (rarity, count) :: rest =>
      match assign_rarity (Z.to_nat count) asset_addresses rarity
              asset_rarity_pairs asset_index with
      | Returned (pairs', index') =>
          assign_rarities rest asset_addresses pairs' index'
      | SystemExit c => SystemExit c
      | IndexError => IndexError
      | OverflowError => OverflowError
      | ValueError => ValueError
      | ZeroDivisionError => ZeroDivisionError
      end
  end.

(** The table [rarity_counts] of the percentage branch. *)
Definition rarity_counts_of (total_nfts : Z) (table : dict number)
    : outcome (dict Z) :=
  let sorted_rarities := sorted_items table in
  fst <$> count_rarities total_nfts (len sorted_rarities) 0 sorted_rarities
            [] total_nfts.

Section Allocator.
Context {G : Type} `{RandomSource G}.

(** [NFTAllocator.__init__]: [random.seed(seed)] *)
Definition NFTAllocator_init (seed : string) : Run.M G unit :=
  Run.put (random_seed seed).

Definition generate_nft_pool (nft_assets : list (string * option string))
    (rarity_percentages : option (dict number)) : Run.M G (list NFT) :=
  let total_nfts := len nft_assets in
  let pre_assigned_rarities := omap snd nft_assets in
  if len pre_assigned_rarities =? total_nfts then
    let rarity_counts := tally_rarities pre_assigned_rarities in
    do_ Run.lift (print_distribution (sorted_items rarity_counts) total_nfts);
    let nft_pool := (λ '(a, r), {| asset := a; rarity := r |}) <$> nft_assets in
    Run.call (random_shuffle nft_pool)
  else
    match rarity_percentages with
    | None | Some [] => Run.sys_exit 1
    | Some table =>
        let asset_addresses := nft_assets.*1 in
        do rarity_counts ← Run.lift (rarity_counts_of total_nfts table);
        do_ Run.lift (print_distribution (sorted_items rarity_counts)
                        total_nfts);
        do asset_rarity_pairs ←
          Run.lift (assign_rarities (sorted_items rarity_counts)
                      asset_addresses [] 0%nat);
        do shuffled ← Run.call (random_shuffle asset_rarity_pairs);
        Run.ret ((λ '(a, r), {| asset := a; rarity := Some r |}) <$> shuffled)
    end.

(** One run of the tool up to the pool: construct the allocator from the
    seed, then build the pool. *)
Definition seeded_pool (seed : string)
    (nft_assets : list (string * option string))
    (rarity_percentages : option (dict number)) : Run.M G (list NFT) :=
  do_ NFTAllocator_init seed;
  generate_nft_pool nft_assets rarity_percentages.
End Allocator.

(** ** [NFTAllocator.allocate_nfts] *)

(** [for _ in range(nft_count)] with its [break] when the pool is used up. *)
Fixpoint draw (iterations : nat) (nft_pool : list NFT)
    (wallet_nfts : list NftEntry) (nft_index : nat)
    : outcome (list NftEntry * nat) :=
  match iterations with
  | O => Returned (wallet_nfts, nft_index)
  | S iterations' =>
      if bool_decide (length nft_pool ≤ nft_index)%nat then
        Returned (wallet_nfts, nft_index)
      else
        match nft_pool !! nft_index with
        | Some nft =>
            draw iterations' nft_pool
              (wallet_nfts ++
                 [{| entry_asset := asset nft; entry_rarity := rarity nft |}])
              (S nft_index)
        | None => IndexError
        end
  end.

(** [for wallet, nft_count in sorted_wallets] *)
Fixpoint allocate_loop (sorted_wallets : list (string * Z))
    (nft_pool : list NFT) (allocations : list WalletAllocation)
    (nft_index : nat) : outcome (list WalletAllocation) :=
  match sorted_wallets with
  | [] => Returned allocations
  | (w, nft_count) :: rest =>
      match draw (Z.to_nat nft_count) nft_pool [] nft_index with
      | Returned (wallet_nfts, nft_index') =>
          allocate_loop rest nft_pool
            (allocations ++
               [{| wallet := w; nfts := wallet_nfts;
                   total_nfts := len wallet_nfts |}])
            nft_index'
      | SystemExit c => SystemExit c
      | IndexError => IndexError
      | OverflowError => OverflowError
      | ValueError => ValueError
      | ZeroDivisionError => ZeroDivisionError
      end
  end.

Definition allocate_nfts (nft_pool : list NFT) (eligible_wallets : dict Z)
    : outcome (list WalletAllocation) :=
  let sorted_wallets := sorted_items eligible_wallets in
  allocate_loop sorted_wallets nft_pool [] 0%nat.

(** ** [NFTAllocator.validate_allocation] *)

(** What the validator prints before it returns. *)
Inductive verdict : Type :=
  | Valid
  | WrongCount (w : string) (expected got : Z)
  | DuplicateAsset (a : string)
  | TotalMismatch (total_allocated expected_total : Z)
  | OverAllocated (total_allocated total : Z).

(** [for nft in allocation.nfts]: the duplicate check against [unique_ids]. *)
Fixpoint check_nfts (entries : list NftEntry) (unique_ids : gset string)
    : string + gset string :=
  match entries with
  | [] => inr unique_ids
  | nft :: rest =>
      let nft_asset := entry_asset nft in
      if bool_decide (nft_asset ∈ unique_ids) then inl nft_asset
      else check_nfts rest (unique_ids ∪ {[nft_asset]})
  end.

(** [for allocation in allocations] *)
Fixpoint check_allocations (allocations : list WalletAllocation)
    (eligible_wallets : dict Z) (total_allocated : Z)
    (unique_ids : gset string) : verdict + Z :=
  match allocations with
  | [] => inr total_allocated
  | allocation :: rest =>
      let expected := dict_get eligible_wallets (wallet allocation) 0 in
      if negb (total_nfts allocation =? expected) then
        inl (WrongCount (wallet allocation) expected (total_nfts allocation))
      else
        let total_allocated := total_allocated + total_nfts allocation in
        match check_nfts (nfts allocation) unique_ids with
        | inl a => inl (DuplicateAsset a)
        | inr unique_ids' =>
            check_allocations rest eligible_wallets total_allocated unique_ids'
        end
  end.

Definition validate_report (allocations : list WalletAllocation)
    (eligible_wallets : dict Z) (total_nfts : Z) : verdict :=
  match check_allocations allocations eligible_wallets 0 ∅ with
  | inl failure => failure
  | inr total_allocated =>
      let expected_total := py_sum (dict_values eligible_wallets) in
      if negb (total_allocated =? expected_total) then
        TotalMismatch total_allocated expected_total
      else if total_allocated >? total_nfts then
        OverAllocated total_allocated total_nfts
      else Valid
  end.

Definition validate_allocation (allocations : list WalletAllocation)
    (eligible_wallets : dict Z) (total_nfts : Z) : bool :=
  match validate_report allocations eligible_wallets total_nfts with
  | Valid => true
  | _ => false
  end.

(** ** The final verification of [main] *)

(** The two nested loops that collect [allocated_assets]. *)
Definition allocated_assets (allocations : list WalletAllocation) : gset string :=
  foldl (λ acc allocation,
           foldl (λ acc nft, acc ∪ {[entry_asset nft]}) acc (nfts allocation))
        ∅ allocations.

(** [set(asset for asset, _ in nft_assets)] *)
Definition original_assets (nft_assets : list (string * option string))
    : gset string :=
  list_to_set nft_assets.*1.

(** [missing = original_assets - allocated_assets] *)
Definition missing (original : gset string)
    (allocations : list WalletAllocation) : gset string :=
  original ∖ allocated_assets allocations.

(** [extra = allocated_assets - original_assets] *)
Definition extra (original : gset string)
    (allocations : list WalletAllocation) : gset string :=
  allocated_assets allocations ∖ original.

(** ** [save_allocations] *)

(** The object that [save_allocations] writes. *)
Record AllocationFile : Type := {
  file_allocations : list WalletAllocation;
  total_wallets : Z;
  file_total_nfts_allocated : Z
}.

Definition save_allocations (allocations : list WalletAllocation)
    : AllocationFile :=
  {| file_allocations := allocations;
     total_wallets := len allocations;
     file_total_nfts_allocated := py_sum (total_nfts <$> allocations) |}.

(** ** [main], from the loaded values on

    [seed] and [rarity_percentages] are the two entries that [main] reads
    from the configuration with [config.get] ([None] when the key is
    missing); [nft_assets] and [eligible_wallets_data] are what the loaders
    returned.  The run ends in [sys.exit(1)] or with the object that is
    saved. *)

Definition default_seed : string := "pikamoon-nft-airdrop-2025".

Section Main.
Context {G : Type} `{RandomSource G}.

Definition main_flow (config_seed : option string)
    (rarity_percentages : option (dict number))
    (nft_assets : list (string * option string))
    (eligible_wallets_data : dict Z) : Run.M G AllocationFile :=
  let seed := default default_seed config_seed in
  let total_nfts := len nft_assets in
  let initial_requested := py_sum (dict_values eligible_wallets_data) in
  if negb (initial_requested =? total_nfts) then Run.sys_exit 1
  else
    let has_valid_counts :=
      forallb (λ count, count >? 0) (dict_values eligible_wallets_data) in
    if negb has_valid_counts then Run.sys_exit 1
    else
      let eligible_wallets := eligible_wallets_data in
      do_ NFTAllocator_init seed;
      do nft_pool ← generate_nft_pool nft_assets rarity_percentages;
      do allocations ← Run.lift (allocate_nfts nft_pool eligible_wallets);
      if negb (validate_allocation allocations eligible_wallets total_nfts)
      then Run.sys_exit 1
      else
        let original := original_assets nft_assets in
        if bool_decide (missing original allocations ≠ ∅) then Run.sys_exit 1
        else if bool_decide (extra original allocations ≠ ∅) then
          Run.sys_exit 1
        else Run.ret (save_allocations allocations).
End Main.

(** ** JSON values and the loaders

    A value that [json.load] returns: [None], a [bool], an [int], a [float]
    (a finite one, as an exact rational; [NaN] and the infinities are left
    out), a [str], a [list], or a [dict] whose keys are strings. *)

#[warnings="-register-all"]
Inductive json : Type :=
  | JNull
  | JBool (b : bool)
  | JInt (n : Z)
  | JFloat (x : Q)
  | JStr (s : string)
  | JList (items : list json)
  | JDict (members : dict json).

(** What [open] and [json.load] make of a path: [FileNotFoundError],
    [json.JSONDecodeError], or the parsed value. *)
Inductive file_read : Type :=
  | FileNotFound
  | InvalidJson
  | Parsed (data : json).

(** Exceptions that the loaders and the verifier can run into. *)
Inductive py_exception : Type :=
  | TypeError
  | KeyError
  | AttributeError.

(** How a call ends: with a value, in [sys.exit(code)], or with an exception
    that no handler of the function catches. *)
Inductive completion (A : Type) : Type :=
  | Value (a : A)
  | Exited (code : Z)
  | Raised (e : py_exception).
Arguments Value {A} a.
Arguments Exited {A} code.
Arguments Raised {A} e.

(** [d[k]] and [k in d], as one lookup. *)
Fixpoint dict_lookup {V} (d : dict V) (k : string) : option V :=
  match d with
  | [] => None
  | (k', v) :: d' => if String.eqb k' k then Some v else dict_lookup d' k
  end.

(** The characters of a string: a byte of the form [10xxxxxx] continues the
    character that the bytes before it began. *)
Definition is_continuation (c : Ascii.ascii) : bool :=
  let n := Ascii.N_of_ascii c in ((128 <=? n) && (n <? 192))%N.

Definition py_chars (s : string) : list string :=
  let '(pending, chars) :=
    foldr (λ c '(pending, chars),
             if is_continuation c then (String c pending, chars)
             else (EmptyString, String c pending :: chars))
          (EmptyString, []) (String.list_ascii_of_string s) in
  match pending with
  | EmptyString => chars
  | _ => pending :: chars
  end.

(** [for item in value]: the items of a list, the characters of a string,
    the keys of a dictionary; other values are not iterable. *)
Definition py_iter (value : json) : completion (list json) :=
  match value with
  | JList items => Value items
  | JStr s => Value (JStr <$> py_chars s)
  | JDict members => Value (JStr <$> members.*1)
  | JNull | JBool _ | JInt _ | JFloat _ => Raised TypeError
  end.

(** *** [load_config] *)

Definition load_config (config_file : file_read) : completion json :=
  match config_file with
  | FileNotFound => Exited 1
  | InvalidJson => Exited 1
  | Parsed data => Value data
  end.

(** *** [load_nft_assets] *)

(** The body of the loop over the items: an object with an ["asset"] member
    gives its asset and its rarity ([None] when there is none), a string
    gives itself without rarity, anything else is passed over. *)
Definition load_asset_item (item : json) : option (json * json) :=
  match item with
  | JDict members =>
      match dict_lookup members "asset" with
      | Some asset =>
          let rarity := dict_get members "rarity" JNull in
          Some (asset, rarity)
      | None => None
      end
  | JStr s => Some (JStr s, JNull)
  | _ => None
  end.

Definition load_nft_assets (assets_file : file_read)
    : completion (list (json * json)) :=
  match assets_file with
  | FileNotFound => Exited 1
  | InvalidJson => Exited 1
  | Parsed data =>
      match data with
      | JList items => Value (omap load_asset_item items)
      | JDict members =>
          match dict_lookup members "assets" with
          | Some assets =>
              match py_iter assets with
              | Value items => Value (omap load_asset_item items)
              | Exited code => Exited code
              | Raised e => Raised e
              end
          | None => Exited 1
          end
      | _ => Exited 1
      end
  end.

(** *** [load_eligible_wallets] *)

(** Values that can be keys of a dictionary. *)
Definition hashable (value : json) : bool :=
  match value with
  | JList _ | JDict _ => false
  | _ => true
  end.

(** The number that a [bool], an [int] or a [float] stands for. *)
Definition number_of (value : json) : option Q :=
  match value with
  | JBool b => Some (inject_Z (if b then 1 else 0))
  | JInt n => Some (inject_Z n)
  | JFloat x => Some x
  | _ => None
  end.

(** [==] on keys: numbers by their value, strings by their text. *)
Definition key_eqb (a b : json) : bool :=
  match a, b with
  | JNull, JNull => true
  | JStr s, JStr t => String.eqb s t
  | _, _ =>
      match number_of a, number_of b with
      | Some x, Some y => Qeq_bool x y
      | _, _ => false
      end
  end.

(** [d[key] = value] on a dictionary with arbitrary keys: an equal key keeps
    its place and its key object. *)
Fixpoint pydict_set (d : list (json * json)) (key value : json)
    : list (json * json) :=
  match d with
  | [] => [(key, value)]
  | (k, v) :: d' =>
      if key_eqb k key then (k, value) :: d'
      else (k, v) :: pydict_set d' key value
  end.

(** [{wallet: 0 for wallet in data}] *)
Fixpoint zero_counts (data : list json) (d : list (json * json))
    : completion (list (json * json)) :=
  match data with
  | [] => Value d
  | w :: rest =>
      if hashable w then zero_counts rest (pydict_set d w (JInt 0))
      else Raised TypeError
  end.

Definition load_eligible_wallets (wallets_file : file_read)
    : completion (list (json * json)) :=
  match wallets_file with
  | FileNotFound => Exited 1
  | InvalidJson => Exited 1
  | Parsed data =>
      match data with
      | JDict members => Value ((λ kv, (JStr kv.1, kv.2)) <$> members)
      | JList items => zero_counts items []
      | _ => Exited 1
      end
  end.

(** *** Loaded values of the expected types *)

(** The assets as [generate_nft_pool] takes them: addresses that are
    strings, rarities that are strings or [None]. *)
Definition typed_asset (ar : json * json) : option (string * option string) :=
  match ar with
  | (JStr a, JNull) => Some (a, None)
  | (JStr a, JStr r) => Some (a, Some r)
  | _ => None
  end.

Definition typed_assets (loaded : list (json * json))
    : option (list (string * option string)) :=
  mapM typed_asset loaded.

(** The wallet table as [main] takes it: wallets that are strings, counts
    that are integers. *)
Definition typed_wallet (wc : json * json) : option (string * Z) :=
  match wc with
  | (JStr w, JInt n) => Some (w, n)
  | _ => None
  end.

Definition typed_wallets (loaded : list (json * json)) : option (dict Z) :=
  mapM typed_wallet loaded.

(** ** What [save_allocations] writes, as [json.load] reads it back *)

(** An entry [{"asset": ..., "rarity": ...}] *)
Definition entry_json (e : NftEntry) : json :=
  JDict [("asset", JStr (entry_asset e));
         ("rarity", from_option JStr JNull (entry_rarity e))].

(** [asdict(alloc)] *)
Definition allocation_json (a : WalletAllocation) : json :=
  JDict [("wallet", JStr (wallet a));
         ("nfts", JList (entry_json <$> nfts a));
         ("total_nfts", JInt (total_nfts a))].

(** [output_data] *)
Definition file_json (file : AllocationFile) : json :=
  JDict [("allocations", JList (allocation_json <$> file_allocations file));
         ("total_wallets", JInt (total_wallets file));
         ("total_nfts_allocated", JInt (file_total_nfts_allocated file))].

(** ** [verify.py]: [verify_allocation]

    Every exception that the body raises is caught by one of the handlers,
    and every handler returns 1.  The steps of the body are therefore
    written as partial functions, [None] standing for an exception. *)

(** [value[key]] for a string [key]: a dictionary with that key answers; a
    missing key raises [KeyError], any other value [TypeError]. *)
Definition py_getitem (value : json) (key : string) : option json :=
  match value with
  | JDict members => dict_lookup members key
  | _ => None
  end.

(** [len(value)] *)
Definition py_len (value : json) : option Z :=
  match value with
  | JList items => Some (len items)
  | JDict members => Some (len members)
  | JStr s => Some (len (py_chars s))
  | _ => None
  end.

(** [for item in value], as the list of the items *)
Definition py_items (value : json) : option (list json) :=
  match py_iter value with
  | Value items => Some items
  | _ => None
  end.

(** [x == y] on loaded values: numbers by value, strings by text, lists item
    by item, dictionaries member by member whatever the order. *)
Fixpoint json_eqb (a b : json) {struct a} : bool :=
  match a, b with
  | JNull, JNull => true
  | JStr s, JStr t => String.eqb s t
  | JList xs, JList ys =>
      (fix items_eqb (xs ys : list json) : bool :=
         match xs, ys with
         | [], [] => true
         | x :: xs', y :: ys' => json_eqb x y && items_eqb xs' ys'
         | _, _ => false
         end) xs ys
  | JDict m, JDict m' =>
      (length m =? length m')%nat &&
      (fix members_eqb (m : list (string * json)) : bool :=
         match m with
         | [] => true
         | (k, v) :: rest =>
             match dict_lookup m' k with
             | Some v' => json_eqb v v'
             | None => false
             end && members_eqb rest
         end) m
  | _, _ =>
      match number_of a, number_of b with
      | Some x, Some y => Qeq_bool x y
      | _, _ => false
      end
  end.

(** [x in keys] for a set or a list of hashable values *)
Definition key_in (x : json) (keys : list json) : bool :=
  existsb (key_eqb x) keys.

(** [len(xs) == len(set(xs))] *)
Fixpoint distinct_keys (xs : list json) : bool :=
  match xs with
  | [] => true
  | x :: rest => negb (key_in x rest) && distinct_keys rest
  end.

(** The values as set elements or dictionary keys: an unhashable one raises
    [TypeError]. *)
Definition as_keys (xs : list json) : option (list json) :=
  if forallb hashable xs then Some xs else None.

(** [eligible_wallets.get(wallet, 0)]: only a dictionary has [get]. *)
Definition wallets_get (eligible_wallets wallet : json) : option json :=
  match eligible_wallets with
  | JDict members =>
      match wallet with
      | JStr w => Some (dict_get members w (JInt 0))
      | _ => Some (JInt 0)
      end
  | _ => None
  end.

(** [nft_id < 1 or nft_id > total_nfts]: the comparisons are between
    numbers, anything else raises [TypeError]; the second one is made only
    when the first is false. *)
Definition id_out_of_range (nft_id total_nfts : json) : option bool :=
  match number_of nft_id with
  | None => None
  | Some x =>
      if negb (Qle_bool (inject_Z 1) x) then Some true
      else match number_of total_nfts with
           | Some t => Some (negb (Qle_bool x t))
           | None => None
           end
  end.

(** [sorted(rarity_counts.items())] compares the keys, which differ, and
    raises [TypeError] unless they are all numbers or all strings; a single
    key is compared with nothing. *)
Definition sortable_keys (keys : list json) : bool :=
  match keys with
  | [] | [_] => true
  | _ =>
      forallb (λ k, bool_decide (is_Some (number_of k))) keys
      || forallb (λ k, match k with JStr _ => true | _ => false end) keys
  end.

(** The keys of a dictionary filled by [d[key] = ...] for each of [xs]. *)
Definition keys_of_counts (xs : list json) : list json :=
  foldl (λ keys x, if key_in x keys then keys else keys ++ [x]) [] xs.

(** The field [field] of every item of every ["nfts"] list. *)
Definition nft_fields (allocations : list json) (field : string)
    : option (list json) :=
  per_allocation ← mapM (λ alloc,
                           nfts ← py_getitem alloc "nfts";
                           items ← py_items nfts;
                           mapM (λ nft, py_getitem nft field) items)
                        allocations;
  Some (concat per_allocation).

Definition verify_checks (config eligible_wallets allocation_data : json)
    : option bool :=
  allocations_value ← py_getitem allocation_data "allocations";
  _ ← py_getitem config "seed";
  _ ← py_len eligible_wallets;
  _ ← py_len allocations_value;
  allocations ← py_items allocations_value;
  (* check 1 *)
  wallets ← mapM (λ alloc, py_getitem alloc "wallet") allocations;
  allocation_wallets ← as_keys wallets;
  eligible ← py_items eligible_wallets;
  eligible_keys ← as_keys eligible;
  let check1 := forallb (λ wallet, key_in wallet allocation_wallets)
                        eligible_keys in
  (* check 2 *)
  counts ← mapM (λ alloc,
                   wallet ← py_getitem alloc "wallet";
                   expected ← wallets_get eligible_wallets wallet;
                   actual ← py_getitem alloc "total_nfts";
                   Some (json_eqb expected actual))
                allocations;
  let check2 := forallb id counts in
  (* check 3 *)
  all_nft_ids ← nft_fields allocations "id";
  ids ← as_keys all_nft_ids;
  let check3 := distinct_keys ids in
  (* check 4 *)
  total_nfts ← py_getitem config "total_nfts";
  ranges ← mapM (λ nft_id, id_out_of_range nft_id total_nfts) all_nft_ids;
  let check4 := forallb negb ranges in
  (* check 5 *)
  rarities ← nft_fields allocations "rarity";
  rarity_keys ← as_keys rarities;
  let keys := keys_of_counts rarity_keys in
  _ ← (if sortable_keys keys then Some tt else None);
  _ ← (match keys with
       | [] => Some tt
       | _ :: _ =>
           percentages ← py_getitem config "rarity_percentages";
           match percentages with
           | JDict _ => Some tt
           | _ => None
           end
       end);
  Some (check1 && check2 && check3 && check4).

Definition verify_allocation
    (config_file wallets_file allocation_file : file_read) : Z :=
  match config_file, wallets_file, allocation_file with
  | Parsed config, Parsed eligible_wallets, Parsed allocation_data =>
      match verify_checks config eligible_wallets allocation_data with
      | Some true => 0
      | Some false => 1
      | None => 1
      end
  | _, _, _ => 1
  end.

(** ** A reference generator

    A linear congruential generator driving the exchange loop of
    [random.shuffle]: for [i] from [len(x) - 1] down to [1], exchange [x[i]]
    with [x[j]] for a [j] drawn below [i + 1].  It realises [RandomSource]
    and serves to run the allocator on concrete inputs. *)

Module Lcg.
Definition state : Type := Z.

Definition next (g : state) : state :=
  (g * 6364136223846793005 + 1442695040888963407) mod 2 ^ 64.

Definition seed (s : string) : state :=
  foldl (λ g c, next (g + Z.of_nat (Ascii.nat_of_ascii c))) 0
        (String.list_ascii_of_string s).

Definition randbelow (n : nat) (g : state) : nat * state :=
  (Z.to_nat ((g / 2 ^ 33) mod Z.of_nat n), next g).

(** [x[i], x[j] = x[j], x[i]] *)
Definition exchange {A} (x : list A) (i j : nat) : list A :=
  match x !! i, x !! j with
  | Some xi, Some xj => <[j:=xi]> (<[i:=xj]> x)
  | _, _ => x
  end.

Fixpoint shuffle_from {A} (i : nat) (x : list A) (g : state)
    : list A * state :=
  match i with
  | O => (x, g)
  | S i' =>
      let '(j, g') := randbelow (S i) g in
      shuffle_from i' (exchange x i j) g'
  end.

Definition shuffle {A} (x : list A) (g : state) : list A * state :=
  shuffle_from (length x - 1) x g.
End Lcg.

(** * The vocabulary of the statements

    The predicates the claims speak of, closed forms of the loops for the
    proofs, and the inputs of the concrete runs. *)

(** ** Sorted dictionaries *)

(** Tuples are ordered by their keys: the relation of a sorted dictionary. *)
Definition key_lt {V} (x y : string * V) : Prop := str_lt x.1 y.1.

(** ** Allocations *)

(** The entry that [allocate_nfts] stores for an item of the pool. *)
Definition to_entry (nft : NFT) : NftEntry :=
  {| entry_asset := asset nft; entry_rarity := rarity nft |}.

(** The allocations written as slices of what the cursor has left; a closed
    form of [allocate_loop] for the proofs below. *)
Fixpoint cursor_slices (ws : list (string * Z)) (rest : list NFT)
    : list WalletAllocation :=
  match ws with
  | [] => []
  | (w, c) :: ws' =>
      let wallet_nfts := to_entry <$> take (Z.to_nat c) rest in
      {| wallet := w; nfts := wallet_nfts; total_nfts := len wallet_nfts |}
        :: cursor_slices ws' (drop (Z.to_nat c) rest)
  end.

(** The items of a list of allocations, in order. *)
Definition all_nfts (allocations : list WalletAllocation) : list NftEntry :=
  concat (nfts <$> allocations).

(** The number of draws a sorted table asks for. *)
Definition draws (ws : list (string * Z)) : nat :=
  sum_list ((λ wc, Z.to_nat wc.2) <$> ws).

(** The set of asset addresses of a pool. *)
Definition pool_assets (nft_pool : list NFT) : gset string :=
  list_to_set (asset <$> nft_pool).

(** ** The validator's checks *)

(** The asset addresses of a list of entries. *)
Definition assets_of (entries : list NftEntry) : list string :=
  entry_asset <$> entries.

(** The count check on one allocation. *)
Definition count_ok (eligible_wallets : dict Z) (a : WalletAllocation) : Prop :=
  total_nfts a = dict_get eligible_wallets (wallet a) 0.

(** An asset address that occurs in two different allocations of the list. *)
Definition in_two_allocations (allocations : list WalletAllocation)
    (x : string) : Prop :=
  ∃ i j a b, i ≠ j ∧ allocations !! i = Some a ∧ allocations !! j = Some b ∧
             x ∈ assets_of (nfts a) ∧ x ∈ assets_of (nfts b).

(** The four checks, read literally: counts, no address in more than one
    allocation, conservation, and the bound by the pool size. *)
Definition four_checks (allocations : list WalletAllocation)
    (eligible_wallets : dict Z) (total_pool_size : Z) : Prop :=
  Forall (count_ok eligible_wallets) allocations ∧
  (∀ x, ¬ in_two_allocations allocations x) ∧
  py_sum (total_nfts <$> allocations) = py_sum (dict_values eligible_wallets) ∧
  py_sum (total_nfts <$> allocations) ≤ total_pool_size.

(** An allocation with its entries removed and its count kept. *)
Definition without_entries (a : WalletAllocation) : WalletAllocation :=
  {| wallet := wallet a; nfts := []; total_nfts := total_nfts a |}.

(** [x] occurs at least twice in [l]. *)
Definition occurs_twice (x : string) (l : list string) : Prop :=
  ∃ pre post, l = pre ++ x :: post ∧ x ∈ pre.

(** ** The pool builder *)

(** The pool items of the two branches. *)
Definition to_nft (ar : string * option string) : NFT :=
  {| asset := ar.1; rarity := ar.2 |}.

Definition to_labelled_nft (ar : string * string) : NFT :=
  {| asset := ar.1; rarity := Some ar.2 |}.

(** Some entries carry a rarity and some do not. *)
Definition mixed_labels (nft_assets : list (string * option string)) : Prop :=
  (∃ a r, (a, Some r) ∈ nft_assets) ∧ (∃ a, (a, None) ∈ nft_assets).

(** The counts written bucket by bucket; a closed form of [count_rarities]
    for the proofs below. *)
Fixpoint bucket_counts (total_nfts : Z) (entries : list (string * number))
    (remaining_nfts : Z) : outcome (list (string * Z)) :=
  match entries with
  | [] => Returned []
  | (r, p) :: rest =>
      match rest with
      | [] => Returned [(r, remaining_nfts)]
      | _ :: _ =>
          count ← percentage_count total_nfts p;
          counts ← bucket_counts total_nfts rest (remaining_nfts - count);
          Returned ((r, count) :: counts)
      end
  end.

(** The arithmetic of the percentage branch: the table of counts, when
    neither a count nor a percentage of the printed distribution raises. *)
Definition percentage_distribution (total_nfts : Z) (table : dict number)
    : outcome (dict Z) :=
  rarity_counts ← rarity_counts_of total_nfts table;
  _ ← print_distribution (sorted_items rarity_counts) total_nfts;
  Returned rarity_counts.

(** An outcome of arithmetic: a value, an [OverflowError] or a
    [ValueError]. *)
Definition arithmetic {A} (o : outcome A) : Prop :=
  match o with
  | Returned _ | OverflowError | ValueError => True
  | _ => False
  end.

(** The pairs written as labelled slices of the assets that are left; a closed
    form of [assign_rarities] for the proofs below. *)
Fixpoint label_buckets (buckets : list (string * Z)) (rest : list string)
    : list (string * string) :=
  match buckets with
  | [] => []
  | (r, c) :: buckets' =>
      ((λ a, (a, r)) <$> take (Z.to_nat c) rest)
        ++ label_buckets buckets' (drop (Z.to_nat c) rest)
  end.

(** The pairs that the percentage branch shuffles, from the table of
    counts. *)
Definition percentage_pairs (nft_assets : list (string * option string))
    (rarity_counts : dict Z) : list (string * string) :=
  label_buckets rarity_counts nft_assets.*1.

(** Two readings of the optional percentage table with the same entries,
    in any order. *)
Definition same_table (a b : option (dict number)) : Prop :=
  match a, b with
  | None, None => True
  | Some table, Some reordered => reordered ≡ₚ table
  | _, _ => False
  end.


(** The number of pairs that carry the rarity [r]. *)
Definition labelled (r : string) (pairs : list (string * string)) : nat :=
  length (filter (λ p, p.2 = r) pairs).

(** The number of items of the pool that carry the rarity [r]. *)
Definition count_rarity (r : string) (nft_pool : list NFT) : Z :=
  len (filter (λ nft, rarity nft = Some r) nft_pool).

(** The rational that a number stands for; [NaN] and the infinities stand
    for none. *)
Definition number_value (p : number) : option Q :=
  match p with
  | PyInt n => Some (inject_Z n)
  | PyFloat (S754_zero _) => Some (inject_Z 0)
  | PyFloat (S754_finite s m e) =>
      if 0 <=? e then Some (inject_Z (cond_Zopp s (Z.pos m) * 2 ^ e))
      else Some (Qmake (cond_Zopp s (Z.pos m)) (Z.to_pos (2 ^ (- e))))
  | PyFloat _ => None
  end.

(** The floor of [n * percentage / 100], in exact arithmetic on the value
    of the percentage. *)
Definition floor_share (n : Z) (percentage : number) : Z :=
  match number_value percentage with
  | Some q => Qfloor (inject_Z n * q / inject_Z 100)%Q
  | None => 0
  end.

(** A percentage between 0 and 100. *)
Definition percentage_in_range (e : string * number) : Prop :=
  match number_value e.2 with
  | Some q => (0 <= q)%Q ∧ (q <= inject_Z 100)%Q
  | None => False
  end.

Global Instance percentage_in_range_dec e : Decision (percentage_in_range e).
Proof.
  unfold percentage_in_range. destruct (number_value e.2) as [q|]; [|apply _].
  refine (cast_if_and (decide (Qle_bool 0 q = true))
                      (decide (Qle_bool q (inject_Z 100) = true)));
    abstract (rewrite ?Qle_bool_iff in *; tauto).
Defined.

(** The float that a decimal literal [digits * 10 ^ exponent] of a JSON
    file is read as: the nearest one. *)
Definition float_literal (digits exponent : Z) : spec_float :=
  if 0 <=? exponent then nearest_float (digits * 10 ^ exponent) 1
  else nearest_float digits (10 ^ (- exponent)).

(** The claim on bucket sizes: every bucket but the last in sorted order
    holds the floor of its share, the last one holds the rest, and the sizes
    add up to the number of items. *)
Definition rounding_claim {G : Type} `{RandomSource G}
    (nft_assets : list (string * option string)) (table : dict number) (g : G)
    : Prop :=
  ∀ init last, sorted_items table = init ++ [last] →
    ∃ pool,
      Run.value (generate_nft_pool nft_assets (Some table)) g = Returned pool ∧
      Forall (λ e, count_rarity e.1 pool = floor_share (len nft_assets) e.2)
             init ∧
      count_rarity last.1 pool =
        len nft_assets
        - py_sum ((λ e, floor_share (len nft_assets) e.2) <$> init) ∧
      py_sum ((λ e, count_rarity e.1 pool) <$> sorted_items table)
        = len nft_assets.

(** ** The files of the loaders *)

(** An item of the assets file that stands for the asset [ar]: an object
    with the address under ["asset"] and the rarity, if any, under
    ["rarity"], or the bare address when there is no rarity. *)
Definition encodes_asset (item : json) (ar : string * option string) : Prop :=
  match item with
  | JDict members =>
      dict_lookup members "asset" = Some (JStr ar.1) ∧
      match ar.2 with
      | Some r => dict_lookup members "rarity" = Some (JStr r)
      | None =>
          dict_lookup members "rarity" = None ∨
          dict_lookup members "rarity" = Some JNull
      end
  | JStr s => ar = (s, None)
  | _ => False
  end.

(** The loaded form of a typed asset. *)
Definition loaded_asset (ar : string * option string) : json * json :=
  (JStr ar.1, from_option JStr JNull ar.2).

(** The wallets of a list, each once, in the order of their first
    occurrence. *)
Definition add_wallet (seen : list string) (w : string) : list string :=
  if bool_decide (w ∈ seen) then seen else seen ++ [w].

Definition first_occurrences (ws : list string) : list string :=
  foldl add_wallet [] ws.

(** ** The files that the verifier reads

    The verifier takes the items of an allocation to have a numeric ["id"]
    and a ["rarity"], and the configuration to give ["total_nfts"]. *)









(** ** Inputs of the concrete runs *)

(** A pool of five items. *)
Definition demo_pool : list NFT :=
  [ {| asset := "n1"; rarity := Some "Common" |};
    {| asset := "n2"; rarity := Some "Rare" |};
    {| asset := "n3"; rarity := Some "Common" |};
    {| asset := "n4"; rarity := Some "Common" |};
    {| asset := "n5"; rarity := Some "Epic" |} ].

(** [{"B": 3, "A": 2}]: the table lists [B] first. *)
Definition demo_wallets : dict Z := [("B", 3); ("A", 2)].

(** [{"B": 3, "C": 1, "A": 4}]: a table that asks for eight items. *)
Definition greedy_wallets : dict Z := [("B", 3); ("C", 1); ("A", 4)].

(** One wallet that holds the same asset twice. *)
Definition doubled_allocation : list WalletAllocation :=
  [ {| wallet := "A";
       nfts := [ {| entry_asset := "n1"; entry_rarity := Some "Common" |};
                 {| entry_asset := "n1"; entry_rarity := Some "Common" |} ];
       total_nfts := 2 |} ].

(** Two items, only the first of which carries a rarity. *)
Definition mixed_assets : list (string * option string) :=
  [("n1", Some "Rare"); ("n2", None)].

(** Ten items without rarities. *)
Definition plain_assets : list (string * option string) :=
  [("n1", None); ("n2", None); ("n3", None); ("n4", None); ("n5", None);
   ("n6", None); ("n7", None); ("n8", None); ("n9", None); ("n10", None)].

(** [{"Common": 100}] *)
Definition common_only : dict number := [("Common", PyInt 100)].

(** [{"Rare": 30, "Common": 70}] *)
Definition rare_common : dict number :=
  [("Rare", PyInt 30); ("Common", PyInt 70)].

(** [{"A": 100, "B": 100, "C": 0}] *)
Definition oversubscribed : dict number :=
  [("A", PyInt 100); ("B", PyInt 100); ("C", PyInt 0)].

(** [{"B": 4, "A": 6}]: a table for the ten items. *)
Definition plain_wallets : dict Z := [("B", 4); ("A", 6)].

(** Closes a decidable goal on concrete data by evaluation. *)
Ltac by_evaluation :=
  lazymatch goal with
  | |- ?P => apply (bool_decide_unpack P); vm_compute; exact I
  end.

(** * Properties *)

(** ** The reference generator is a random source *)

Lemma lcg_exchange_perm {A} (x : list A) i j : Lcg.exchange x i j ≡ₚ x.
Proof.
  unfold Lcg.exchange.
  destruct (x !! i) as [xi|] eqn:Hi; [|done].
  destruct (x !! j) as [xj|] eqn:Hj; [|done].
  by apply Permutation_insert_swap.
Qed.

Lemma lcg_shuffle_from_perm {A} i (x : list A) (g : Lcg.state) : (Lcg.shuffle_from i x g).1 ≡ₚ x.
Proof.
  revert x g. induction i as [|i IH]; intros x g; simpl; [done|].
  rewrite IH. apply lcg_exchange_perm.
Qed.

Lemma lcg_shuffle_perm A (x : list A) (g : Lcg.state) : (Lcg.shuffle x g).1 ≡ₚ x.
Proof. apply lcg_shuffle_from_perm. Qed.

Global Instance lcg_source : RandomSource Lcg.state := {|
  random_seed := Lcg.seed;
  random_shuffle := @Lcg.shuffle;
  random_shuffle_perm := lcg_shuffle_perm
|}.

(** ** Sums and lengths *)

Lemma foldl_add_shift (a : Z) (xs : list Z) :
  foldl Z.add a xs = a + foldl Z.add 0 xs.
Proof.
  revert a. induction xs as [|x xs IH]; intros a; simpl; [lia|].
  rewrite (IH (a + x)), (IH (0 + x)). lia.
Qed.

Lemma py_sum_nil : py_sum [] = 0.
Proof. reflexivity. Qed.

Lemma py_sum_cons x xs : py_sum (x :: xs) = x + py_sum xs.
Proof. unfold py_sum. simpl. apply foldl_add_shift. Qed.

Lemma py_sum_app xs ys : py_sum (xs ++ ys) = py_sum xs + py_sum ys.
Proof.
  induction xs as [|x xs IH]; simpl; [by rewrite py_sum_nil|].
  rewrite !py_sum_cons, IH. lia.
Qed.

Lemma py_sum_perm xs ys : xs ≡ₚ ys → py_sum xs = py_sum ys.
Proof.
  induction 1; rewrite ?py_sum_cons in *; lia.
Qed.

Lemma len_nil {A} : len (@nil A) = 0.
Proof. reflexivity. Qed.

Lemma len_cons {A} (x : A) xs : len (x :: xs) = 1 + len xs.
Proof. unfold len. simpl. lia. Qed.

Lemma len_app {A} (xs ys : list A) : len (xs ++ ys) = len xs + len ys.
Proof. unfold len. rewrite length_app. lia. Qed.

Lemma len_nonneg {A} (xs : list A) : 0 ≤ len xs.
Proof. unfold len. lia. Qed.

(** ** The order on strings *)

Lemma str_lt_spec a b : str_lt a b ↔ OrderedTypeEx.String_as_OT.lt a b.
Proof.
  unfold str_lt, String.ltb.
  rewrite <- OrderedTypeEx.String_as_OT.cmp_lt.
  unfold OrderedTypeEx.String_as_OT.cmp.
  destruct (String.compare a b); split; congruence.
Qed.

Global Instance str_lt_trans : Transitive str_lt.
Proof.
  intros a b c. rewrite !str_lt_spec.
  apply OrderedTypeEx.String_as_OT.lt_trans.
Qed.

Global Instance str_lt_irrefl : Irreflexive str_lt.
Proof.
  intros a Ha. apply str_lt_spec in Ha.
  by apply OrderedTypeEx.String_as_OT.lt_not_eq in Ha.
Qed.

Lemma str_lt_asym a b : str_lt a b → str_lt b a → False.
Proof. intros Hab Hba. apply (str_lt_irrefl a). by transitivity b. Qed.

Lemma str_lt_total a b : a ≠ b → String.ltb a b = false → str_lt b a.
Proof.
  unfold str_lt, String.ltb. intros Hne.
  rewrite (String.compare_antisym b a).
  destruct (String.compare a b) eqn:Hc; simpl; try done.
  by apply String.compare_eq_iff in Hc.
Qed.

(** ** [sorted] *)

Section SortedFacts.
Context {A : Type} (ltb : A → A → bool).

Lemma sorted_insert_perm x l : sorted_insert ltb x l ≡ₚ x :: l.
Proof.
  induction l as [|y l IH]; simpl; [done|].
  destruct (ltb y x); [|done].
  rewrite IH. apply Permutation_swap.
Qed.

Lemma sorted_by_perm l : sorted_by ltb l ≡ₚ l.
Proof.
  induction l as [|x l IH]; simpl; [done|].
  fold (sorted_by ltb l). by rewrite sorted_insert_perm, IH.
Qed.

Lemma sorted_by_length l : length (sorted_by ltb l) = length l.
Proof. by rewrite sorted_by_perm. Qed.
End SortedFacts.

Section SortedItems.
Context {V : Type} `{PyOrd V}.
Implicit Types (x y : string * V) (d : dict V).

Lemma tuple_ltb_key x y : x.1 ≠ y.1 → tuple_ltb x y = String.ltb x.1 y.1.
Proof.
  intros Hne. unfold tuple_ltb.
  destruct (String.eqb_spec x.1 y.1); [done|reflexivity].
Qed.

Lemma key_lt_asym x y : key_lt x y → key_lt y x → False.
Proof. apply str_lt_asym. Qed.

Lemma sorted_insert_sorted x (l : list (string * V)) :
  x.1 ∉ l.*1 →
  StronglySorted key_lt l →
  StronglySorted key_lt (sorted_insert tuple_ltb x l).
Proof.
  induction l as [|y l IH]; simpl; intros Hx Hl.
  { repeat constructor. }
  apply not_elem_of_cons in Hx as [Hxy Hx].
  apply StronglySorted_inv in Hl as [Hl Hy].
  rewrite tuple_ltb_key by done.
  destruct (String.ltb y.1 x.1) eqn:Hlt.
  - constructor; [by apply IH|].
    rewrite sorted_insert_perm. by constructor.
  - assert (key_lt x y) as Hxy' by (by apply str_lt_total).
    constructor; [by constructor|].
    constructor; [done|].
    eapply Forall_impl; [exact Hy|].
    intros z Hz. unfold key_lt in *. by transitivity y.1.
Qed.

Lemma sorted_items_perm d : sorted_items d ≡ₚ d.
Proof. apply sorted_by_perm. Qed.

Lemma sorted_items_sorted d :
  dict_wf d → StronglySorted key_lt (sorted_items d).
Proof.
  unfold dict_wf, sorted_items, dict_items.
  induction d as [|x d IH]; simpl; intros Hwf; [constructor|].
  apply NoDup_cons in Hwf as [Hx Hwf].
  apply sorted_insert_sorted; [|by apply IH].
  fold (sorted_by tuple_ltb d). by rewrite sorted_by_perm.
Qed.

Lemma key_sorted_unique (l1 l2 : list (string * V)) :
  StronglySorted key_lt l1 → StronglySorted key_lt l2 → l1 ≡ₚ l2 → l1 = l2.
Proof.
  apply StronglySorted_unique_strong.
  intros x y _ _ Hxy Hyx. destruct (key_lt_asym _ _ Hxy Hyx).
Qed.

(** The sorted items do not depend on the iteration order. *)
Lemma sorted_items_order_irrelevant d d' :
  dict_wf d → d ≡ₚ d' → sorted_items d = sorted_items d'.
Proof.
  intros Hwf Hp.
  assert (dict_wf d') as Hwf'.
  { unfold dict_wf in *. by rewrite <- Hp. }
  apply key_sorted_unique; try by apply sorted_items_sorted.
  by rewrite !sorted_items_perm.
Qed.

(** A dictionary whose items are already in ascending key order. *)
Lemma sorted_items_id d : StronglySorted key_lt d → sorted_items d = d.
Proof.
  intros Hs. apply key_sorted_unique; [|done|apply sorted_items_perm].
  apply sorted_items_sorted. unfold dict_wf.
  clear -Hs. induction Hs as [|x l Hs IH Hx]; simpl; [constructor|].
  constructor; [|done].
  intros [y [Hy Hin]]%list_elem_of_fmap.
  rewrite Forall_forall in Hx. specialize (Hx y Hin).
  unfold key_lt in Hx. rewrite Hy in Hx. by apply str_lt_irrefl in Hx.
Qed.

Lemma sorted_items_keys_sorted d :
  dict_wf d → StronglySorted str_lt (sorted_items d).*1.
Proof.
  intros Hwf.
  eapply StronglySorted_fmap; last by apply sorted_items_sorted.
  done.
Qed.

Lemma sorted_items_wf d : dict_wf d → dict_wf (sorted_items d).
Proof. unfold dict_wf. by rewrite sorted_items_perm. Qed.
End SortedItems.

(** ** Dictionary lookups *)

Lemma dict_get_elem_of {V} (d : dict V) k v default :
  dict_wf d → (k, v) ∈ d → dict_get d k default = v.
Proof.
  unfold dict_wf. induction d as [|[k' v'] d IH]; simpl; intros Hwf Hin.
  { by apply elem_of_nil in Hin. }
  apply NoDup_cons in Hwf as [Hk' Hwf].
  apply elem_of_cons in Hin as [Heq|Hin].
  - inversion Heq; subst. by rewrite String.eqb_refl.
  - destruct (String.eqb_spec k' k) as [->|_]; [|by apply IH].
    destruct Hk'. apply list_elem_of_fmap. by exists (k, v).
Qed.

Lemma dict_get_absent {V} (d : dict V) k default :
  k ∉ d.*1 → dict_get d k default = default.
Proof.
  induction d as [|[k' v'] d IH]; simpl; intros Hk; [done|].
  apply not_elem_of_cons in Hk as [Hne Hk].
  destruct (String.eqb_spec k' k) as [->|_]; [done|by apply IH].
Qed.

Lemma dict_set_fresh {V} (d : dict V) k v :
  k ∉ d.*1 → dict_set d k v = d ++ [(k, v)].
Proof.
  induction d as [|[k' v'] d IH]; simpl; intros Hk; [done|].
  apply not_elem_of_cons in Hk as [Hne Hk].
  destruct (String.eqb_spec k' k) as [->|_]; [done|by rewrite IH].
Qed.

(** ** The cursor of [allocate_nfts] *)

Lemma drop_length_take {A} (l : list A) n k :
  drop (length (take n l) + k) l = drop k (drop n l).
Proof.
  rewrite drop_drop, length_take.
  destruct (decide (n ≤ length l)%nat).
  - by rewrite Nat.min_l.
  - rewrite Nat.min_r by lia. rewrite !drop_ge; [done|lia..].
Qed.

Lemma take_length_take {A} (l : list A) n :
  take (length (take n l)) l = take n l.
Proof.
  rewrite length_take.
  destruct (decide (n ≤ length l)%nat).
  - by rewrite Nat.min_l.
  - rewrite Nat.min_r by lia. rewrite !take_ge; [done|lia..].
Qed.

Lemma draw_spec n nft_pool wallet_nfts nft_index :
  draw n nft_pool wallet_nfts nft_index =
  Returned (wallet_nfts ++ (to_entry <$> take n (drop nft_index nft_pool)),
            (nft_index + length (take n (drop nft_index nft_pool)))%nat).
Proof.
  revert wallet_nfts nft_index.
  induction n as [|n IH]; intros acc idx; simpl.
  { by rewrite app_nil_r, Nat.add_0_r. }
  case_bool_decide as Hidx.
  - rewrite drop_ge by done. simpl. by rewrite app_nil_r, Nat.add_0_r.
  - destruct (nft_pool !! idx) as [nft|] eqn:Hnft.
    + rewrite IH. rewrite (drop_S _ _ _ Hnft). simpl.
      rewrite <- app_assoc. simpl. do 3 f_equal. lia.
    + apply lookup_ge_None in Hnft. lia.
Qed.

Lemma allocate_loop_spec ws nft_pool allocations nft_index :
  allocate_loop ws nft_pool allocations nft_index =
  Returned (allocations ++ cursor_slices ws (drop nft_index nft_pool)).
Proof.
  revert allocations nft_index.
  induction ws as [|[w c] ws IH]; intros acc idx; simpl.
  { by rewrite app_nil_r. }
  rewrite draw_spec, IH. simpl. rewrite <- app_assoc. simpl.
  do 4 f_equal.
  rewrite <- drop_drop.
  rewrite <- (Nat.add_0_r (length _)), drop_length_take. done.
Qed.

Lemma allocate_nfts_spec nft_pool eligible_wallets :
  allocate_nfts nft_pool eligible_wallets =
  Returned (cursor_slices (sorted_items eligible_wallets) nft_pool).
Proof. unfold allocate_nfts. by rewrite allocate_loop_spec. Qed.

Lemma cursor_slices_wallets ws rest : wallet <$> cursor_slices ws rest = ws.*1.
Proof.
  revert rest. induction ws as [|[w c] ws IH]; intros rest; simpl; [done|].
  by rewrite IH.
Qed.

Lemma cursor_slices_totals ws rest :
  Forall (λ a, total_nfts a = len (nfts a)) (cursor_slices ws rest).
Proof.
  revert rest. induction ws as [|[w c] ws IH]; intros rest; simpl;
    constructor; [done|apply IH].
Qed.

Lemma cursor_slices_all_nfts ws rest :
  all_nfts (cursor_slices ws rest) = to_entry <$> take (draws ws) rest.
Proof.
  unfold all_nfts, draws.
  revert rest. induction ws as [|[w c] ws IH]; intros rest; simpl; [done|].
  rewrite IH, <- fmap_app. f_equal.
  apply take_take_drop.
Qed.

(** Every allocation is the slice that starts where the earlier ones end. *)
Lemma cursor_slices_slice ws rest before a after :
  cursor_slices ws rest = before ++ a :: after →
  ∃ c, (wallet a, c) ∈ ws ∧
       nfts a = to_entry <$>
                  take (Z.to_nat c) (drop (length (all_nfts before)) rest).
Proof.
  revert rest before.
  induction ws as [|[w c] ws IH]; intros rest before; simpl.
  { by destruct before. }
  destruct before as [|b before]; simpl; intros Heq;
    injection Heq as Hhead Htail; subst.
  - exists c. split; [left|done].
  - destruct (IH _ _ Htail) as (c' & Hin & Hn).
    exists c'. split; [by right|].
    rewrite Hn. unfold all_nfts. simpl.
    rewrite length_app, !length_fmap.
    by rewrite drop_length_take.
Qed.

Lemma all_nfts_app xs ys : all_nfts (xs ++ ys) = all_nfts xs ++ all_nfts ys.
Proof. unfold all_nfts. by rewrite fmap_app, concat_app. Qed.

Lemma all_nfts_cons a xs : all_nfts (a :: xs) = nfts a ++ all_nfts xs.
Proof. reflexivity. Qed.

Lemma totals_sum allocations :
  Forall (λ a, total_nfts a = len (nfts a)) allocations →
  py_sum (total_nfts <$> allocations) = len (all_nfts allocations).
Proof.
  induction 1 as [|a l Ha _ IH]; csimpl; [done|].
  rewrite py_sum_cons, all_nfts_cons, len_app. lia.
Qed.

Lemma draws_nonneg ws :
  Forall (λ wc : string * Z, 0 ≤ wc.2) ws → Z.of_nat (draws ws) = py_sum ws.*2.
Proof.
  unfold draws. induction 1 as [|[w c] ws Hc _ IH]; csimpl in *; [done|].
  rewrite py_sum_cons. lia.
Qed.

Lemma draws_lower_bound ws : py_sum ws.*2 ≤ Z.of_nat (draws ws).
Proof.
  unfold draws. induction ws as [|[w c] ws IH]; csimpl in *; [done|].
  rewrite py_sum_cons. lia.
Qed.

(** When the pool covers every draw, each wallet gets its exact count. *)
Lemma cursor_slices_exact ws rest :
  Forall (λ wc : string * Z, 0 ≤ wc.2) ws →
  (draws ws ≤ length rest)%nat →
  (λ a, (wallet a, total_nfts a)) <$> cursor_slices ws rest = ws.
Proof.
  unfold draws. intros Hws. revert rest.
  induction Hws as [|[w c] ws Hc _ IH]; intros rest Hlen; csimpl in *; [done|].
  f_equal.
  - f_equal. unfold len. rewrite length_fmap, length_take. lia.
  - apply IH. rewrite length_drop. lia.
Qed.

Lemma allocated_assets_spec allocations :
  allocated_assets allocations =
  list_to_set (entry_asset <$> all_nfts allocations).
Proof.
  unfold allocated_assets.
  assert (∀ (es : list NftEntry) (acc : gset string),
            foldl (λ acc nft, acc ∪ {[entry_asset nft]}) acc es =
            acc ∪ list_to_set (entry_asset <$> es)) as Hinner.
  { induction es as [|e es IH]; intros acc; simpl; [set_solver|].
    rewrite IH. set_solver. }
  assert (∀ (l : list WalletAllocation) (acc : gset string),
            foldl (λ acc allocation,
                     foldl (λ acc nft, acc ∪ {[entry_asset nft]}) acc
                           (nfts allocation)) acc l =
            acc ∪ list_to_set (entry_asset <$> all_nfts l)) as Houter.
  { induction l as [|a l IH]; intros acc; simpl; [set_solver|].
    rewrite IH, Hinner, all_nfts_cons, fmap_app, list_to_set_app_L.
    set_solver. }
  rewrite Houter. set_solver.
Qed.

Lemma entry_asset_to_entry (l : list NFT) :
  entry_asset <$> (to_entry <$> l) = asset <$> l.
Proof. rewrite <- list_fmap_compose. done. Qed.

(** ** Claims about [allocate_nfts] *)

(** C1 (conservation).  For a pool and an entitlement table whose counts are
    all positive and add up to the length of the pool, [allocate_nfts] returns
    exactly one allocation per recipient, each with [total_nfts] equal to the
    recipient's entitlement, and the sum of all [total_nfts] equals both the
    sum of the entitlements and the size of the pool. *)
Theorem allocate_nfts_conservation nft_pool (eligible_wallets : dict Z) :
  dict_wf eligible_wallets →
  Forall (λ wc, 0 < wc.2) eligible_wallets →
  py_sum (dict_values eligible_wallets) = len nft_pool →
  ∃ allocations,
    allocate_nfts nft_pool eligible_wallets = Returned allocations ∧
    NoDup (wallet <$> allocations) ∧
    wallet <$> allocations ≡ₚ eligible_wallets.*1 ∧
    Forall (λ a, (wallet a, total_nfts a) ∈ eligible_wallets ∧
                 total_nfts a = len (nfts a)) allocations ∧
    py_sum (total_nfts <$> allocations) = py_sum (dict_values eligible_wallets) ∧
    py_sum (total_nfts <$> allocations) = len nft_pool.
Proof.
  intros Hwf Hpos Hsum.
  set (ws := sorted_items eligible_wallets).
  assert (ws ≡ₚ eligible_wallets) as Hperm by apply sorted_items_perm.
  assert (Forall (λ wc : string * Z, 0 ≤ wc.2) ws) as Hnonneg.
  { rewrite Hperm. eapply Forall_impl; [exact Hpos|]. simpl. lia. }
  assert (draws ws ≤ length nft_pool)%nat as Hdraws.
  { pose proof (draws_nonneg ws Hnonneg) as Hd.
    unfold dict_values in Hsum.
    rewrite (py_sum_perm ws.*2 eligible_wallets.*2) in Hd by (by rewrite Hperm).
    unfold len in Hsum. lia. }
  pose proof (cursor_slices_exact ws nft_pool Hnonneg Hdraws) as Hexact.
  exists (cursor_slices ws nft_pool).
  assert (total_nfts <$> cursor_slices ws nft_pool = ws.*2) as Htotals.
  { rewrite <- Hexact at 2. by rewrite <- list_fmap_compose. }
  assert (py_sum (total_nfts <$> cursor_slices ws nft_pool) =
          py_sum (dict_values eligible_wallets)) as Hconserved.
  { rewrite Htotals. apply py_sum_perm. unfold dict_values. by rewrite Hperm. }
  split; [apply allocate_nfts_spec|].
  rewrite cursor_slices_wallets.
  split; [unfold dict_wf in Hwf; by rewrite Hperm|].
  split; [by rewrite Hperm|].
  split; [|split; [done|congruence]].
  apply Forall_forall. intros a Ha. split.
  - rewrite <- Hperm, <- Hexact.
    apply list_elem_of_fmap. by exists a.
  - pose proof (cursor_slices_totals ws nft_pool) as Ht.
    rewrite Forall_forall in Ht. by apply Ht.
Qed.

(** C6 (recipient order and cursor).  [allocate_nfts] emits the allocations in
    ascending order of the recipient identifier, whatever the iteration order
    of the table; every recipient is handed the next items of the pool, as
    many as its entitlement (or as are left), starting where the earlier
    allocations end, and its [total_nfts] is their number; so the slices do
    not overlap and their concatenation is a prefix of the pool. *)
Theorem allocate_nfts_sorted_slices nft_pool (eligible_wallets : dict Z) :
  dict_wf eligible_wallets →
  ∃ allocations,
    allocate_nfts nft_pool eligible_wallets = Returned allocations ∧
    StronglySorted str_lt (wallet <$> allocations) ∧
    wallet <$> allocations ≡ₚ eligible_wallets.*1 ∧
    (∀ reordered, reordered ≡ₚ eligible_wallets →
       allocate_nfts nft_pool reordered = Returned allocations) ∧
    (∀ before a after, allocations = before ++ a :: after →
       let cursor := length (all_nfts before) in
       let entitlement := dict_get eligible_wallets (wallet a) 0 in
       nfts a = to_entry <$> take (Z.to_nat entitlement) (drop cursor nft_pool) ∧
       total_nfts a = len (nfts a) ∧
       nfts a = to_entry <$> take (length (nfts a)) (drop cursor nft_pool)) ∧
    all_nfts allocations =
      to_entry <$> take (length (all_nfts allocations)) nft_pool.
Proof.
  intros Hwf. exists (cursor_slices (sorted_items eligible_wallets) nft_pool).
  split; [apply allocate_nfts_spec|].
  rewrite cursor_slices_wallets.
  split; [by apply sorted_items_keys_sorted|].
  split; [by rewrite sorted_items_perm|].
  split; [|split].
  - intros reordered Hperm. rewrite allocate_nfts_spec.
    by rewrite (sorted_items_order_irrelevant eligible_wallets reordered).
  - intros before a after Hsplit cursor entitlement.
    destruct (cursor_slices_slice _ _ _ _ _ Hsplit) as (c & Hin & Hslice).
    assert (entitlement = c) as ->.
    { unfold entitlement. apply dict_get_elem_of; [done|].
      by rewrite <- (sorted_items_perm eligible_wallets). }
    split; [done|]. split.
    + pose proof (cursor_slices_totals (sorted_items eligible_wallets)
                    nft_pool) as Htotals.
      rewrite Forall_forall in Htotals. apply Htotals.
      rewrite Hsplit. apply elem_of_app. right. left.
    + rewrite Hslice at 2. rewrite length_fmap.
      by rewrite take_length_take.
  - rewrite cursor_slices_all_nfts, length_fmap.
    by rewrite take_length_take.
Qed.

(** When the table asks for at least the whole pool, the allocations hold the
    assets of the pool, in pool order. *)
Lemma cursor_slices_cover nft_pool (eligible_wallets : dict Z) :
  len nft_pool ≤ py_sum (dict_values eligible_wallets) →
  entry_asset <$> all_nfts (cursor_slices (sorted_items eligible_wallets) nft_pool)
  = asset <$> nft_pool.
Proof.
  intros Hsum. set (ws := sorted_items eligible_wallets).
  rewrite cursor_slices_all_nfts, entry_asset_to_entry.
  rewrite take_ge; [done|].
  pose proof (draws_lower_bound ws) as Hd.
  rewrite (py_sum_perm ws.*2 eligible_wallets.*2) in Hd
    by (unfold ws; by rewrite sorted_items_perm).
  unfold dict_values, len in Hsum. lia.
Qed.

(** C9 (completeness).  For a pool with distinct asset addresses and an
    entitlement table whose counts add up to the length of the pool, the set
    of asset addresses collected from the allocations equals the set of asset
    addresses of the pool: nothing is missing and nothing is extra. *)
Theorem allocate_nfts_complete nft_pool (eligible_wallets : dict Z) :
  NoDup (asset <$> nft_pool) →
  py_sum (dict_values eligible_wallets) = len nft_pool →
  ∃ allocations,
    allocate_nfts nft_pool eligible_wallets = Returned allocations ∧
    entry_asset <$> all_nfts allocations = asset <$> nft_pool ∧
    allocated_assets allocations = pool_assets nft_pool ∧
    missing (pool_assets nft_pool) allocations = ∅ ∧
    extra (pool_assets nft_pool) allocations = ∅.
Proof.
  intros _ Hsum.
  exists (cursor_slices (sorted_items eligible_wallets) nft_pool).
  split; [apply allocate_nfts_spec|].
  pose proof (cursor_slices_cover nft_pool eligible_wallets) as Hall.
  rewrite Hsum in Hall. specialize (Hall (Z.le_refl _)).
  assert (allocated_assets
            (cursor_slices (sorted_items eligible_wallets) nft_pool)
          = pool_assets nft_pool) as Hsets.
  { rewrite allocated_assets_spec, Hall. done. }
  split; [done|]. split; [done|].
  unfold missing, extra. rewrite Hsets. split; apply difference_diag_L.
Qed.

Lemma entitlements_of_wallets (eligible_wallets ws : dict Z) :
  dict_wf eligible_wallets → ws ⊆ eligible_wallets →
  (λ w, dict_get eligible_wallets w 0) <$> ws.*1 = ws.*2.
Proof.
  intros Hwf. induction ws as [|[w c] ws IH]; intros Hsub; csimpl; [done|].
  f_equal.
  - apply dict_get_elem_of; [done|]. apply Hsub. left.
  - apply IH. intros x Hx. apply Hsub. by right.
Qed.

(** C8 (shortfall).  When the entitlements add up to more than the pool
    holds, [allocate_nfts] still returns, with one allocation per recipient;
    each recipient receives its entitlement or, if fewer items are left, all
    the items that are left (possibly none); once a recipient has been cut
    short every later recipient receives nothing, and some recipient is cut
    short. *)
Theorem allocate_nfts_shortfall nft_pool (eligible_wallets : dict Z) :
  dict_wf eligible_wallets →
  len nft_pool < py_sum (dict_values eligible_wallets) →
  ∃ allocations,
    allocate_nfts nft_pool eligible_wallets = Returned allocations ∧
    wallet <$> allocations = (sorted_items eligible_wallets).*1 ∧
    wallet <$> allocations ≡ₚ eligible_wallets.*1 ∧
    (∀ before a after, allocations = before ++ a :: after →
       let entitlement := dict_get eligible_wallets (wallet a) 0 in
       let remaining := len nft_pool - len (all_nfts before) in
       0 ≤ remaining ∧
       total_nfts a = len (nfts a) ∧
       total_nfts a = Z.min (Z.max 0 entitlement) remaining ∧
       (total_nfts a < entitlement →
        Forall (λ b, nfts b = [] ∧ total_nfts b = 0) after)) ∧
    Exists (λ a, total_nfts a < dict_get eligible_wallets (wallet a) 0)
           allocations.
Proof.
  intros Hwf Hsum.
  set (ws := sorted_items eligible_wallets).
  set (allocations := cursor_slices ws nft_pool).
  assert (ws ≡ₚ eligible_wallets) as Hperm by apply sorted_items_perm.
  pose proof (cursor_slices_totals ws nft_pool) as Htotals.
  fold allocations in Htotals.
  assert (∀ before a after, allocations = before ++ a :: after →
            (length (all_nfts before) + length (nfts a) ≤ length nft_pool)%nat)
    as Hbound.
  { intros before a after Hsplit.
    pose proof (cursor_slices_all_nfts ws nft_pool) as Hall.
    fold allocations in Hall.
    rewrite Hsplit, all_nfts_app, all_nfts_cons in Hall.
    apply (f_equal length) in Hall.
    rewrite !length_app, length_fmap, length_take in Hall. lia. }
  assert (∀ before a after, allocations = before ++ a :: after →
            nfts a = to_entry <$>
              take (Z.to_nat (dict_get eligible_wallets (wallet a) 0))
                   (drop (length (all_nfts before)) nft_pool)) as Hslice.
  { intros before a after Hsplit.
    destruct (cursor_slices_slice _ _ _ _ _ Hsplit) as (c & Hin & ->).
    rewrite (dict_get_elem_of eligible_wallets (wallet a) c); [done..|].
    by rewrite <- Hperm. }
  exists allocations.
  split; [apply allocate_nfts_spec|].
  unfold allocations at 1 2. rewrite cursor_slices_wallets.
  split; [done|]. split; [by rewrite Hperm|]. split.
  - intros before a after Hsplit.
    set (entitlement := dict_get eligible_wallets (wallet a) 0).
    set (remaining := len nft_pool - len (all_nfts before)).
    pose proof (Hbound _ _ _ Hsplit) as Hb.
    pose proof (Hslice _ _ _ Hsplit) as Hs.
    fold entitlement in Hs.
    assert (total_nfts a = len (nfts a)) as Ht.
    { rewrite Forall_forall in Htotals. apply Htotals.
      rewrite Hsplit. apply elem_of_app. right. left. }
    assert (length (nfts a) =
            Z.to_nat entitlement `min`
              (length nft_pool - length (all_nfts before)))%nat as Hlen.
    { rewrite Hs at 1. by rewrite length_fmap, length_take, length_drop. }
    unfold remaining, len in *.
    split; [lia|]. split; [done|]. split; [lia|].
    intros Hshort. apply Forall_forall. intros b Hb'.
    apply list_elem_of_split in Hb' as (mid & after' & ->).
    assert (allocations = (before ++ a :: mid) ++ b :: after') as Hsplit'.
    { rewrite Hsplit, <- app_assoc. done. }
    pose proof (Hslice _ _ _ Hsplit') as Hsb.
    rewrite all_nfts_app, all_nfts_cons, !length_app in Hsb.
    rewrite drop_ge in Hsb by lia. rewrite take_nil in Hsb.
    assert (total_nfts b = len (nfts b)) as Htb.
    { rewrite Forall_forall in Htotals. apply Htotals.
      rewrite Hsplit'. apply elem_of_app. right. left. }
    rewrite Htb, Hsb. done.
  - destruct (Forall_Exists_dec
                (λ a, dict_get eligible_wallets (wallet a) 0 ≤ total_nfts a)
                (λ a, total_nfts a < dict_get eligible_wallets (wallet a) 0)
                (λ a, match Z_lt_le_dec (total_nfts a)
                              (dict_get eligible_wallets (wallet a) 0) with
                      | left Hlt => right Hlt
                      | right Hle => left Hle
                      end) allocations) as [Hall|Hcut]; [exfalso|done].
    assert (py_sum ((λ a, dict_get eligible_wallets (wallet a) 0)
                      <$> allocations)
            ≤ py_sum (total_nfts <$> allocations)) as Hle.
    { clear -Hall. induction Hall as [|a l Ha _ IH]; csimpl; [done|].
      rewrite !py_sum_cons. lia. }
    rewrite (list_fmap_compose wallet (λ w, dict_get eligible_wallets w 0))
      in Hle.
    unfold allocations in Hle at 1. rewrite cursor_slices_wallets in Hle.
    rewrite (entitlements_of_wallets eligible_wallets ws) in Hle;
      [|done|by intros x; rewrite Hperm].
    rewrite (py_sum_perm ws.*2 eligible_wallets.*2) in Hle
      by (by rewrite Hperm).
    rewrite (totals_sum allocations Htotals) in Hle.
    pose proof (cursor_slices_all_nfts ws nft_pool) as Hall'.
    apply (f_equal length) in Hall'.
    rewrite length_fmap, length_take in Hall'.
    fold allocations in Hall'.
    unfold dict_values, len in *. lia.
Qed.

(** *** The scenario of the specification: five items, [{A: 2, B: 3}] *)

Example allocate_demo :
  allocate_nfts demo_pool demo_wallets =
  Returned
    [ {| wallet := "A";
         nfts := [ {| entry_asset := "n1"; entry_rarity := Some "Common" |};
                   {| entry_asset := "n2"; entry_rarity := Some "Rare" |} ];
         total_nfts := 2 |};
      {| wallet := "B";
         nfts := [ {| entry_asset := "n3"; entry_rarity := Some "Common" |};
                   {| entry_asset := "n4"; entry_rarity := Some "Common" |};
                   {| entry_asset := "n5"; entry_rarity := Some "Epic" |} ];
         total_nfts := 3 |} ].
Proof. reflexivity. Qed.

Example allocate_greedy :
  allocate_nfts demo_pool greedy_wallets =
  Returned
    [ {| wallet := "A";
         nfts := [ {| entry_asset := "n1"; entry_rarity := Some "Common" |};
                   {| entry_asset := "n2"; entry_rarity := Some "Rare" |};
                   {| entry_asset := "n3"; entry_rarity := Some "Common" |};
                   {| entry_asset := "n4"; entry_rarity := Some "Common" |} ];
         total_nfts := 4 |};
      {| wallet := "B";
         nfts := [ {| entry_asset := "n5"; entry_rarity := Some "Epic" |} ];
         total_nfts := 1 |};
      {| wallet := "C"; nfts := []; total_nfts := 0 |} ].
Proof. reflexivity. Qed.

Lemma allocate_nfts_conservation_witness :
  dict_wf demo_wallets ∧
  Forall (λ wc, 0 < wc.2) demo_wallets ∧
  py_sum (dict_values demo_wallets) = len demo_pool ∧
  ∃ allocations,
    allocate_nfts demo_pool demo_wallets = Returned allocations ∧
    py_sum (total_nfts <$> allocations) = 5.
Proof.
  assert (dict_wf demo_wallets) as Hwf by by_evaluation.
  assert (Forall (λ wc, 0 < wc.2) demo_wallets) as Hpos by by_evaluation.
  assert (py_sum (dict_values demo_wallets) = len demo_pool) as Hsum
    by reflexivity.
  destruct (allocate_nfts_conservation demo_pool demo_wallets Hwf Hpos Hsum)
    as (allocations & Hrun & _ & _ & _ & _ & Htotal).
  repeat split; try assumption. by exists allocations.
Defined.

Lemma allocate_nfts_sorted_slices_witness :
  dict_wf demo_wallets ∧
  ∃ allocations,
    allocate_nfts demo_pool demo_wallets = Returned allocations ∧
    StronglySorted str_lt (wallet <$> allocations) ∧
    allocate_nfts demo_pool (reverse demo_wallets) = Returned allocations ∧
    ∀ a, allocations !! 0%nat = Some a →
         nfts a = to_entry <$> take 2 demo_pool.
Proof.
  assert (dict_wf demo_wallets) as Hwf by by_evaluation.
  destruct (allocate_nfts_sorted_slices demo_pool demo_wallets Hwf)
    as (allocations & Hrun & Hsorted & _ & Horder & Hslices & _).
  split; [assumption|]. exists allocations.
  split; [exact Hrun|]. split; [exact Hsorted|].
  split; [apply Horder; apply reverse_Permutation|].
  intros a Ha.
  destruct allocations as [|a' rest]; [discriminate|].
  injection Ha as ->.
  destruct (Hslices [] a rest eq_refl) as (Hslice & _).
  assert (wallet a = "A") as Hwallet.
  { vm_compute in Hrun. by injection Hrun as <- _. }
  rewrite Hwallet in Hslice. exact Hslice.
Defined.

Lemma allocate_nfts_shortfall_witness :
  dict_wf greedy_wallets ∧
  len demo_pool < py_sum (dict_values greedy_wallets) ∧
  ∃ allocations,
    allocate_nfts demo_pool greedy_wallets = Returned allocations ∧
    wallet <$> allocations = ["A"; "B"; "C"] ∧
    Exists (λ a, total_nfts a < dict_get greedy_wallets (wallet a) 0)
           allocations.
Proof.
  assert (dict_wf greedy_wallets) as Hwf by by_evaluation.
  assert (len demo_pool < py_sum (dict_values greedy_wallets)) as Hsum
    by reflexivity.
  destruct (allocate_nfts_shortfall demo_pool greedy_wallets Hwf Hsum)
    as (allocations & Hrun & Hwallets & _ & _ & Hcut).
  repeat split; try assumption. by exists allocations.
Defined.

Lemma allocate_nfts_complete_witness :
  NoDup (asset <$> demo_pool) ∧
  py_sum (dict_values demo_wallets) = len demo_pool ∧
  ∃ allocations,
    allocate_nfts demo_pool demo_wallets = Returned allocations ∧
    allocated_assets allocations = pool_assets demo_pool.
Proof.
  assert (NoDup (asset <$> demo_pool)) as Hids by by_evaluation.
  assert (py_sum (dict_values demo_wallets) = len demo_pool) as Hsum
    by reflexivity.
  destruct (allocate_nfts_complete demo_pool demo_wallets Hids Hsum)
    as (allocations & Hrun & _ & Hsets & _).
  repeat split; try assumption. by exists allocations.
Defined.

(** ** The validator *)

Lemma check_nfts_inr entries unique_ids unique_ids' :
  check_nfts entries unique_ids = inr unique_ids' ↔
  NoDup (assets_of entries) ∧
  (∀ x, x ∈ assets_of entries → x ∉ unique_ids) ∧
  unique_ids' = unique_ids ∪ list_to_set (assets_of entries).
Proof.
  unfold assets_of. revert unique_ids.
  induction entries as [|e es IH]; intros U; csimpl.
  { split.
    - intros [= <-]. split; [constructor|]. split; [set_solver|set_solver].
    - intros (_ & _ & ->). f_equal. set_solver. }
  case_bool_decide as He.
  - split; [done|]. intros (_ & Hfresh & _).
    destruct (Hfresh (entry_asset e)); [left|done].
  - rewrite IH, NoDup_cons. split.
    + intros (Hnd & Hfresh & ->). split; [split; [|done]|split].
      * intros Hin. apply (Hfresh _ Hin). set_solver.
      * intros x [->|Hx]%elem_of_cons; [done|].
        specialize (Hfresh x Hx). set_solver.
      * set_solver.
    + intros ((Hhead & Hnd) & Hfresh & ->). split; [done|split].
      * intros x Hx. apply not_elem_of_union. split.
        { apply Hfresh. by right. }
        { intros ->%elem_of_singleton. done. }
      * set_solver.
Qed.

Lemma check_allocations_inr allocations eligible_wallets total unique_ids total' :
  check_allocations allocations eligible_wallets total unique_ids = inr total' ↔
  Forall (count_ok eligible_wallets) allocations ∧
  NoDup (assets_of (all_nfts allocations)) ∧
  (∀ x, x ∈ assets_of (all_nfts allocations) → x ∉ unique_ids) ∧
  total' = total + py_sum (total_nfts <$> allocations).
Proof.
  revert total unique_ids.
  induction allocations as [|a l IH]; intros t U; csimpl.
  { rewrite py_sum_nil. split.
    - intros [= <-]. split; [constructor|]. split; [constructor|].
      split; [intros x Hx; by apply elem_of_nil in Hx|lia].
    - intros (_ & _ & _ & ->). f_equal. lia. }
  rewrite py_sum_cons, all_nfts_cons. unfold assets_of at 1 2.
  rewrite fmap_app. fold (assets_of (nfts a)) (assets_of (all_nfts l)).
  destruct (Z.eqb_spec (total_nfts a)
              (dict_get eligible_wallets (wallet a) 0)) as [Hcount|Hcount];
    simpl.
  2:{ split; [done|]. intros (Hok & _). by apply Forall_cons in Hok as [? _]. }
  destruct (check_nfts (nfts a) U) as [dup|U1] eqn:Hnfts.
  - split; [done|]. intros (_ & Hnd & Hfresh & _).
    apply NoDup_app in Hnd as (Hnd & _ & _).
    assert (check_nfts (nfts a) U =
            inr (U ∪ list_to_set (assets_of (nfts a)))) as Hinr.
    { apply check_nfts_inr. split; [done|]. split; [|done].
      intros x Hx. apply Hfresh, elem_of_app. by left. }
    congruence.
  - apply check_nfts_inr in Hnfts as (Hnd & Hfresh & ->).
    rewrite IH, Forall_cons, NoDup_app. split.
    + intros (Hok & Hnd' & Hfresh' & ->).
      split; [done|]. split; [split; [done|split; [|done]]|split; [|lia]].
      * intros x Hx Hx'. apply (Hfresh' x Hx'). set_solver.
      * intros x [Hx|Hx]%elem_of_app; [by apply Hfresh|].
        specialize (Hfresh' x Hx). set_solver.
    + intros ((_ & Hok) & (_ & Hdisj & Hnd') & Hfresh' & ->).
      split; [done|]. split; [done|]. split; [|lia].
      intros x Hx. apply not_elem_of_union. split.
      * apply Hfresh', elem_of_app. by right.
      * rewrite elem_of_list_to_set. intros Hx'. by apply (Hdisj x).
Qed.

Lemma check_allocations_total allocations eligible_wallets total unique_ids total' :
  check_allocations allocations eligible_wallets total unique_ids = inr total' →
  total' = total + py_sum (total_nfts <$> allocations).
Proof. rewrite check_allocations_inr. tauto. Qed.

(** The validator accepts exactly when the four conditions hold, uniqueness
    being that of the asset addresses over all allocation entries. *)
Lemma validate_allocation_true allocations eligible_wallets total_nfts_minted :
  validate_allocation allocations eligible_wallets total_nfts_minted = true ↔
  Forall (count_ok eligible_wallets) allocations ∧
  NoDup (assets_of (all_nfts allocations)) ∧
  py_sum (total_nfts <$> allocations) = py_sum (dict_values eligible_wallets) ∧
  py_sum (total_nfts <$> allocations) ≤ total_nfts_minted.
Proof.
  unfold validate_allocation, validate_report.
  destruct (check_allocations allocations eligible_wallets 0 ∅)
    as [failure|total] eqn:Hloop.
  - split.
    + destruct failure; try done.
      (* no failing run of the loop reports [Valid] *)
      exfalso. clear -Hloop. revert Hloop. generalize 0, (∅ : gset string).
      induction allocations as [|a l IH]; intros t U; simpl; [done|].
      destruct (negb _); [done|].
      destruct (check_nfts _ _); [done|]. apply IH.
    + intros (Hok & Hnd & _ & _).
      assert (check_allocations allocations eligible_wallets 0 ∅ =
              inr (0 + py_sum (total_nfts <$> allocations))) as Hinr.
      { apply check_allocations_inr. split; [done|]. split; [done|].
        split; [set_solver|done]. }
      congruence.
  - apply check_allocations_inr in Hloop as (Hok & Hnd & _ & ->).
    rewrite Z.add_0_l.
    destruct (Z.eqb_spec (py_sum (total_nfts <$> allocations))
                (py_sum (dict_values eligible_wallets))) as [Heq|Hne]; simpl.
    2:{ split; [done|]. tauto. }
    destruct (Z.gtb_spec (py_sum (total_nfts <$> allocations))
                total_nfts_minted) as [Hgt|Hle].
    + split; [done|]. lia.
    + split; [|done]. intros _. do 3 (split; [done|]). lia.
Qed.

(** *** The four checks, read literally *)

Example validate_doubled :
  validate_report doubled_allocation [("A", 2)] 2 = DuplicateAsset "n1".
Proof. reflexivity. Qed.

(** The literal reading fails: the four checks hold of [doubled_allocation],
    which the validator rejects. *)
Lemma validate_four_checks_literal_fails :
  ¬ (validate_allocation doubled_allocation [("A", 2)] 2 = true ↔
     four_checks doubled_allocation [("A", 2)] 2).
Proof.
  intros [_ Hback].
  assert (four_checks doubled_allocation [("A", 2)] 2) as Hchecks.
  { split; [by repeat constructor|]. split; [|split; [reflexivity|]].
    - intros x (i & j & a & b & Hij & Ha & Hb & _).
      destruct i as [|i], j as [|j]; simpl in *; try done.
    - vm_compute. discriminate. }
  specialize (Hback Hchecks). vm_compute in Hback. discriminate.
Qed.

(** The validator's guarantee implies the literal checks. *)
Lemma validate_allocation_four_checks allocations eligible_wallets total :
  validate_allocation allocations eligible_wallets total = true →
  four_checks allocations eligible_wallets total.
Proof.
  rewrite validate_allocation_true.
  intros (Hok & Hnd & Hsum & Hle). split; [done|]. split; [|done].
  intros x (i & j & a & b & Hij & Ha & Hb & Hxa & Hxb).
  assert (∀ i j a b, (i < j)%nat →
            allocations !! i = Some a → allocations !! j = Some b →
            x ∈ assets_of (nfts a) → x ∈ assets_of (nfts b) → False) as Hlt.
  { clear -Hnd. intros i j a b Hij Ha Hb Hxa Hxb.
    apply list_elem_of_split_length in Ha as (before & rest & -> & ->).
    rewrite lookup_app_r in Hb by lia.
    destruct (j - length before)%nat as [|k] eqn:Hk; [lia|]. simpl in Hb.
    rewrite all_nfts_app, all_nfts_cons in Hnd.
    unfold assets_of in Hnd. rewrite !fmap_app in Hnd.
    apply NoDup_app in Hnd as (_ & _ & Hnd).
    apply NoDup_app in Hnd as (_ & Hdisj & _).
    apply (Hdisj x Hxa).
    apply list_elem_of_lookup_2 in Hb.
    apply list_elem_of_split in Hb as (mid & after & ->).
    rewrite all_nfts_app, all_nfts_cons, !fmap_app.
    apply elem_of_app. right. apply elem_of_app. by left. }
  destruct (Nat.lt_total i j) as [Hl|[Heq|Hl]]; [|done|]; by eapply Hlt.
Qed.

(** C4 (validator).  [validate_allocation] returns true exactly when: every
    allocation's [total_nfts] equals the recipient's entitlement (zero for a
    recipient that is not in the table); no asset address occurs more than
    once among the entries of all allocations, be it in two allocations or
    twice in one; the sum of all [total_nfts] equals the sum of the
    entitlements; and that sum does not exceed the total pool size. *)
Theorem validate_allocation_iff allocations eligible_wallets total_pool_size :
  validate_allocation allocations eligible_wallets total_pool_size = true ↔
  Forall (λ a, total_nfts a = dict_get eligible_wallets (wallet a) 0)
         allocations ∧
  NoDup (entry_asset <$> concat (nfts <$> allocations)) ∧
  py_sum (total_nfts <$> allocations) = py_sum (dict_values eligible_wallets) ∧
  py_sum (total_nfts <$> allocations) ≤ total_pool_size.
Proof. apply validate_allocation_true. Qed.

(** C10 (recipients outside the table).  A recipient that the entitlement
    table does not list is entitled to zero items: its allocation passes the
    count check exactly when its [total_nfts] is zero.  With another
    [total_nfts] every list that contains the allocation is rejected; with
    [total_nfts] zero and no entries the allocation does not change the
    verdict. *)
Theorem validate_unlisted_wallet (eligible_wallets : dict Z) a :
  wallet a ∉ eligible_wallets.*1 →
  dict_get eligible_wallets (wallet a) 0 = 0 ∧
  (∀ total_allocated unique_ids,
     check_allocations [a] eligible_wallets total_allocated unique_ids =
       inl (WrongCount (wallet a) 0 (total_nfts a)) ↔ total_nfts a ≠ 0) ∧
  (∀ before after total,
     total_nfts a ≠ 0 →
     validate_allocation (before ++ a :: after) eligible_wallets total = false) ∧
  (∀ before after total,
     total_nfts a = 0 → nfts a = [] →
     validate_allocation (before ++ a :: after) eligible_wallets total =
     validate_allocation (before ++ after) eligible_wallets total).
Proof.
  intros Habsent.
  assert (dict_get eligible_wallets (wallet a) 0 = 0) as Hzero
    by by apply dict_get_absent.
  split; [done|]. split; [|split].
  - intros t U. simpl. rewrite Hzero.
    destruct (Z.eqb_spec (total_nfts a) 0) as [Heq|Hne]; simpl.
    + split; [|done]. by destruct (check_nfts _ _).
    + done.
  - intros before after total Hne.
    apply not_true_is_false. rewrite validate_allocation_true.
    intros (Hok & _). apply Forall_app in Hok as [_ Hok].
    apply Forall_cons in Hok as [Hok _]. unfold count_ok in Hok. congruence.
  - intros before after total Htotal Hnfts.
    apply eq_true_iff_eq. rewrite !validate_allocation_true.
    rewrite !all_nfts_app, all_nfts_cons, Hnfts, !fmap_app, !py_sum_app.
    rewrite !Forall_app, Forall_cons. csimpl.
    rewrite py_sum_cons, Htotal. unfold count_ok at 2. rewrite Hzero, Htotal.
    rewrite Z.add_0_l. tauto.
Qed.

Lemma validate_unlisted_wallet_witness :
  ("Z" ∉ demo_wallets.*1) ∧
  validate_allocation
    [ {| wallet := "Z";
         nfts := [ {| entry_asset := "n9"; entry_rarity := None |} ];
         total_nfts := 1 |} ] demo_wallets 5 = false.
Proof.
  assert ("Z" ∉ demo_wallets.*1) as Habsent by by_evaluation.
  split; [assumption|].
  destruct (validate_unlisted_wallet demo_wallets
              {| wallet := "Z";
                 nfts := [ {| entry_asset := "n9"; entry_rarity := None |} ];
                 total_nfts := 1 |} Habsent) as (_ & _ & Hreject & _).
  apply (Hreject [] [] 5). discriminate.
Defined.

(** ** Floating-point arithmetic *)

(** *** Binary digits *)

Lemma pow2_succ (d : Z) : 0 ≤ d → 2 ^ (d + 1) = 2 * 2 ^ d.
Proof. intros Hd. by rewrite Z.add_1_r, Z.pow_succ_r. Qed.

Lemma digits2_pos_bounds (p : positive) :
  2 ^ (Z.pos (digits2_pos p) - 1) ≤ Z.pos p < 2 ^ Z.pos (digits2_pos p).
Proof.
  induction p as [p IH|p IH|]; cbn [digits2_pos]; [| |simpl; lia].
  all: rewrite Pos2Z.inj_succ; set (d := Z.pos (digits2_pos p)) in *.
  all: assert (2 ^ d = 2 * 2 ^ (d - 1)) as Hd
         by (rewrite <- (pow2_succ (d - 1)) by lia; f_equal; lia).
  all: replace (Z.succ d - 1) with d by lia.
  all: replace (Z.succ d) with (d + 1) by lia.
  all: rewrite pow2_succ by lia; lia.
Qed.

Lemma Zdigits2_bounds (m : Z) :
  0 < m → 2 ^ (Zdigits2 m - 1) ≤ m < 2 ^ Zdigits2 m.
Proof. destruct m as [|p|p]; try lia. intros _. apply digits2_pos_bounds. Qed.

Lemma Zdigits2_nonneg (m : Z) : 0 ≤ Zdigits2 m.
Proof. destruct m; simpl; lia. Qed.

Lemma Zdigits2_le (m k : Z) : 0 ≤ k → 0 ≤ m < 2 ^ k → Zdigits2 m ≤ k.
Proof.
  intros Hk [Hm Hlt]. destruct (Z.eq_dec m 0) as [->|Hne]; [done|].
  destruct (Zdigits2_bounds m) as [Hlow _]; [lia|].
  destruct (Z.le_gt_cases (Zdigits2 m) k) as [|Hgt]; [done|].
  assert (2 ^ k ≤ 2 ^ (Zdigits2 m - 1)) by (apply Z.pow_le_mono_r; lia).
  lia.
Qed.


(** *** Shifts to the right *)

Lemma shr_1_m mrs : 0 ≤ shr_m mrs → shr_m (shr_1 mrs) = shr_m mrs / 2.
Proof.
  destruct mrs as [m r s]. simpl. intros Hm.
  destruct m as [|[p|p|]|p]; simpl; try lia; try reflexivity.
  - apply (Z.div_unique _ _ _ 1); lia.
  - apply (Z.div_unique _ _ _ 0); lia.
Qed.

Lemma shr_iter_m p mrs :
  0 ≤ shr_m mrs →
  shr_m (SpecFloat.iter_pos shr_1 p mrs) = shr_m mrs / 2 ^ Z.pos p.
Proof.
  revert mrs. induction p as [p IH|p IH|]; intros mrs Hm; cbn [SpecFloat.iter_pos].
  - assert (0 ≤ shr_m (shr_1 mrs)) as H1
      by (rewrite shr_1_m by done; apply Z.div_pos; lia).
    assert (0 ≤ shr_m (SpecFloat.iter_pos shr_1 p (shr_1 mrs))) as H2
      by (rewrite IH by done; apply Z.div_pos; lia).
    rewrite IH, IH, shr_1_m by done.
    rewrite !Z.div_div by lia. f_equal.
    replace (Z.pos p~1) with (1 + Z.pos p + Z.pos p) by lia.
    rewrite !Z.pow_add_r by lia. change (2 ^ 1) with 2. ring.
  - assert (0 ≤ shr_m (SpecFloat.iter_pos shr_1 p mrs)) as H2
      by (rewrite IH by done; apply Z.div_pos; lia).
    rewrite IH, IH by done.
    rewrite !Z.div_div by lia. f_equal.
    replace (Z.pos p~0) with (Z.pos p + Z.pos p) by lia.
    by rewrite Z.pow_add_r by lia.
  - rewrite shr_1_m by done. by rewrite Z.pow_1_r.
Qed.

Lemma shr_record_of_loc_m m l : shr_m (shr_record_of_loc m l) = m.
Proof. by destruct l as [|[| |]]. Qed.

Lemma shr_fexp_spec m e l :
  0 ≤ m →
  (shr_fexp 53 1024 m e l).2 = Z.max e (fexp 53 1024 (Zdigits2 m + e)) ∧
  shr_m (shr_fexp 53 1024 m e l).1 = m / 2 ^ ((shr_fexp 53 1024 m e l).2 - e).
Proof.
  intros Hm. unfold shr_fexp, shr.
  destruct (fexp 53 1024 (Zdigits2 m + e) - e) as [|p|p] eqn:Hn; simpl.
  - rewrite Z.sub_diag, Z.pow_0_r, Z.div_1_r, shr_record_of_loc_m. lia.
  - rewrite shr_iter_m by (rewrite shr_record_of_loc_m; lia).
    rewrite shr_record_of_loc_m.
    replace (e + Z.pos p - e) with (Z.pos p) by lia. lia.
  - rewrite Z.sub_diag, Z.pow_0_r, Z.div_1_r, shr_record_of_loc_m. lia.
Qed.

Lemma round_nearest_even_cases m l :
  round_nearest_even m l = m ∨ round_nearest_even m l = m + 1.
Proof. destruct l as [|[| |]]; simpl; auto. destruct (Z.even m); auto. Qed.

(** The result of rounding, up to the choice between the two neighbours. *)
Lemma binary_round_aux_spec s mx ex lx :
  0 ≤ mx →
  let e1 := Z.max ex (fexp 53 1024 (Zdigits2 mx + ex)) in
  let m1 := mx / 2 ^ (e1 - ex) in
  ∃ m2, (m2 = m1 ∨ m2 = m1 + 1) ∧
    let e2 := Z.max e1 (fexp 53 1024 (Zdigits2 m2 + e1)) in
    binary_round_aux 53 1024 s mx ex lx =
    match m2 / 2 ^ (e2 - e1) with
    | 0 => S754_zero s
    | Z.pos m => if e2 <=? 971 then S754_finite s m e2 else S754_infinity s
    | Z.neg _ => S754_nan
    end.
Proof.
  intros Hmx e1 m1. unfold binary_round_aux.
  destruct (shr_fexp_spec mx ex lx Hmx) as [He1 Hm1].
  destruct (shr_fexp 53 1024 mx ex lx) as [mrs' e'] eqn:Hshr. simpl in *.
  subst e'. fold e1 in Hm1. fold m1 in Hm1.
  set (m2 := round_nearest_even (shr_m mrs') (loc_of_shr_record mrs')).
  assert (m2 = m1 ∨ m2 = m1 + 1) as Hm2.
  { unfold m2. rewrite <- Hm1. apply round_nearest_even_cases. }
  assert (0 ≤ m1) as Hm1pos by (apply Z.div_pos; lia).
  assert (0 ≤ m2) as Hm2pos by lia.
  exists m2. split; [done|].
  change (ex `max` fexp 53 1024 (Zdigits2 mx + ex)) with e1.
  destruct (shr_fexp_spec m2 e1 loc_Exact Hm2pos) as [He2 Hm3].
  destruct (shr_fexp 53 1024 m2 e1 loc_Exact) as [mrs'' e''] eqn:Hshr2.
  cbn [fst snd] in He2, Hm3. subst e''. rewrite Hm3.
  change (1024 - 53) with 971. done.
Qed.

(** *** The quotient of two integers *)

Lemma div_core_spec a b :
  0 < a → 0 < b →
  let e := Z.min (fexp 53 1024 (Zdigits2 a - Zdigits2 b)) 0 in
  ∃ l, SFdiv_core_binary 53 1024 a 0 b 0 = (a * 2 ^ (- e) / b, e, l).
Proof.
  intros Ha Hb e. unfold SFdiv_core_binary.
  rewrite !Z.add_0_r. change (0 - 0) with 0. fold e.
  assert (e ≤ 0) as He by (unfold e; lia).
  set (m' := match 0 - e with
             | 0 => a
             | Z.pos _ => Z.shiftl a (0 - e)
             | Z.neg _ => 0
             end).
  assert (m' = a * 2 ^ (- e)) as Hm'.
  { unfold m'. replace (0 - e) with (- e) by lia.
    destruct (- e) as [|p|p] eqn:Hs; [|by rewrite Z.shiftl_mul_pow2|lia].
    rewrite Z.pow_0_r. lia. }
  destruct (Z.div_eucl m' b) as [q r] eqn:Hdiv.
  exists (new_location b r). do 2 f_equal.
  rewrite <- Hm'. unfold Z.div. by rewrite Hdiv.
Qed.

(** A quotient below [2 ^ 1023] in size is within the range of the
    floats. *)
Lemma nearest_float_finite a b s :
  0 < b → Z.abs a < b * 2 ^ 1023 → nearest_float a b ≠ S754_infinity s.
Proof.
  intros Hb Hbound. unfold nearest_float.
  destruct (Z.eqb_spec a 0) as [->|Ha]; [done|].
  rewrite (Z.abs_eq b) by lia.
  set (sign := xorb (a <? 0) (b <? 0)).
  assert (0 < Z.abs a) as Hpos by lia.
  destruct (div_core_spec (Z.abs a) b Hpos Hb) as [l ->].
  set (e := Z.min (fexp 53 1024 (Zdigits2 (Z.abs a) - Zdigits2 b)) 0).
  assert (e ≤ 0) as He by (unfold e; lia).
  set (q := Z.abs a * 2 ^ (- e) / b).
  assert (0 ≤ q) as Hq0.
  { apply Z.div_pos; [|done]. apply Z.mul_nonneg_nonneg; [lia|].
    apply Z.pow_nonneg. lia. }
  assert (q < 2 ^ (1023 - e)) as Hq.
  { apply Z.div_lt_upper_bound; [done|].
    replace (1023 - e) with (1023 + - e) by lia.
    rewrite Z.pow_add_r by lia.
    assert (0 < 2 ^ (- e)) by (apply Z.pow_pos_nonneg; lia). nia. }
  destruct (binary_round_aux_spec sign q e l Hq0) as (m2 & Hm2 & ->).
  set (e1 := Z.max e (fexp 53 1024 (Zdigits2 q + e))) in *.
  set (m1 := q / 2 ^ (e1 - e)) in *.
  assert (e ≤ e1 ≤ 970) as He1.
  { pose proof (Zdigits2_le q (1023 - e)). unfold e1, fexp, emin. lia. }
  assert (0 ≤ m1 < 2 ^ (1023 - e1)) as Hm1.
  { split; [apply Z.div_pos; [done|apply Z.pow_pos_nonneg; lia]|].
    apply Z.div_lt_upper_bound; [apply Z.pow_pos_nonneg; lia|].
    rewrite <- Z.pow_add_r by lia.
    by replace (e1 - e + (1023 - e1)) with (1023 - e) by lia. }
  assert (0 ≤ m2 < 2 ^ (1024 - e1)) as Hm2'.
  { replace (1024 - e1) with (1023 - e1 + 1) by lia.
    rewrite pow2_succ by lia. lia. }
  set (e2 := Z.max e1 (fexp 53 1024 (Zdigits2 m2 + e1))).
  assert (e2 ≤ 971) as He2.
  { pose proof (Zdigits2_le m2 (1024 - e1)). unfold e2, fexp, emin. lia. }
  destruct (m2 / 2 ^ (e2 - e1)); [done| |done].
  by rewrite (proj2 (Z.leb_le _ _) He2).
Qed.

(** Below [2 ^ 52] the float nearest to [a / 100] has the integer part of
    the exact quotient. *)
Lemma nearest_float_hundredth a :
  0 ≤ a < 2 ^ 52 →
  match nearest_float a 100 with
  | S754_zero _ => a / 100 = 0
  | S754_finite s m e => s = false ∧ Z.shiftl (Z.pos m) e = a / 100
  | _ => False
  end.
Proof.
  intros [Ha0 Ha]. unfold nearest_float.
  destruct (Z.eqb_spec a 0) as [->|Hne]; [done|].
  assert (0 < a) as Hpos by lia.
  rewrite (Z.abs_eq a) by lia. change (Z.abs 100) with 100.
  replace (a <? 0) with false by (symmetry; apply Z.ltb_ge; lia).
  change (xorb false (100 <? 0)) with false.
  destruct (div_core_spec a 100 Hpos) as [l ->]; [done|].
  change (Zdigits2 100) with 7.
  set (d := Zdigits2 a).
  destruct (Zdigits2_bounds a Hpos) as [Hdlow Hdhigh]. fold d in Hdlow, Hdhigh.
  assert (1 ≤ d ≤ 52) as Hd.
  { split.
    - pose proof (Zdigits2_nonneg a). fold d in H.
      destruct (Z.eq_dec d 0) as [Hz|]; [|lia].
      rewrite Hz in Hdhigh. simpl in Hdhigh. lia.
    - apply Zdigits2_le; lia. }
  assert (Z.min (fexp 53 1024 (d - 7)) 0 = d - 60) as ->
    by (unfold fexp, emin; lia).
  replace (- (d - 60)) with (60 - d) by lia.
  set (S := 2 ^ (60 - d)).
  assert (a * S = a * S) as _ by done.
  assert (2 ^ 59 ≤ a * S < 2 ^ 60) as HaS.
  { replace 59 with (d - 1 + (60 - d)) by lia.
    replace 60 with (d + (60 - d)) at 2 by lia.
    rewrite !Z.pow_add_r by lia. fold S.
    assert (0 < S) by (apply Z.pow_pos_nonneg; lia). nia. }
  set (q := a * S / 100).
  assert (100 * q ≤ a * S < 100 * q + 100) as Hq.
  { unfold q. pose proof (Z.mul_div_le (a * S) 100).
    pose proof (Z.mul_succ_div_gt (a * S) 100). lia. }
  assert (2 ^ 52 ≤ q < 2 ^ 54) as Hqb by (simpl in *; lia).
  destruct (binary_round_aux_spec false q (d - 60) l) as (m2 & Hm2 & ->);
    [lia|].
  set (dq := Zdigits2 q) in *.
  assert (dq = 53 ∨ dq = 54) as Hdq.
  { assert (dq ≤ 54) by (apply Zdigits2_le; lia).
    destruct (Zdigits2_bounds q) as [_ Hhigh]; [lia|]. fold dq in Hhigh.
    destruct (Z.le_gt_cases dq 52) as [Hsmall|]; [|lia].
    assert (2 ^ dq ≤ 2 ^ 52) by (apply Z.pow_le_mono_r; lia). lia. }
  set (e1 := Z.max (d - 60) (fexp 53 1024 (dq + (d - 60)))) in *.
  assert (e1 = d - 60 + (dq - 53)) as He1 by (unfold e1, fexp, emin; lia).
  set (t := - e1).
  assert (7 ≤ t) as Ht by lia.
  set (P := 2 ^ (e1 - (d - 60))) in *.
  set (T := 2 ^ t).
  assert (S = T * P) as HS.
  { unfold S, T, P. rewrite <- Z.pow_add_r by lia. f_equal. lia. }
  assert (P = 1 ∧ dq = 53 ∨ P = 2 ∧ dq = 54) as HP.
  { unfold P. destruct Hdq as [Hdq|Hdq]; [left|right]; (split; [|done]).
    - replace (e1 - (d - 60)) with 0 by lia. done.
    - replace (e1 - (d - 60)) with 1 by lia. done. }
  assert (128 ≤ T) as HT.
  { change 128 with (2 ^ 7). apply Z.pow_le_mono_r; lia. }
  set (m1 := q / P) in *.
  assert (P * m1 ≤ q < P * m1 + P) as Hm1.
  { unfold m1. pose proof (Z.mul_div_le q P).
    pose proof (Z.mul_succ_div_gt q P). lia. }
  set (k := a / 100).
  assert (100 * k ≤ a < 100 * k + 100) as Hk.
  { unfold k. pose proof (Z.mul_div_le a 100).
    pose proof (Z.mul_succ_div_gt a 100). lia. }
  assert (0 ≤ k) as Hk0 by (apply Z.div_pos; lia).
  assert (k * T ≤ m1) as Hlow.
  { destruct (Z.le_gt_cases (k * T) m1) as [|Hlt]; [done|exfalso].
    assert (q < k * S) by (rewrite HS; nia).
    assert (100 * k * S ≤ a * S) by (apply Z.mul_le_mono_nonneg_r; lia).
    nia. }
  assert (m1 + 1 < (k + 1) * T) as Hhigh.
  { destruct (Z.lt_ge_cases (m1 + 1) ((k + 1) * T)) as [|Hge]; [done|exfalso].
    assert ((k + 1) * S - P ≤ q) by (rewrite HS; nia).
    assert (a * S ≤ (100 * k + 99) * S)
      by (apply Z.mul_le_mono_nonneg_r; lia).
    assert (S ≤ 100 * P) by nia.
    rewrite HS in H1. nia. }
  assert (k * T ≤ m2 < (k + 1) * T) as Hm2b by lia.
  assert (2 ^ 52 ≤ m1 < 2 ^ 53) as Hm1b.
  { destruct (Zdigits2_bounds q) as [Hql Hqh]; [lia|]. fold dq in Hql, Hqh.
    destruct HP as [[HP1 Hdq1]|[HP2 Hdq2]].
    - rewrite Hdq1 in Hql, Hqh. change (53 - 1) with 52 in Hql. lia.
    - rewrite Hdq2 in Hql, Hqh. change (54 - 1) with 53 in Hql.
      change (2 ^ 54) with (2 * 2 ^ 53) in Hqh.
      change (2 ^ 53) with (2 * 2 ^ 52) in Hql. lia. }
  set (d2 := Zdigits2 m2).
  assert (d2 = 53 ∨ d2 = 54 ∧ m2 = 2 ^ 53) as Hd2.
  { assert (d2 ≤ 54) by (apply Zdigits2_le; simpl in *; lia).
    destruct (Zdigits2_bounds m2) as [Hl Hh]; [simpl in *; lia|].
    fold d2 in Hl, Hh.
    destruct (Z.le_gt_cases d2 52) as [Hsmall|].
    { assert (2 ^ d2 ≤ 2 ^ 52) by (apply Z.pow_le_mono_r; lia). lia. }
    destruct (Z.eq_dec d2 53) as [|Hne2]; [by left|right].
    assert (d2 = 54) as H54 by lia. split; [done|].
    rewrite H54 in Hl. simpl in *. lia. }
  set (e2 := Z.max e1 (fexp 53 1024 (d2 + e1))).
  assert (e2 = e1 + (d2 - 53)) as He2 by (unfold e2, fexp, emin; lia).
  assert (m2 / 2 ^ (e2 - e1) / 2 ^ (- e2) = k) as Hfinal.
  { rewrite Z.div_div by (try apply Z.pow_pos_nonneg; lia).
    rewrite <- Z.pow_add_r by lia.
    replace (e2 - e1 + (- e2)) with t by lia. fold T.
    symmetry. apply (Z.div_unique _ _ _ (m2 - k * T)); lia. }
  assert (0 < m2 / 2 ^ (e2 - e1)) as Hm3.
  { apply Z.div_str_pos. split; [apply Z.pow_pos_nonneg; lia|].
    destruct Hd2 as [Hd2|[Hd2 ->]].
    - replace (e2 - e1) with 0 by lia. simpl in *. lia.
    - replace (e2 - e1) with 1 by lia. done. }
  destruct (m2 / 2 ^ (e2 - e1)) as [|m3|m3] eqn:Hm3eq; [lia| |lia].
  assert ((e2 <=? 971) = true) as -> by (apply Z.leb_le; lia).
  split; [done|]. rewrite Z.shiftl_div_pow2 by lia. done.
Qed.

(** *** Known values

    [float("18.4")] is [0x4032666666666666]; [1 / 3] is
    [0x3FD5555555555555]; the largest float is [2 ^ 1024 - 2 ^ 970], and the
    integers that round to [2 ^ 1024] are not converted; the quotient of two
    integers beyond the range of the floats is still rounded once. *)

Example float_literal_18_4 :
  float_literal 184 (-1) = S754_finite false 0x12666666666666 (-48).
Proof. vm_compute. reflexivity. Qed.

Example int_true_divide_third :
  int_true_divide 1 3 = Returned (S754_finite false 0x15555555555555 (-54)).
Proof. vm_compute. reflexivity. Qed.

Example float_of_int_largest :
  float_of_int (2 ^ 1024 - 2 ^ 970 - 1)
  = Returned (S754_finite false (2 ^ 53 - 1) 971) ∧
  float_of_int (2 ^ 1024 - 2 ^ 970) = OverflowError.
Proof. split; vm_compute; reflexivity. Qed.

Example int_true_divide_large :
  int_true_divide (3 * 10 ^ 400) (10 ^ 400)
  = Returned (S754_finite false (3 * 2 ^ 51) (-51)) ∧
  int_true_divide (10 ^ 400) 7 = OverflowError ∧
  int_true_divide 0 (-5) = Returned (S754_zero true) ∧
  int_true_divide 5 0 = ZeroDivisionError.
Proof. repeat split; vm_compute; reflexivity. Qed.

(** *** The arithmetic of the pool builder *)

Lemma fmap_Returned {A B} (f : A → B) (a : A) :
  f <$> Returned a = Returned (f a).
Proof. reflexivity. Qed.

Lemma fmap_identity {A} (o : outcome A) : (λ a, a) <$> o = o.
Proof. by destruct o. Qed.

Lemma bind_returned {A B} (o : outcome A) (k : A → outcome B) b :
  o ≫= k = Returned b ↔ ∃ a, o = Returned a ∧ k a = Returned b.
Proof.
  destruct o as [a| | | | |]; split; try done; try (by intros (? & ? & ?)).
  - intros Hk. by exists a.
  - by intros (a' & [= <-] & Hk).
Qed.

Lemma fmap_returned {A B} (f : A → B) (o : outcome A) b :
  f <$> o = Returned b ↔ ∃ a, o = Returned a ∧ b = f a.
Proof.
  destruct o as [a| | | | |]; split; try done; try (by intros (? & ? & ?)).
  - intros [= <-]. by exists a.
  - by intros (a' & [= <-] & ->).
Qed.

Ltac outcome_simpl :=
  cbn [mbind outcome_bind mret outcome_ret and_then];
  rewrite ?fmap_Returned.

Lemma float_of_int_100 :
  float_of_int 100 = Returned (S754_finite false 7036874417766400 (-46)).
Proof. reflexivity. Qed.

Lemma int_true_divide_returns a b :
  0 < b → Z.abs a < b * 2 ^ 1023 → ∃ x, int_true_divide a b = Returned x.
Proof.
  intros Hb Hbound. unfold int_true_divide.
  rewrite (proj2 (Z.eqb_neq b 0)) by lia.
  pose proof (nearest_float_finite a b) as Hfinite.
  destruct (nearest_float a b) as [s|s| |s m e]; eauto.
  exfalso. by apply (Hfinite s).
Qed.

Lemma int_true_divide_arithmetic a b :
  b ≠ 0 → arithmetic (int_true_divide a b).
Proof.
  intros Hb. unfold int_true_divide. rewrite (proj2 (Z.eqb_neq b 0)) by done.
  by destruct (nearest_float a b).
Qed.

Lemma float_of_int_arithmetic n : arithmetic (float_of_int n).
Proof. unfold float_of_int. by destruct (binary_normalize 53 1024 n 0 false). Qed.

Lemma py_int_arithmetic x : arithmetic (py_int x).
Proof. by destruct x as [n|[s|s| |s m e]]. Qed.

(** [(count / total_nfts) * 100] is computed whenever the ratio is below
    [2 ^ 1023] in size. *)
Lemma actual_percentage_returns count total :
  0 < total → Z.abs count < total * 2 ^ 1023 →
  ∃ x, actual_percentage count total = Returned x.
Proof.
  intros Htotal Hbound. unfold actual_percentage, py_truediv.
  destruct (int_true_divide_returns count total Htotal Hbound) as [x ->].
  outcome_simpl. unfold py_mul. rewrite float_of_int_100. outcome_simpl.
  by eexists.
Qed.

Lemma actual_percentage_arithmetic count total :
  total ≠ 0 → arithmetic (actual_percentage count total).
Proof.
  intros Htotal. unfold actual_percentage, py_truediv.
  pose proof (int_true_divide_arithmetic count total Htotal) as Ha.
  by destruct (int_true_divide count total).
Qed.

Lemma percentage_count_arithmetic n p : arithmetic (percentage_count n p).
Proof.
  unfold percentage_count. destruct p as [k|x]; unfold py_mul.
  - outcome_simpl. unfold py_truediv.
    pose proof (int_true_divide_arithmetic (n * k) 100) as Ha.
    destruct (int_true_divide (n * k) 100); try (by apply Ha).
    outcome_simpl. apply py_int_arithmetic.
  - pose proof (float_of_int_arithmetic n) as Ha.
    destruct (float_of_int n); try done.
    outcome_simpl. unfold py_truediv. rewrite float_of_int_100.
    outcome_simpl. apply py_int_arithmetic.
Qed.

(** For an integer percentage, and a product below [2 ^ 52], the count is
    the floor of the exact share. *)
Lemma percentage_count_int n p :
  0 ≤ n * p < 2 ^ 52 → percentage_count n (PyInt p) = Returned (n * p / 100).
Proof.
  intros Hrange. unfold percentage_count, py_mul. outcome_simpl.
  unfold py_truediv, int_true_divide. change (100 =? 0) with false.
  pose proof (nearest_float_hundredth (n * p) Hrange) as Hq.
  destruct (nearest_float (n * p) 100) as [s|s| |s m e]; try done.
  - outcome_simpl. simpl. by rewrite Hq.
  - outcome_simpl. simpl. destruct Hq as [-> ->]. done.
Qed.

(** Of no items every count is zero. *)
Lemma percentage_count_of_none p c :
  percentage_count 0 p = Returned c → c = 0.
Proof.
  destruct p as [k|x].
  - rewrite percentage_count_int by (simpl; lia). intros [= <-]. done.
  - destruct x as [s|s| |s m e]; vm_compute; by intros [= <-].
Qed.

(** ** The pool builder *)

(** *** Handing out rarities *)

Lemma assign_rarity_spec n asset_addresses r pairs asset_index :
  assign_rarity n asset_addresses r pairs asset_index =
  Returned
    (pairs ++ ((λ a, (a, r)) <$> take n (drop asset_index asset_addresses)),
     (asset_index + length (take n (drop asset_index asset_addresses)))%nat).
Proof.
  revert pairs asset_index.
  induction n as [|n IH]; intros acc idx; simpl.
  { by rewrite app_nil_r, Nat.add_0_r. }
  case_bool_decide as Hidx.
  - destruct (asset_addresses !! idx) as [a|] eqn:Ha.
    + rewrite IH. rewrite (drop_S _ _ _ Ha). simpl.
      rewrite <- app_assoc. simpl. do 3 f_equal. lia.
    + apply lookup_ge_None in Ha. lia.
  - rewrite IH. rewrite drop_ge by lia. by rewrite !take_nil.
Qed.

Lemma assign_rarities_spec buckets asset_addresses pairs asset_index :
  assign_rarities buckets asset_addresses pairs asset_index =
  Returned (pairs ++ label_buckets buckets (drop asset_index asset_addresses)).
Proof.
  revert pairs asset_index.
  induction buckets as [|[r c] bs IH]; intros acc idx; simpl.
  { by rewrite app_nil_r. }
  rewrite assign_rarity_spec, IH. rewrite <- app_assoc.
  do 3 f_equal.
  rewrite <- drop_drop.
  rewrite <- (Nat.add_0_r (length _)), drop_length_take. done.
Qed.

Lemma label_buckets_assets buckets rest :
  (label_buckets buckets rest).*1 = take (draws buckets) rest.
Proof.
  unfold draws. revert rest.
  induction buckets as [|[r c] bs IH]; intros rest; csimpl; [done|].
  rewrite fmap_app, IH, <- list_fmap_compose.
  replace (fst ∘ (λ a : string, (a, r))) with (@id string) by done.
  rewrite list_fmap_id. apply take_take_drop.
Qed.

Lemma label_buckets_labels buckets rest p :
  p ∈ label_buckets buckets rest → p.2 ∈ buckets.*1.
Proof.
  revert rest. induction buckets as [|[r c] bs IH]; intros rest; csimpl.
  { intros Hp. by apply elem_of_nil in Hp. }
  intros [Hp|Hp]%elem_of_app.
  - apply list_elem_of_fmap in Hp as (a & -> & _). left.
  - right. by eapply IH.
Qed.

Lemma labelled_app r xs ys :
  labelled r (xs ++ ys) = (labelled r xs + labelled r ys)%nat.
Proof. unfold labelled. by rewrite filter_app, length_app. Qed.

Lemma labelled_same r (l : list string) :
  labelled r ((λ a, (a, r)) <$> l) = length l.
Proof.
  unfold labelled. induction l as [|a l IH]; csimpl; [done|].
  rewrite filter_cons_True by done. simpl. by rewrite IH.
Qed.

Lemma labelled_other r r' (l : list string) :
  r' ≠ r → labelled r ((λ a, (a, r')) <$> l) = 0%nat.
Proof.
  intros Hne. unfold labelled. induction l as [|a l IH]; csimpl; [done|].
  by rewrite filter_cons_False.
Qed.

Lemma labelled_absent r buckets rest :
  r ∉ buckets.*1 → labelled r (label_buckets buckets rest) = 0%nat.
Proof.
  intros Hr. unfold labelled.
  destruct (filter _ _) as [|p l] eqn:Hf; [done|].
  assert (p ∈ filter (λ p, p.2 = r) (label_buckets buckets rest)) as Hp
    by (rewrite Hf; left).
  apply list_elem_of_filter in Hp as [<- Hp].
  by apply label_buckets_labels in Hp.
Qed.

(** When the assets cover every draw, each bucket gets its exact count. *)
Lemma label_buckets_exact buckets rest r c :
  dict_wf buckets →
  Forall (λ rc : string * Z, 0 ≤ rc.2) buckets →
  (draws buckets ≤ length rest)%nat →
  (r, c) ∈ buckets →
  Z.of_nat (labelled r (label_buckets buckets rest)) = c.
Proof.
  unfold dict_wf, draws. intros Hwf Hnonneg. revert rest Hwf.
  induction Hnonneg as [|[r' c'] bs Hc' _ IH]; intros rest Hwf Hlen Hin;
    csimpl in *.
  { by apply elem_of_nil in Hin. }
  apply NoDup_cons in Hwf as [Hr' Hwf].
  rewrite labelled_app.
  apply elem_of_cons in Hin as [[= -> ->]|Hin].
  - rewrite labelled_same, labelled_absent by done.
    rewrite length_take. lia.
  - assert (r' ≠ r) as Hne.
    { intros ->. apply Hr'. apply list_elem_of_fmap. by exists (r, c). }
    rewrite labelled_other by done. simpl.
    apply IH; [done| |done]. rewrite length_drop. lia.
Qed.

(** *** Counting rarities *)

Lemma bucket_counts_cons total_nfts r p rest remaining :
  rest ≠ [] →
  bucket_counts total_nfts ((r, p) :: rest) remaining =
  (count ← percentage_count total_nfts p;
   counts ← bucket_counts total_nfts rest (remaining - count);
   Returned ((r, count) :: counts)).
Proof. by destruct rest. Qed.

Lemma count_rarities_spec total_nfts n i entries rarity_counts remaining :
  NoDup (rarity_counts.*1 ++ entries.*1) →
  i + len entries = n →
  fst <$> count_rarities total_nfts n i entries rarity_counts remaining =
  (λ counts, rarity_counts ++ counts)
    <$> bucket_counts total_nfts entries remaining.
Proof.
  revert i rarity_counts remaining.
  induction entries as [|[r p] rest IH]; intros i acc rem Hnd Hi.
  { cbn [count_rarities bucket_counts]. rewrite !fmap_Returned.
    by rewrite app_nil_r. }
  cbn [count_rarities].
  rewrite len_cons in Hi.
  assert (r ∉ acc.*1) as Hfresh.
  { csimpl in Hnd. apply NoDup_app in Hnd as (_ & Hdisj & _).
    intros Hin. apply (Hdisj r Hin). left. }
  assert (∀ count, NoDup ((dict_set acc r count).*1 ++ rest.*1)) as Hnd'.
  { intros count. rewrite dict_set_fresh by done.
    rewrite fmap_app, <- app_assoc. done. }
  destruct (Z.eqb_spec i (n - 1)) as [Hlast|Hmore].
  - assert (rest = []) as ->.
    { destruct rest; [done|]. rewrite len_cons in Hi.
      pose proof (len_nonneg rest). lia. }
    cbn [count_rarities bucket_counts]. rewrite !fmap_Returned.
    cbn [fst]. by rewrite dict_set_fresh.
  - assert (rest ≠ []) as Hrest.
    { intros ->. rewrite len_nil in Hi. lia. }
    rewrite bucket_counts_cons by done.
    destruct (percentage_count total_nfts p) as [c| | | | |]; try done.
    outcome_simpl.
    rewrite IH; [|apply Hnd'|lia].
    rewrite dict_set_fresh by done.
    destruct (bucket_counts total_nfts rest (rem - c)); try done.
    outcome_simpl. by rewrite <- app_assoc.
Qed.

Lemma rarity_counts_of_spec total_nfts (table : dict number) :
  dict_wf table →
  rarity_counts_of total_nfts table =
  bucket_counts total_nfts (sorted_items table) total_nfts.
Proof.
  intros Hwf. unfold rarity_counts_of.
  rewrite count_rarities_spec; [apply fmap_identity| |lia].
  simpl. by apply sorted_items_wf.
Qed.

Lemma bucket_counts_keys total_nfts entries remaining counts :
  bucket_counts total_nfts entries remaining = Returned counts →
  counts.*1 = entries.*1.
Proof.
  revert remaining counts.
  induction entries as [|[r p] rest IH]; intros rem counts.
  { by intros [= <-]. }
  destruct rest as [|e rest'].
  { by intros [= <-]. }
  rewrite bucket_counts_cons by done.
  intros (c & Hc & Hk)%bind_returned.
  apply bind_returned in Hk as (tail & Htail & [= <-]).
  rewrite !fmap_cons. cbn [fst]. f_equal.
  rewrite (IH _ _ Htail). by rewrite fmap_cons.
Qed.

Lemma bucket_counts_sum total_nfts entries remaining counts :
  entries ≠ [] →
  bucket_counts total_nfts entries remaining = Returned counts →
  py_sum counts.*2 = remaining.
Proof.
  revert remaining counts.
  induction entries as [|[r p] rest IH]; intros rem counts Hne; [done|].
  destruct rest as [|e rest'].
  { intros [= <-]. csimpl. rewrite py_sum_cons, py_sum_nil. lia. }
  rewrite bucket_counts_cons by done.
  intros (c & Hc & Hk)%bind_returned.
  apply bind_returned in Hk as (tail & Htail & [= <-]).
  rewrite fmap_cons, py_sum_cons. cbn [snd].
  rewrite (IH _ _ ltac:(done) Htail). lia.
Qed.

(** The counts of all buckets but the last are the values of
    [percentage_count], and the last bucket has the rest. *)
Lemma bucket_counts_snoc total_nfts init r p remaining counts :
  bucket_counts total_nfts (init ++ [(r, p)]) remaining = Returned counts ↔
  ∃ cs,
    Forall2 (λ e c, percentage_count total_nfts e.2 = Returned c) init cs ∧
    counts = zip init.*1 cs ++ [(r, remaining - py_sum cs)].
Proof.
  revert remaining counts.
  induction init as [|[r' p'] init IH]; intros rem counts.
  { cbn [app bucket_counts]. split.
    - intros [= <-]. exists []. split; [constructor|].
      rewrite py_sum_nil, Z.sub_0_r. done.
    - intros (cs & Hcs & ->). apply Forall2_nil_inv_l in Hcs as ->.
      rewrite py_sum_nil, Z.sub_0_r. done. }
  rewrite <- app_comm_cons, bucket_counts_cons by (by destruct init).
  split.
  - intros (c & Hc & Hk)%bind_returned.
    apply bind_returned in Hk as (tail & Htail & [= <-]).
    apply IH in Htail as (cs & Hcs & ->).
    exists (c :: cs). split; [by constructor|].
    rewrite py_sum_cons.
    by replace (rem - (c + py_sum cs)) with (rem - c - py_sum cs) by lia.
  - intros (cs & Hcs & ->).
    apply Forall2_cons_inv_l in Hcs as (c & cs' & Hc & Hcs & ->).
    cbn [snd] in Hc. rewrite Hc. outcome_simpl.
    assert (bucket_counts total_nfts (init ++ [(r, p)]) (rem - c) =
            Returned (zip init.*1 cs' ++ [(r, rem - c - py_sum cs')])) as ->
      by (apply IH; by exists cs').
    outcome_simpl. rewrite py_sum_cons.
    by replace (rem - (c + py_sum cs')) with (rem - c - py_sum cs') by lia.
Qed.

(** Ascending keys are a property of the keys alone. *)
Lemma key_sorted_keys {V W} (l : list (string * V)) (l' : list (string * W)) :
  l.*1 = l'.*1 → StronglySorted key_lt l → StronglySorted key_lt l'.
Proof.
  intros Hkeys Hs. revert l' Hkeys.
  induction Hs as [|x l Hs IH Hx]; intros [|y l'] Hkeys; try done.
  { constructor. }
  csimpl in Hkeys. injection Hkeys as Hxy Hkeys.
  constructor; [by apply IH|].
  apply Forall_forall. intros z Hz.
  assert (z.1 ∈ l.*1) as Hz'.
  { rewrite Hkeys. apply list_elem_of_fmap. by exists z. }
  apply list_elem_of_fmap in Hz' as (z' & Hzz & Hz').
  rewrite Forall_forall in Hx. specialize (Hx z' Hz').
  unfold key_lt in *. congruence.
Qed.

(** The table of counts has the rarities of the percentage table, in
    ascending order. *)
Lemma rarity_counts_sorted total_nfts (table : dict number) counts :
  dict_wf table →
  rarity_counts_of total_nfts table = Returned counts →
  counts.*1 = (sorted_items table).*1 ∧
  StronglySorted key_lt counts ∧
  sorted_items counts = counts.
Proof.
  intros Hwf Hcounts. rewrite rarity_counts_of_spec in Hcounts by done.
  apply bucket_counts_keys in Hcounts as Hkeys.
  assert (StronglySorted key_lt counts) as Hsorted.
  { eapply (key_sorted_keys (sorted_items table)); [done|].
    by apply sorted_items_sorted. }
  split; [done|]. split; [done|]. by apply sorted_items_id.
Qed.

Lemma rarity_counts_total total_nfts (table : dict number) counts :
  dict_wf table → table ≠ [] →
  rarity_counts_of total_nfts table = Returned counts →
  py_sum counts.*2 = total_nfts.
Proof.
  intros Hwf Hne Hcounts. rewrite rarity_counts_of_spec in Hcounts by done.
  apply (bucket_counts_sum _ _ _ _) in Hcounts; [done|].
  intros Hnil. apply Hne, Permutation_nil.
  by rewrite <- Hnil, sorted_items_perm.
Qed.

Lemma rarity_counts_arithmetic total_nfts (table : dict number) :
  arithmetic (rarity_counts_of total_nfts table).
Proof.
  unfold rarity_counts_of.
  generalize (len (sorted_items table)), 0, (@nil (string * Z)).
  generalize total_nfts at 2.
  induction (sorted_items table) as [|[r p] rest IH]; intros rem n i acc;
    cbn [count_rarities]; [done|].
  destruct (i =? n - 1); [apply IH|].
  pose proof (percentage_count_arithmetic total_nfts p) as Hp.
  destruct (percentage_count total_nfts p); try done.
  outcome_simpl. apply IH.
Qed.

(** *** The printed distribution *)

Lemma print_distribution_returns entries total :
  0 < total →
  Forall (λ rc : string * Z, Z.abs rc.2 < total * 2 ^ 1023) entries →
  ∃ lines, print_distribution entries total = Returned lines.
Proof.
  intros Htotal. induction 1 as [|[r c] rest Hc _ [lines IH]].
  { by eexists. }
  cbn [print_distribution].
  destruct (actual_percentage_returns c total Htotal Hc) as [x ->].
  rewrite IH. outcome_simpl. by eexists.
Qed.

Lemma print_distribution_arithmetic entries total :
  total ≠ 0 → arithmetic (print_distribution entries total).
Proof.
  intros Htotal. induction entries as [|[r c] rest IH]; [done|].
  cbn [print_distribution].
  pose proof (actual_percentage_arithmetic c total Htotal) as Hc.
  destruct (actual_percentage c total); try done. outcome_simpl.
  by destruct (print_distribution rest total).
Qed.

(** Counts between zero and the number of items are printed. *)
Lemma print_distribution_shares entries total :
  0 < total →
  Forall (λ rc : string * Z, 0 ≤ rc.2 ≤ total) entries →
  ∃ lines, print_distribution entries total = Returned lines.
Proof.
  intros Htotal Hshares. apply print_distribution_returns; [done|].
  eapply Forall_impl; [exact Hshares|]. intros [r c] Hc. simpl in *.
  assert (2 ≤ 2 ^ 1023) by (apply (Z.pow_le_mono_r 2 1 1023); lia).
  nia.
Qed.

(** *** The counts of the pre-assigned branch *)

Lemma dict_get_bounds (d : dict Z) k bound :
  0 ≤ bound →
  Forall (λ rc : string * Z, 1 ≤ rc.2 ≤ bound) d →
  0 ≤ dict_get d k 0 ≤ bound.
Proof.
  intros Hbound. induction 1 as [|[k' v] d Hv _ IH]; simpl; [lia|].
  destruct (String.eqb k' k); [simpl in Hv; lia|done].
Qed.

Lemma dict_set_values (Q : Z → Prop) (d : dict Z) k v :
  Forall (λ rc : string * Z, Q rc.2) d → Q v →
  Forall (λ rc : string * Z, Q rc.2) (dict_set d k v).
Proof.
  intros Hd Hv. induction Hd as [|[k' v'] d Hv' Hd IH]; simpl.
  { by repeat constructor. }
  destruct (String.eqb k' k); constructor; done.
Qed.

Lemma tally_rarities_bounds rarities :
  Forall (λ rc : string * Z, 1 ≤ rc.2 ≤ len rarities)
         (tally_rarities rarities).
Proof.
  unfold tally_rarities.
  assert (∀ acc bound,
            0 ≤ bound →
            Forall (λ rc : string * Z, 1 ≤ rc.2 ≤ bound) acc →
            Forall (λ rc : string * Z, 1 ≤ rc.2 ≤ bound + len rarities)
              (foldl (λ rarity_counts rarity,
                        dict_set rarity_counts rarity
                          (dict_get rarity_counts rarity 0 + 1))
                     acc rarities)) as Hfold.
  { induction rarities as [|r rs IH]; intros acc bound Hbound Hacc.
    { rewrite len_nil, Z.add_0_r. done. }
    cbn [foldl]. rewrite len_cons.
    replace (bound + (1 + len rs)) with (bound + 1 + len rs) by lia.
    apply IH; [lia|].
    pose proof (dict_get_bounds acc r bound Hbound Hacc).
    apply (dict_set_values (λ c, 1 ≤ c ≤ bound + 1)); [|lia].
    eapply Forall_impl; [exact Hacc|]. simpl. lia. }
  apply (Hfold [] 0); [done|constructor].
Qed.

Lemma tally_rarities_printed rarities :
  ∃ lines,
    print_distribution (sorted_items (tally_rarities rarities)) (len rarities)
    = Returned lines.
Proof.
  destruct rarities as [|r rs]; [by eexists|].
  apply print_distribution_shares.
  { rewrite len_cons. pose proof (len_nonneg rs). lia. }
  rewrite sorted_items_perm.
  eapply Forall_impl; [apply tally_rarities_bounds|]. simpl. lia.
Qed.

(** *** Integer percentages *)

Lemma floor_share_int n p : floor_share n (PyInt p) = n * p / 100.
Proof.
  unfold floor_share, number_value, Qfloor, Qdiv, Qmult, Qinv, inject_Z.
  simpl. by rewrite Z.mul_1_r.
Qed.

Lemma percentage_count_floor n p :
  0 ≤ n * p < 2 ^ 52 →
  percentage_count n (PyInt p) = Returned (floor_share n (PyInt p)).
Proof. intros Hrange. by rewrite floor_share_int, percentage_count_int. Qed.

(** *** The two modes *)

Lemma omap_snd_length (nft_assets : list (string * option string)) :
  (length (omap snd nft_assets) ≤ length nft_assets)%nat.
Proof.
  induction nft_assets as [|[a [r|]] l IH]; csimpl; lia.
Qed.

Lemma omap_snd_unlabelled (nft_assets : list (string * option string)) a :
  (a, None) ∈ nft_assets →
  (length (omap snd nft_assets) < length nft_assets)%nat.
Proof.
  induction nft_assets as [|[b [r|]] l IH]; csimpl; intros Hin.
  - by apply elem_of_nil in Hin.
  - apply elem_of_cons in Hin as [[=]|Hin]. specialize (IH Hin). lia.
  - pose proof (omap_snd_length l). lia.
Qed.

Lemma omap_snd_all_unlabelled (nft_assets : list (string * option string)) :
  Forall (λ ar, ar.2 = None) nft_assets → omap snd nft_assets = [].
Proof.
  induction 1 as [|[a r] l Hr _ IH]; csimpl in *; [done|]. by subst.
Qed.

Lemma omap_snd_all_labelled (nft_assets : list (string * option string)) :
  len (omap snd nft_assets) = len nft_assets →
  Forall (λ ar, is_Some ar.2) nft_assets.
Proof.
  unfold len. induction nft_assets as [|[a [r|]] l IH]; csimpl; intros Hlen.
  - constructor.
  - constructor; [by eexists|]. apply IH. lia.
  - pose proof (omap_snd_length l). lia.
Qed.

Lemma percentage_distribution_returned total_nfts (table : dict number)
    counts :
  percentage_distribution total_nfts table = Returned counts ↔
  rarity_counts_of total_nfts table = Returned counts ∧
  ∃ lines,
    print_distribution (sorted_items counts) total_nfts = Returned lines.
Proof.
  unfold percentage_distribution. split.
  - intros (counts' & Hcounts & Hk)%bind_returned.
    apply bind_returned in Hk as (lines & Hlines & [= <-]). eauto.
  - intros (-> & lines & Hlines). outcome_simpl. rewrite Hlines. done.
Qed.

Lemma percentage_distribution_arithmetic total_nfts (table : dict number) :
  total_nfts ≠ 0 → arithmetic (percentage_distribution total_nfts table).
Proof.
  intros Htotal. unfold percentage_distribution.
  pose proof (rarity_counts_arithmetic total_nfts table) as Hcounts.
  destruct (rarity_counts_of total_nfts table) as [counts| | | | |];
    try done.
  outcome_simpl.
  pose proof (print_distribution_arithmetic (sorted_items counts)
                total_nfts Htotal) as Hlines.
  by destruct (print_distribution (sorted_items counts) total_nfts).
Qed.

Section PoolBuilder.
Context {G : Type} `{RandomSource G}.
Implicit Types (nft_assets : list (string * option string)) (g : G).

Lemma generate_preassigned nft_assets rarity_percentages g :
  len (omap snd nft_assets) = len nft_assets →
  generate_nft_pool nft_assets rarity_percentages g =
  Returned (random_shuffle (to_nft <$> nft_assets) g).
Proof.
  intros Hall. unfold generate_nft_pool.
  rewrite (proj2 (Z.eqb_eq _ _) Hall). rewrite <- Hall.
  destruct (tally_rarities_printed (omap snd nft_assets)) as [lines Hlines].
  unfold Run.bind, Run.lift, Run.call. rewrite Hlines. do 2 f_equal.
  apply list_fmap_ext. by intros i [a r] _.
Qed.

Lemma generate_without_table nft_assets rarity_percentages g :
  len (omap snd nft_assets) ≠ len nft_assets →
  rarity_percentages = None ∨ rarity_percentages = Some [] →
  generate_nft_pool nft_assets rarity_percentages g = SystemExit 1.
Proof.
  intros Hsome Htable. unfold generate_nft_pool.
  rewrite (proj2 (Z.eqb_neq _ _) Hsome). by destruct Htable as [-> | ->].
Qed.

(** The percentage branch ends as its arithmetic does; on the counts that
    the arithmetic returns, the pool is the shuffle of the labelled
    pairs. *)
Lemma generate_percentage nft_assets (table : dict number) g :
  len (omap snd nft_assets) ≠ len nft_assets →
  dict_wf table → table ≠ [] →
  generate_nft_pool nft_assets (Some table) g =
  and_then (percentage_distribution (len nft_assets) table)
    (λ rarity_counts,
       Returned
         (to_labelled_nft <$>
            (random_shuffle (percentage_pairs nft_assets rarity_counts) g).1,
          (random_shuffle (percentage_pairs nft_assets rarity_counts) g).2)).
Proof.
  intros Hsome Hwf Hne. unfold generate_nft_pool.
  rewrite (proj2 (Z.eqb_neq _ _) Hsome).
  destruct table as [|e rest] eqn:Htable; [done|].
  cbv beta iota. rewrite <- Htable in *.
  unfold percentage_distribution, Run.bind, Run.lift, Run.call, Run.ret.
  destruct (rarity_counts_of (len nft_assets) table) as [counts| | | | |]
    eqn:Hcounts; try done.
  outcome_simpl.
  destruct (print_distribution (sorted_items counts) (len nft_assets))
    as [lines| | | | |]; try done.
  outcome_simpl.
  destruct (rarity_counts_sorted _ _ _ Hwf Hcounts) as (_ & _ & ->).
  rewrite assign_rarities_spec, drop_0, app_nil_l.
  fold (percentage_pairs nft_assets counts).
  destruct (random_shuffle (percentage_pairs nft_assets counts) g)
    as [shuffled g'].
  simpl. do 2 f_equal. apply list_fmap_ext. by intros i [a r] _.
Qed.

Lemma percentage_pairs_assets nft_assets (table : dict number) counts :
  dict_wf table → table ≠ [] →
  rarity_counts_of (len nft_assets) table = Returned counts →
  (percentage_pairs nft_assets counts).*1 = nft_assets.*1.
Proof.
  intros Hwf Hne Hcounts. unfold percentage_pairs.
  rewrite label_buckets_assets. apply take_ge.
  pose proof (draws_lower_bound counts) as Hd.
  rewrite (rarity_counts_total _ _ _ Hwf Hne Hcounts) in Hd.
  unfold len in Hd. rewrite length_fmap. lia.
Qed.

Lemma percentage_pairs_labels nft_assets (table : dict number) counts p :
  dict_wf table →
  rarity_counts_of (len nft_assets) table = Returned counts →
  p ∈ percentage_pairs nft_assets counts → p.2 ∈ table.*1.
Proof.
  intros Hwf Hcounts Hp%label_buckets_labels.
  destruct (rarity_counts_sorted _ _ _ Hwf Hcounts) as (Hkeys & _).
  rewrite Hkeys, sorted_items_perm in Hp. done.
Qed.

(** The percentage branch does not look at the labels of the input. *)
Lemma generate_ignores_labels nft_assets other rarity_percentages g :
  (∀ table, rarity_percentages = Some table → dict_wf table) →
  len (omap snd nft_assets) ≠ len nft_assets →
  len (omap snd other) ≠ len other →
  other.*1 = nft_assets.*1 →
  generate_nft_pool other rarity_percentages g =
  generate_nft_pool nft_assets rarity_percentages g.
Proof.
  intros Hwf Hmode Hmode' Hassets.
  assert (len other = len nft_assets) as Hlen.
  { unfold len. by rewrite <- (length_fmap fst other), Hassets, length_fmap. }
  destruct rarity_percentages as [[|e table]|].
  - by rewrite !generate_without_table by auto.
  - rewrite !generate_percentage by auto.
    unfold percentage_pairs. by rewrite Hlen, Hassets.
  - by rewrite !generate_without_table by auto.
Qed.

(** Reordering the percentage table changes nothing. *)
Lemma generate_reordered nft_assets (table reordered : dict number) g :
  dict_wf table → reordered ≡ₚ table →
  generate_nft_pool nft_assets (Some reordered) g =
  generate_nft_pool nft_assets (Some table) g.
Proof.
  intros Hwf Hperm.
  assert (dict_wf reordered) as Hwf'.
  { unfold dict_wf in *. by rewrite Hperm. }
  destruct (decide (len (omap snd nft_assets) = len nft_assets)) as [Hm|Hm].
  { by rewrite !generate_preassigned. }
  destruct table as [|e table].
  { apply Permutation_nil_r in Hperm as ->. done. }
  rewrite !generate_percentage; try done.
  - unfold percentage_distribution, rarity_counts_of.
    by rewrite (sorted_items_order_irrelevant reordered (e :: table)).
  - intros ->. by apply Permutation_nil_cons in Hperm.
Qed.
End PoolBuilder.

(** ** Claims about [generate_nft_pool] *)

(** C2 as stated fails: with a percentage table, a mixed input is accepted
    and relabelled. *)
Example generate_mixed_run :
  Run.value (generate_nft_pool mixed_assets (Some common_only))
            (Lcg.seed "test") =
  Returned [ {| asset := "n1"; rarity := Some "Common" |};
             {| asset := "n2"; rarity := Some "Common" |} ].
Proof. vm_compute. reflexivity. Qed.

Lemma generate_mixed_labels_accepted :
  mixed_labels mixed_assets ∧
  ¬ (∀ rarity_percentages, ∃ code,
       Run.value (generate_nft_pool mixed_assets rarity_percentages)
                 (Lcg.seed "test") = SystemExit code).
Proof.
  split.
  - split; [exists "n1", "Rare"; left|exists "n2"; right; left].
  - intros Hclaim. destruct (Hclaim (Some common_only)) as [code Hexit].
    vm_compute in Hexit. discriminate.
Qed.

(** Two items and [{"A": 1e308, "B": 0}]: the product [2 * 1e308] is an
    infinity, and [int] of it raises. *)
Example generate_overflow_run :
  Run.value
    (generate_nft_pool mixed_assets
       (Some [("A", PyFloat (float_literal 1 308)); ("B", PyInt 0)]))
    (Lcg.seed "test") = OverflowError.
Proof. vm_compute. reflexivity. Qed.

Section PoolClaims.
Context {G : Type} `{RandomSource G}.
Implicit Types (nft_assets : list (string * option string)) (g : G).

Lemma mixed_labels_mode nft_assets :
  mixed_labels nft_assets → len (omap snd nft_assets) ≠ len nft_assets.
Proof.
  intros [_ [a Ha]]. apply omap_snd_unlabelled in Ha. unfold len. lia.
Qed.

(** The value of a run of the percentage branch. *)
Lemma generate_percentage_value nft_assets (table : dict number) g :
  len (omap snd nft_assets) ≠ len nft_assets →
  dict_wf table → table ≠ [] →
  Run.value (generate_nft_pool nft_assets (Some table)) g =
  (λ rarity_counts,
     to_labelled_nft <$>
       (random_shuffle (percentage_pairs nft_assets rarity_counts) g).1)
    <$> percentage_distribution (len nft_assets) table.
Proof.
  intros Hmode Hwf Hne. unfold Run.value.
  rewrite generate_percentage by done.
  by destruct (percentage_distribution (len nft_assets) table).
Qed.

(** The pool of the percentage branch, on the counts of its arithmetic. *)
Lemma percentage_pool nft_assets (table : dict number) counts g :
  dict_wf table → table ≠ [] →
  rarity_counts_of (len nft_assets) table = Returned counts →
  let pool :=
    to_labelled_nft <$>
      (random_shuffle (percentage_pairs nft_assets counts) g).1 in
  asset <$> pool ≡ₚ nft_assets.*1 ∧
  Forall (λ nft, ∃ r, rarity nft = Some r ∧ r ∈ table.*1) pool.
Proof.
  intros Hwf Hne Hcounts pool. split.
  - unfold pool. rewrite <- list_fmap_compose.
    change (asset ∘ to_labelled_nft) with (@fst string string).
    rewrite random_shuffle_perm.
    by rewrite (percentage_pairs_assets _ table).
  - apply Forall_fmap, Forall_forall. intros p Hp.
    rewrite random_shuffle_perm in Hp.
    exists p.2. split; [done|]. by eapply percentage_pairs_labels.
Qed.

(** C2 (mixed labelling).  For an input in which some but not all items
    carry a rarity, [generate_nft_pool] exits with code 1 exactly when no
    percentage table, or an empty one, is supplied.  With a non-empty table
    the run ends as the arithmetic of the counts does: when that returns
    the counts, the run returns a pool of the same length in which every
    item is labelled with a rarity of the table; when a count or a printed
    percentage raises [OverflowError] or [ValueError], so does the run, and
    nothing else can happen.  The labels of the input are ignored: any
    other mixed input with the same addresses gives the same result. *)
Theorem generate_mixed_labels nft_assets rarity_percentages g :
  mixed_labels nft_assets →
  (∀ table, rarity_percentages = Some table → dict_wf table) →
  (Run.value (generate_nft_pool nft_assets rarity_percentages) g
     = SystemExit 1 ↔
   rarity_percentages = None ∨ rarity_percentages = Some []) ∧
  (∀ table, rarity_percentages = Some table → table ≠ [] →
     (∀ counts,
        percentage_distribution (len nft_assets) table = Returned counts →
        ∃ pool,
          Run.value (generate_nft_pool nft_assets rarity_percentages) g
            = Returned pool ∧
          len pool = len nft_assets ∧
          Forall (λ nft, ∃ r, rarity nft = Some r ∧ r ∈ table.*1) pool) ∧
     (percentage_distribution (len nft_assets) table = OverflowError →
      Run.value (generate_nft_pool nft_assets rarity_percentages) g
        = OverflowError) ∧
     (percentage_distribution (len nft_assets) table = ValueError →
      Run.value (generate_nft_pool nft_assets rarity_percentages) g
        = ValueError) ∧
     arithmetic (percentage_distribution (len nft_assets) table)) ∧
  (∀ other, mixed_labels other → other.*1 = nft_assets.*1 →
     generate_nft_pool other rarity_percentages g =
     generate_nft_pool nft_assets rarity_percentages g).
Proof.
  intros Hmixed Hwf.
  pose proof (mixed_labels_mode nft_assets Hmixed) as Hmode.
  assert (len nft_assets ≠ 0) as Hitems.
  { intros Hzero. apply Hmode. rewrite Hzero.
    pose proof (omap_snd_length nft_assets). unfold len in *. lia. }
  split; [|split].
  - split.
    + intros Hexit. destruct rarity_percentages as [[|e table]|]; auto.
      exfalso. rewrite generate_percentage_value in Hexit by auto.
      pose proof (percentage_distribution_arithmetic (len nft_assets)
                    (e :: table) Hitems) as Ha.
      by destruct (percentage_distribution (len nft_assets) (e :: table)).
    + intros Htable. unfold Run.value.
      by rewrite generate_without_table.
  - intros table -> Hne.
    rewrite generate_percentage_value by auto.
    split; [|split; [|split]].
    + intros counts Hcounts. rewrite Hcounts, fmap_Returned.
      apply percentage_distribution_returned in Hcounts as [Hcounts _].
      destruct (percentage_pool nft_assets table counts g)
        as [Hassets Hlabels]; auto.
      eexists. split; [reflexivity|]. split; [|done].
      unfold len. by rewrite <- (length_fmap asset), Hassets, length_fmap.
    + by intros ->.
    + by intros ->.
    + by apply percentage_distribution_arithmetic.
  - intros other Hother Hassets.
    apply generate_ignores_labels; auto.
    by apply mixed_labels_mode.
Qed.

(** C3 (determinism).  A run that seeds the generator and then builds the
    pool is a function of the seed, the items and the entries of the
    optional percentage table: two runs end in the same way, with the same
    pool in content and order and the same state of the generator,
    whatever state the generator was in before each of them and in
    whatever order each of them iterates over the table. *)
Theorem seeded_pool_deterministic seed nft_assets rarity_percentages
    reordered (g1 g2 : G) :
  (∀ table, rarity_percentages = Some table → dict_wf table) →
  same_table rarity_percentages reordered →
  seeded_pool seed nft_assets rarity_percentages g1 =
  seeded_pool seed nft_assets reordered g2 ∧
  Run.value (seeded_pool seed nft_assets rarity_percentages) g1 =
  Run.value (seeded_pool seed nft_assets reordered) g2 ∧
  Run.value (seeded_pool seed nft_assets rarity_percentages) g1 =
  Run.value (generate_nft_pool nft_assets rarity_percentages)
            (random_seed seed).
Proof.
  intros Hwf Hsame.
  assert (seeded_pool seed nft_assets rarity_percentages g1 =
          seeded_pool seed nft_assets reordered g2) as Hruns.
  { unfold seeded_pool, Run.bind, NFTAllocator_init, Run.put.
    destruct rarity_percentages as [table|], reordered as [table'|];
      try done.
    simpl in Hsame. by rewrite (generate_reordered _ table table') by auto. }
  split; [done|]. split; [|done].
  unfold Run.value. by rewrite Hruns.
Qed.

(** C7 (the pool is a permutation).  For input items with distinct
    addresses, the returned pool has as many items as the input and holds
    every input address exactly once; in pre-assigned mode it is a
    permutation of the input pairs, each item keeping its rarity.  A pool
    is returned exactly in pre-assigned mode, and in percentage mode when
    a non-empty table is supplied on which the arithmetic of the counts
    raises nothing. *)
Theorem generate_nft_pool_permutation nft_assets rarity_percentages g :
  NoDup nft_assets.*1 →
  (∀ table, rarity_percentages = Some table → dict_wf table) →
  (∀ pool,
     Run.value (generate_nft_pool nft_assets rarity_percentages) g
       = Returned pool →
     len pool = len nft_assets ∧
     asset <$> pool ≡ₚ nft_assets.*1 ∧
     NoDup (asset <$> pool) ∧
     (len (omap snd nft_assets) = len nft_assets →
      (λ nft, (asset nft, rarity nft)) <$> pool ≡ₚ nft_assets)) ∧
  ((∃ pool,
      Run.value (generate_nft_pool nft_assets rarity_percentages) g
        = Returned pool) ↔
   len (omap snd nft_assets) = len nft_assets ∨
   ∃ table counts,
     rarity_percentages = Some table ∧ table ≠ [] ∧
     percentage_distribution (len nft_assets) table = Returned counts).
Proof.
  intros Hids Hwf.
  assert (∀ pool, asset <$> pool ≡ₚ nft_assets.*1 →
            len pool = len nft_assets ∧ asset <$> pool ≡ₚ nft_assets.*1 ∧
            NoDup (asset <$> pool)) as Hfrom_perm.
  { intros pool Hperm. split; [|split; [done|by rewrite Hperm]].
    apply (f_equal Z.of_nat).
    rewrite <- (length_fmap asset pool), Hperm. apply length_fmap. }
  destruct (decide (len (omap snd nft_assets) = len nft_assets)) as [Hm|Hm].
  - (* pre-assigned mode *)
    unfold Run.value. rewrite generate_preassigned by done.
    destruct (random_shuffle (to_nft <$> nft_assets) g) as [pool g'] eqn:Hsh.
    assert (pool ≡ₚ to_nft <$> nft_assets) as Hperm.
    { pose proof (random_shuffle_perm _ (to_nft <$> nft_assets) g) as Hp.
      by rewrite Hsh in Hp. }
    split; [|split; [by left|by eexists]].
    intros pool' [= <-].
    assert ((λ nft, (asset nft, rarity nft)) <$> pool ≡ₚ nft_assets) as Hpairs.
    { rewrite Hperm, <- list_fmap_compose.
      assert (((λ nft, (asset nft, rarity nft)) ∘ to_nft) <$> nft_assets
              = nft_assets) as ->; [|done].
      rewrite <- (list_fmap_id nft_assets) at 2.
      apply list_fmap_ext. by intros i [a r] _. }
    destruct (Hfrom_perm pool) as (Hlen & Hassets & Hnd).
    { rewrite Hperm, <- list_fmap_compose. done. }
    done.
  - (* percentage mode *)
    destruct rarity_percentages as [[|e table]|].
    + unfold Run.value. rewrite generate_without_table by auto.
      split; [done|]. split; [by intros [? ?]|].
      intros [?|(table & counts & [= <-] & ? & _)]; done.
    + specialize (Hwf _ eq_refl).
      rewrite generate_percentage_value by done.
      destruct (percentage_distribution (len nft_assets) (e :: table))
        as [counts| | | | |] eqn:Hcounts.
      1:{ rewrite fmap_Returned. split.
          - intros pool [= <-].
            apply percentage_distribution_returned in Hcounts
              as [Hcounts _].
            destruct (percentage_pool nft_assets (e :: table) counts g)
              as [Hassets _]; auto.
            destruct (Hfrom_perm _ Hassets) as (Hlen & _ & Hnd). done.
          - split; [|by eexists].
            intros _. right. by exists (e :: table), counts. }
      all: split; [done|]; split; [by intros [? ?]|].
      all: intros [?|(table' & counts & [= <-] & _ & ?)]; [done|congruence].
    + unfold Run.value. rewrite generate_without_table by auto.
      split; [done|]. split; [by intros [? ?]|].
      intros [?|(table & counts & [=] & _)]; done.
Qed.
End PoolClaims.

(** *** Bucket sizes *)

Lemma count_rarity_labelled r (pairs : list (string * string)) :
  count_rarity r (to_labelled_nft <$> pairs) = Z.of_nat (labelled r pairs).
Proof.
  unfold count_rarity, labelled, len. f_equal.
  induction pairs as [|[a r'] l IH]; csimpl; [done|].
  destruct (decide (r' = r)) as [->|Hne].
  - rewrite !filter_cons_True by done. simpl. by rewrite IH.
  - rewrite !filter_cons_False; [done|done|]. simpl. congruence.
Qed.

Lemma labelled_perm r (xs ys : list (string * string)) :
  xs ≡ₚ ys → labelled r xs = labelled r ys.
Proof. intros Hperm. unfold labelled. by rewrite Hperm. Qed.

(** One asset, [{"A": 100, "B": 100, "C": 0}]: bucket [B] should hold one
    item and holds none. *)
Example generate_oversubscribed_run :
  Run.value (generate_nft_pool [("n1", None)] (Some oversubscribed))
            (Lcg.seed "test") =
  Returned [ {| asset := "n1"; rarity := Some "A" |} ].
Proof. vm_compute. reflexivity. Qed.

Example oversubscribed_counts :
  rarity_counts_of 1 oversubscribed
  = Returned [("A", 1); ("B", 1); ("C", -1)].
Proof. vm_compute. reflexivity. Qed.

Lemma rounding_claim_oversubscribed :
  dict_wf oversubscribed ∧
  Forall (λ ar : string * option string, ar.2 = None) [("n1", None)] ∧
  Forall percentage_in_range oversubscribed ∧
  ¬ rounding_claim [("n1", None)] oversubscribed (Lcg.seed "test").
Proof.
  split; [by_evaluation|]. split; [by repeat constructor|].
  split; [by_evaluation|].
  intros Hclaim.
  destruct (Hclaim [("A", PyInt 100); ("B", PyInt 100)]
                   ("C", PyInt 0)) as (pool & Hrun & Hinit & _).
  { vm_compute. reflexivity. }
  rewrite generate_oversubscribed_run in Hrun. injection Hrun as <-.
  apply Forall_cons in Hinit as [_ Hinit].
  apply Forall_cons in Hinit as [HB _].
  vm_compute in HB. discriminate.
Qed.

(** The count of a percentage with a fraction is computed on the float
    nearest to it, with a rounding after the product and another after
    the quotient.  375 items at 18.4 percent have the share 69 and the
    count 68; 125 items at 2.4 percent have the count 3, although the
    float that 2.4 is read as is below 2.4 and gives a share below 3. *)
Lemma percentage_count_rounding :
  percentage_count 375 (PyFloat (float_literal 184 (-1))) = Returned 68 ∧
  Qfloor (inject_Z 375 * (184 # 10) / inject_Z 100)%Q = 69 ∧
  percentage_count 125 (PyFloat (float_literal 24 (-1))) = Returned 3 ∧
  floor_share 125 (PyFloat (float_literal 24 (-1))) = 2.
Proof. repeat split; vm_compute; reflexivity. Qed.

(** The example of the specification: 100 items at 33.3, 33.3 and 33.4
    percent. *)
Example thirds_distribution :
  percentage_distribution 100
    [("A", PyFloat (float_literal 333 (-1)));
     ("B", PyFloat (float_literal 333 (-1)));
     ("C", PyFloat (float_literal 334 (-1)))]
  = Returned [("A", 33); ("B", 33); ("C", 34)].
Proof. vm_compute. reflexivity. Qed.

Lemma Forall2_fmap_eq {A B} (f : A → B) (l : list A) (k : list B) :
  Forall2 (λ a b, f a = b) l k → f <$> l = k.
Proof. induction 1 as [|a b l k <- _ IH]; csimpl; [done|]. by rewrite IH. Qed.

Section Rounding.
Context {G : Type} `{RandomSource G}.
Implicit Types (nft_assets : list (string * option string)) (g : G).

(** In percentage mode every bucket of non-negative counts that the assets
    cover is found in the pool with its count. *)
Lemma percentage_pool_count nft_assets (counts : dict Z) g r c :
  dict_wf counts →
  py_sum counts.*2 = len nft_assets →
  Forall (λ rc : string * Z, 0 ≤ rc.2) counts →
  (r, c) ∈ counts →
  count_rarity r
    (to_labelled_nft <$>
       (random_shuffle (percentage_pairs nft_assets counts) g).1) = c.
Proof.
  intros Hwf Hsum Hnonneg Hin.
  rewrite count_rarity_labelled.
  rewrite (labelled_perm r _ (percentage_pairs nft_assets counts))
    by apply random_shuffle_perm.
  apply label_buckets_exact; try done.
  pose proof (draws_nonneg counts Hnonneg) as Hd.
  rewrite Hsum in Hd. unfold len in Hd. rewrite length_fmap. lia.
Qed.

(** C5 (rounding).  In percentage mode, for [n] unlabelled items and a
    table in which the counts [int(n * percentage / 100)] of all buckets
    but the last in sorted order are computed, are not negative and add
    up to at most [n]: each of these buckets receives its count of items,
    the last bucket in sorted order receives the remaining items, and the
    bucket sizes add up to [n].  The count is the one of the code, on
    floats; it is the floor of [n * percentage / 100] for the buckets
    whose percentage is an integer between 0 and 100, when [n] is below
    [2 ^ 45]. *)
Theorem generate_rounding nft_assets (table : dict number) g init last
    counts :
  dict_wf table →
  Forall (λ ar, ar.2 = None) nft_assets →
  sorted_items table = init ++ [last] →
  Forall2 (λ e c, percentage_count (len nft_assets) e.2 = Returned c ∧ 0 ≤ c)
          init counts →
  py_sum counts ≤ len nft_assets →
  (∃ pool,
     Run.value (generate_nft_pool nft_assets (Some table)) g = Returned pool ∧
     Forall2 (λ e c, count_rarity e.1 pool = c) init counts ∧
     count_rarity last.1 pool = len nft_assets - py_sum counts ∧
     py_sum ((λ e, count_rarity e.1 pool) <$> sorted_items table)
       = len nft_assets) ∧
  (len nft_assets < 2 ^ 45 →
   Forall2 (λ e c, ∀ p, e.2 = PyInt p → 0 ≤ p ≤ 100 →
              c = floor_share (len nft_assets) e.2)
           init counts).
Proof.
  intros Hwf Hplain Hsorted Hcounts Hfit.
  set (n := len nft_assets) in *.
  assert (0 ≤ n) as Hn by apply len_nonneg.
  split.
  2:{ intros Hsmall. eapply Forall2_impl; [exact Hcounts|].
      intros e c [Hc _] p Hp Hrange. rewrite Hp in *.
      rewrite percentage_count_floor in Hc; [by injection Hc|].
      assert (100 * 2 ^ 45 < 2 ^ 52) by done. nia. }
  assert (table ≠ []) as Hne.
  { intros ->. by destruct init. }
  destruct (decide (nft_assets = [])) as [->|Hitems].
  - (* no items: the pre-assigned branch shuffles an empty pool *)
    unfold Run.value. rewrite generate_preassigned by done.
    pose proof (random_shuffle_perm _ (to_nft <$> []) g) as Hperm.
    destruct (random_shuffle (to_nft <$> []) g) as [pool g'].
    simpl in Hperm. apply Permutation_nil_r in Hperm as ->.
    exists []. split; [done|].
    assert (Forall (λ c, c = 0) counts) as Hzero.
    { clear -Hcounts. induction Hcounts as [|e c init' counts' [Hc _] _ IH];
        constructor; [|done].
      by apply (percentage_count_of_none e.2). }
    assert (py_sum counts = 0) as Hsum.
    { clear -Hzero. induction Hzero as [|c counts' -> _ IH]; [done|].
      rewrite py_sum_cons. lia. }
    assert (∀ l : list (string * number),
              py_sum ((λ e, count_rarity e.1 []) <$> l) = 0) as Hnone.
    { induction l as [|e l IH]; csimpl; [done|].
      rewrite py_sum_cons, IH. done. }
    split; [|split].
    + clear -Hcounts Hzero. induction Hcounts as [|e c init' counts' _ _ IH];
        [constructor|].
      apply Forall_cons in Hzero as [-> Hzero]. constructor; [done|auto].
    + rewrite Hsum. done.
    + rewrite Hnone. done.
  - assert (0 < n) as Hpos.
    { destruct nft_assets as [|item items]; [done|].
      unfold n. rewrite len_cons. pose proof (len_nonneg items). lia. }
    assert (len (omap snd nft_assets) ≠ len nft_assets) as Hmode.
    { rewrite omap_snd_all_unlabelled by done. fold n.
      rewrite len_nil. lia. }
    destruct last as [rl pl].
    set (rarity_counts := zip init.*1 counts ++ [(rl, n - py_sum counts)]).
    assert (rarity_counts_of n table = Returned rarity_counts) as Hrc.
    { rewrite rarity_counts_of_spec, Hsorted by done.
      apply bucket_counts_snoc. exists counts. split; [|done].
      eapply Forall2_impl; [exact Hcounts|]. by intros e c [Hc _]. }
    assert (length init = length counts) as Hlen
      by (by eapply Forall2_length).
    assert (Forall (λ c, 0 ≤ c) counts) as Hcs.
    { clear -Hcounts. induction Hcounts as [|e c init' counts' [_ Hc] _ IH];
        constructor; done. }
    assert (∀ c, c ∈ counts → c ≤ py_sum counts) as Hbelow.
    { clear -Hcs. induction Hcs as [|c' counts' Hc' Hcs IH]; intros c Hin.
      { by apply elem_of_nil in Hin. }
      rewrite py_sum_cons.
      assert (0 ≤ py_sum counts').
      { clear -Hcs. induction Hcs as [|x xs Hx _ IH]; [done|].
        rewrite py_sum_cons. lia. }
      apply elem_of_cons in Hin as [->|Hin]; [lia|].
      specialize (IH c Hin). lia. }
    assert (Forall (λ rc : string * Z, 0 ≤ rc.2 ≤ n) rarity_counts)
      as Hshares.
    { unfold rarity_counts. apply Forall_app. split.
      - apply Forall_forall. intros [r c] Hin.
        apply elem_of_zip_r in Hin. simpl.
        rewrite Forall_forall in Hcs. specialize (Hcs c Hin).
        specialize (Hbelow c Hin). lia.
      - constructor; [|constructor]. simpl.
        assert (0 ≤ py_sum counts); [|lia].
        clear -Hcs. induction Hcs as [|x xs Hx _ IH]; [done|].
        rewrite py_sum_cons. lia. }
    destruct (rarity_counts_sorted n table rarity_counts Hwf Hrc)
      as (Hkeys & Hkeysorted & Hid).
    assert (percentage_distribution n table = Returned rarity_counts)
      as Hdist.
    { apply percentage_distribution_returned. split; [done|].
      rewrite Hid. by apply print_distribution_shares. }
    rewrite generate_percentage_value by done. fold n.
    rewrite Hdist, fmap_Returned.
    eexists. split; [reflexivity|].
    set (pool := to_labelled_nft <$> _).
    assert (dict_wf rarity_counts) as Hwfc.
    { unfold dict_wf. rewrite Hkeys. by apply sorted_items_wf. }
    assert (py_sum rarity_counts.*2 = n) as Htotal
      by (by apply (rarity_counts_total n table)).
    assert (∀ r c, (r, c) ∈ rarity_counts → count_rarity r pool = c)
      as Hcount.
    { intros r c Hin. unfold pool.
      apply (percentage_pool_count nft_assets rarity_counts g r c);
        try done.
      eapply Forall_impl; [exact Hshares|]. simpl. lia. }
    assert (Forall2 (λ e c, count_rarity e.1 pool = c) init counts)
      as Hbuckets.
    { apply Forall2_same_length_lookup_2; [done|].
      intros i e c He Hc. apply Hcount.
      unfold rarity_counts. apply elem_of_app. left.
      apply list_elem_of_lookup. exists i.
      apply lookup_zip_with_Some. exists e.1, c.
      split; [done|]. split; [|done].
      by rewrite list_lookup_fmap, He. }
    assert (count_rarity rl pool = n - py_sum counts) as Hlast.
    { apply Hcount. unfold rarity_counts. apply elem_of_app. right. left. }
    split; [done|]. split; [done|].
    rewrite Hsorted, fmap_app, py_sum_app. csimpl.
    rewrite py_sum_cons, py_sum_nil, Hlast.
    rewrite (Forall2_fmap_eq (λ e : string * number, count_rarity e.1 pool)
               init counts Hbuckets).
    lia.
Qed.
End Rounding.

(** ** The claims on concrete runs, with the reference generator *)

(** The scenario of the specification: ten items without rarities,
    [{"Common": 70, "Rare": 30}], seed ["test"]. *)
Example generate_plain_run :
  (λ pool, (count_rarity "Common" pool, count_rarity "Rare" pool, len pool))
    <$> returned (Run.value
                    (seeded_pool "test" plain_assets (Some rare_common)) 0)
  = Some (7, 3, 10).
Proof. vm_compute. reflexivity. Qed.

Example rare_common_distribution :
  percentage_distribution 10 rare_common
  = Returned [("Common", 7); ("Rare", 3)].
Proof. vm_compute. reflexivity. Qed.

Lemma generate_mixed_labels_witness :
  mixed_labels mixed_assets ∧
  ∃ pool,
    Run.value (generate_nft_pool mixed_assets (Some common_only))
              (Lcg.seed "test") = Returned pool ∧
    len pool = 2.
Proof.
  assert (mixed_labels mixed_assets) as Hmixed.
  { split; [exists "n1", "Rare"; left|exists "n2"; right; left]. }
  assert (∀ table, Some common_only = Some table → dict_wf table) as Hwf.
  { intros table [= <-]. by_evaluation. }
  destruct (generate_mixed_labels mixed_assets (Some common_only)
              (Lcg.seed "test") Hmixed Hwf) as (_ & Hruns & _).
  destruct (Hruns common_only eq_refl) as (Hreturns & _).
  { discriminate. }
  destruct (Hreturns [("Common", 2)]) as (pool & Hrun & Hlen & _).
  { vm_compute. reflexivity. }
  split; [assumption|]. exists pool. split; assumption.
Defined.

Lemma seeded_pool_deterministic_witness :
  same_table (Some rare_common) (Some (reverse rare_common)) ∧
  seeded_pool "test" plain_assets (Some rare_common) (0 : Lcg.state) =
  seeded_pool "test" plain_assets (Some (reverse rare_common))
    (7 : Lcg.state).
Proof.
  assert (∀ table, Some rare_common = Some table → dict_wf table) as Hwf.
  { intros table [= <-]. by_evaluation. }
  assert (same_table (Some rare_common) (Some (reverse rare_common)))
    as Hsame by apply reverse_Permutation.
  split; [assumption|].
  exact (proj1 (seeded_pool_deterministic "test" plain_assets
                  (Some rare_common) (Some (reverse rare_common))
                  (0 : Lcg.state) (7 : Lcg.state) Hwf Hsame)).
Defined.

Lemma generate_nft_pool_permutation_witness :
  NoDup plain_assets.*1 ∧
  ∃ pool,
    Run.value (generate_nft_pool plain_assets (Some rare_common))
              (Lcg.seed "test") = Returned pool ∧
    len pool = 10 ∧ NoDup (asset <$> pool).
Proof.
  assert (NoDup plain_assets.*1) as Hids by by_evaluation.
  assert (∀ table, Some rare_common = Some table → dict_wf table) as Hwf.
  { intros table [= <-]. by_evaluation. }
  destruct (generate_nft_pool_permutation plain_assets (Some rare_common)
              (Lcg.seed "test") Hids Hwf) as [Hpool Hreturns].
  destruct (proj2 Hreturns) as [pool Hrun].
  { right. exists rare_common, [("Common", 7); ("Rare", 3)].
    split; [reflexivity|]. split; [discriminate|].
    exact rare_common_distribution. }
  destruct (Hpool pool Hrun) as (Hlen & _ & Hnd & _).
  split; [assumption|]. exists pool. repeat split; assumption.
Defined.

Lemma generate_rounding_witness :
  dict_wf rare_common ∧
  Forall (λ ar : string * option string, ar.2 = None) plain_assets ∧
  percentage_count 10 (PyInt 70) = Returned 7 ∧
  ∃ pool,
    Run.value (generate_nft_pool plain_assets (Some rare_common))
              (Lcg.seed "test") = Returned pool ∧
    count_rarity "Common" pool = 7 ∧ count_rarity "Rare" pool = 3 ∧
    7 = floor_share 10 (PyInt 70).
Proof.
  assert (dict_wf rare_common) as Hwf by by_evaluation.
  assert (Forall (λ ar : string * option string, ar.2 = None) plain_assets)
    as Hplain by by_evaluation.
  assert (sorted_items rare_common =
          [("Common", PyInt 70)] ++ [("Rare", PyInt 30)]) as Hsorted
    by reflexivity.
  assert (percentage_count 10 (PyInt 70) = Returned 7) as Hcount
    by (vm_compute; reflexivity).
  assert (Forall2 (λ (e : string * number) c,
                     percentage_count (len plain_assets) e.2 = Returned c ∧
                     0 ≤ c)
                  [("Common", PyInt 70)] [7]) as Hcounts.
  { constructor; [|constructor]. split; [exact Hcount|lia]. }
  assert (py_sum [7] ≤ len plain_assets) as Hfit
    by (vm_compute; discriminate).
  destruct (generate_rounding plain_assets rare_common (Lcg.seed "test")
              _ _ _ Hwf Hplain Hsorted Hcounts Hfit)
    as ((pool & Hrun & Hinit & Hlast & _) & Hfloor).
  apply Forall2_cons_1 in Hinit as [Hcommon _].
  assert (len plain_assets < 2 ^ 45) as Hsmall by (vm_compute; reflexivity).
  specialize (Hfloor Hsmall).
  apply Forall2_cons_1 in Hfloor as [Hfloor _].
  specialize (Hfloor 70 eq_refl ltac:(lia)).
  repeat split; try assumption. exists pool. repeat split; assumption.
Defined.

(** ** From the pool to the verdict

    The run of [main] after its two checks on the table: the allocations of a
    table that the checks accept pass the validator and the final
    verification. *)

Lemma allocations_validate nft_pool (eligible_wallets : dict Z) allocations :
  NoDup (asset <$> nft_pool) →
  dict_wf eligible_wallets →
  Forall (λ wc, 0 < wc.2) eligible_wallets →
  py_sum (dict_values eligible_wallets) = len nft_pool →
  allocate_nfts nft_pool eligible_wallets = Returned allocations →
  validate_allocation allocations eligible_wallets (len nft_pool) = true.
Proof.
  intros Hids Hwf Hpos Hsum. rewrite allocate_nfts_spec. intros [= <-].
  set (ws := sorted_items eligible_wallets).
  assert (ws ≡ₚ eligible_wallets) as Hperm by apply sorted_items_perm.
  assert (Forall (λ wc : string * Z, 0 ≤ wc.2) ws) as Hnonneg.
  { rewrite Hperm. eapply Forall_impl; [exact Hpos|]. simpl. lia. }
  assert (draws ws ≤ length nft_pool)%nat as Hdraws.
  { pose proof (draws_nonneg ws Hnonneg) as Hd.
    unfold dict_values in Hsum.
    rewrite (py_sum_perm ws.*2 eligible_wallets.*2) in Hd by (by rewrite Hperm).
    unfold len in Hsum. lia. }
  pose proof (cursor_slices_exact ws nft_pool Hnonneg Hdraws) as Hexact.
  assert (total_nfts <$> cursor_slices ws nft_pool = ws.*2) as Htotals.
  { rewrite <- Hexact at 2. by rewrite <- list_fmap_compose. }
  apply validate_allocation_true. split; [|split; [|split]].
  - apply Forall_forall. intros a Ha. unfold count_ok. symmetry.
    apply dict_get_elem_of; [done|].
    rewrite <- Hperm, <- Hexact. apply list_elem_of_fmap. by exists a.
  - unfold assets_of, ws. rewrite cursor_slices_cover by lia. done.
  - rewrite Htotals. apply py_sum_perm. unfold dict_values. by rewrite Hperm.
  - rewrite Htotals, (py_sum_perm ws.*2 eligible_wallets.*2)
      by (by rewrite Hperm).
    unfold dict_values in Hsum. lia.
Qed.


(** * Further properties of the code *)

(** ** The pool builder: failures and edge cases *)

Section PoolEdges.
Context {G : Type} `{RandomSource G}.
Implicit Types (nft_assets : list (string * option string)) (g : G).

Lemma generate_percentage_arithmetic nft_assets (table : dict number) g :
  len (omap snd nft_assets) ≠ len nft_assets → table ≠ [] →
  arithmetic (generate_nft_pool nft_assets (Some table) g).
Proof.
  intros Hmode Hne. unfold generate_nft_pool.
  rewrite (proj2 (Z.eqb_neq _ _) Hmode).
  destruct table as [|e rest] eqn:Htable; [done|]. cbv beta iota.
  rewrite <- Htable.
  assert (len nft_assets ≠ 0) as Hitems.
  { intros Hzero. apply Hmode. rewrite Hzero.
    pose proof (omap_snd_length nft_assets). unfold len in *. lia. }
  unfold Run.bind, Run.lift, Run.call, Run.ret.
  pose proof (rarity_counts_arithmetic (len nft_assets) table) as Hcounts.
  destruct (rarity_counts_of (len nft_assets) table) as [counts| | | | |];
    try done.
  pose proof (print_distribution_arithmetic (sorted_items counts)
                (len nft_assets) Hitems) as Hlines.
  destruct (print_distribution (sorted_items counts) (len nft_assets));
    try done.
  rewrite assign_rarities_spec.
  by destruct (random_shuffle _ g).
Qed.

(** An empty asset list gives the empty pool, with or without a percentage
    table: the missing-table error is not raised. *)
Theorem generate_nft_pool_empty rarity_percentages g :
  Run.value (generate_nft_pool [] rarity_percentages) g = Returned [].
Proof.
  unfold Run.value. rewrite generate_preassigned by done.
  pose proof (random_shuffle_perm _ (to_nft <$> []) g) as Hperm.
  destruct (random_shuffle (to_nft <$> []) g) as [pool g'].
  simpl in Hperm. by apply Permutation_nil_r in Hperm as ->.
Qed.

(** [generate_nft_pool] never raises [IndexError]; it exits, with code 1,
    exactly when some item has no rarity and the percentage table is missing
    or empty. *)
Theorem generate_nft_pool_exit_iff nft_assets rarity_percentages g :
  Run.value (generate_nft_pool nft_assets rarity_percentages) g ≠ IndexError ∧
  ∀ code,
    Run.value (generate_nft_pool nft_assets rarity_percentages) g
      = SystemExit code ↔
    code = 1 ∧ len (omap snd nft_assets) ≠ len nft_assets ∧
    (rarity_percentages = None ∨ rarity_percentages = Some []).
Proof.
  unfold Run.value.
  destruct (decide (len (omap snd nft_assets) = len nft_assets)) as [Hm|Hm].
  { rewrite generate_preassigned by done.
    destruct (random_shuffle _ g) as [pool g'].
    split; [done|]. intros code. split; [done|]. by intros (_ & ? & _). }
  destruct rarity_percentages as [[|e table]|].
  - rewrite generate_without_table by auto.
    split; [done|]. intros code. split; [intros [= <-]; auto|].
    by intros (-> & _).
  - pose proof (generate_percentage_arithmetic nft_assets (e :: table) g
                  Hm ltac:(done)) as Ha.
    destruct (generate_nft_pool nft_assets _ g)
      as [[pool g']| | | | |]; try done.
    all: split; [done|]; intros code; split; [done|].
    all: by intros (_ & _ & [?|?]).
  - rewrite generate_without_table by auto.
    split; [done|]. intros code. split; [intros [= <-]; auto|].
    by intros (-> & _).
Qed.

(** The pool does not depend on the iteration order of the table. *)
Theorem generate_table_order nft_assets (table reordered : dict number) g :
  dict_wf table → reordered ≡ₚ table →
  generate_nft_pool nft_assets (Some reordered) g =
  generate_nft_pool nft_assets (Some table) g.
Proof. apply generate_reordered. Qed.
End PoolEdges.

Lemma generate_table_order_witness :
  dict_wf rare_common ∧ reverse rare_common ≡ₚ rare_common ∧
  generate_nft_pool plain_assets (Some (reverse rare_common)) (Lcg.seed "test")
  = generate_nft_pool plain_assets (Some rare_common) (Lcg.seed "test").
Proof.
  assert (dict_wf rare_common) as Hwf by by_evaluation.
  assert (reverse rare_common ≡ₚ rare_common) as Hperm
    by apply reverse_Permutation.
  split; [assumption|]. split; [assumption|].
  exact (generate_table_order plain_assets rare_common (reverse rare_common)
           (Lcg.seed "test") Hwf Hperm).
Defined.

(** ** Allocation and validation together *)

(** Whenever the pool covers the draws of a table without negative counts,
    the allocations pass the validator, provided the asset addresses of the
    pool are distinct. *)
Lemma covered_allocations_validate nft_pool (eligible_wallets : dict Z) :
  NoDup (asset <$> nft_pool) →
  dict_wf eligible_wallets →
  Forall (λ wc, 0 ≤ wc.2) eligible_wallets →
  py_sum (dict_values eligible_wallets) ≤ len nft_pool →
  validate_allocation
    (cursor_slices (sorted_items eligible_wallets) nft_pool)
    eligible_wallets (len nft_pool) = true.
Proof.
  intros Hids Hwf Hnn Hsum.
  set (ws := sorted_items eligible_wallets).
  assert (ws ≡ₚ eligible_wallets) as Hperm by apply sorted_items_perm.
  assert (Forall (λ wc : string * Z, 0 ≤ wc.2) ws) as Hnonneg
    by (by rewrite Hperm).
  assert (py_sum ws.*2 = py_sum (dict_values eligible_wallets)) as Hsame.
  { apply py_sum_perm. unfold dict_values. by rewrite Hperm. }
  assert (draws ws ≤ length nft_pool)%nat as Hdraws.
  { pose proof (draws_nonneg ws Hnonneg) as Hd. unfold len in Hsum. lia. }
  pose proof (cursor_slices_exact ws nft_pool Hnonneg Hdraws) as Hexact.
  assert (total_nfts <$> cursor_slices ws nft_pool = ws.*2) as Htotals.
  { rewrite <- Hexact at 2. by rewrite <- list_fmap_compose. }
  apply validate_allocation_true. split; [|split; [|split]].
  - apply Forall_forall. intros a Ha. unfold count_ok. symmetry.
    apply dict_get_elem_of; [done|].
    rewrite <- Hperm, <- Hexact. apply list_elem_of_fmap. by exists a.
  - unfold assets_of.
    rewrite cursor_slices_all_nfts, entry_asset_to_entry, fmap_take.
    eapply sublist_NoDup; [exact Hids|apply sublist_take].
  - by rewrite Htotals.
  - rewrite Htotals. lia.
Qed.

(** For a table of positive counts that add up to the length of the pool,
    the validator accepts what [allocate_nfts] returns exactly when the asset
    addresses of the pool are distinct. *)
Theorem allocate_then_validate nft_pool (eligible_wallets : dict Z) :
  dict_wf eligible_wallets →
  Forall (λ wc, 0 < wc.2) eligible_wallets →
  py_sum (dict_values eligible_wallets) = len nft_pool →
  ∃ allocations,
    allocate_nfts nft_pool eligible_wallets = Returned allocations ∧
    (validate_allocation allocations eligible_wallets (len nft_pool) = true ↔
     NoDup (asset <$> nft_pool)).
Proof.
  intros Hwf Hpos Hsum. eexists. split; [apply allocate_nfts_spec|]. split.
  - rewrite validate_allocation_true. intros (_ & Hnd & _).
    unfold assets_of in Hnd. rewrite cursor_slices_cover in Hnd by lia. done.
  - intros Hids. apply covered_allocations_validate; try done; [|lia].
    eapply Forall_impl; [exact Hpos|]. simpl. lia.
Qed.

Lemma allocate_then_validate_witness :
  dict_wf demo_wallets ∧ Forall (λ wc, 0 < wc.2) demo_wallets ∧
  py_sum (dict_values demo_wallets) = len demo_pool ∧
  ∃ allocations,
    allocate_nfts demo_pool demo_wallets = Returned allocations ∧
    validate_allocation allocations demo_wallets 5 = true.
Proof.
  assert (dict_wf demo_wallets) as Hwf by by_evaluation.
  assert (Forall (λ wc, 0 < wc.2) demo_wallets) as Hpos by by_evaluation.
  assert (py_sum (dict_values demo_wallets) = len demo_pool) as Hsum
    by reflexivity.
  destruct (allocate_then_validate demo_pool demo_wallets Hwf Hpos Hsum)
    as (allocations & Hrun & Hiff).
  repeat split; try assumption. exists allocations. split; [assumption|].
  apply Hiff. by_evaluation.
Defined.

(** The validator does not notice items that were left in the pool: when
    the counts add up to less than the pool holds, the allocations are
    accepted although assets of the pool are missing from them. *)
Theorem validate_misses_leftovers nft_pool (eligible_wallets : dict Z) :
  NoDup (asset <$> nft_pool) →
  dict_wf eligible_wallets →
  Forall (λ wc, 0 ≤ wc.2) eligible_wallets →
  py_sum (dict_values eligible_wallets) < len nft_pool →
  ∃ allocations,
    allocate_nfts nft_pool eligible_wallets = Returned allocations ∧
    validate_allocation allocations eligible_wallets (len nft_pool) = true ∧
    missing (pool_assets nft_pool) allocations ≠ ∅ ∧
    extra (pool_assets nft_pool) allocations = ∅.
Proof.
  intros Hids Hwf Hnn Hsum. eexists. split; [apply allocate_nfts_spec|].
  split; [apply covered_allocations_validate; try done; lia|].
  set (ws := sorted_items eligible_wallets).
  assert (Forall (λ wc : string * Z, 0 ≤ wc.2) ws) as Hnonneg
    by (unfold ws; by rewrite sorted_items_perm).
  assert (draws ws < length nft_pool)%nat as Hdraws.
  { pose proof (draws_nonneg ws Hnonneg) as Hd.
    rewrite (py_sum_perm ws.*2 eligible_wallets.*2) in Hd
      by (unfold ws; by rewrite sorted_items_perm).
    unfold dict_values, len in Hsum. lia. }
  assert (allocated_assets (cursor_slices ws nft_pool) =
          list_to_set (asset <$> take (draws ws) nft_pool)) as Hallocated.
  { by rewrite allocated_assets_spec, cursor_slices_all_nfts,
      entry_asset_to_entry. }
  unfold missing, extra, pool_assets. rewrite Hallocated.
  rewrite <- (take_drop (draws ws) nft_pool) in Hids at 1.
  rewrite fmap_app in Hids. apply NoDup_app in Hids as (_ & Hdisj & _).
  split.
  - destruct (drop (draws ws) nft_pool) as [|x rest] eqn:Hdrop.
    { apply (f_equal length) in Hdrop. rewrite length_drop in Hdrop.
      simpl in Hdrop. lia. }
    assert (asset x ∈ asset <$> nft_pool) as Hin.
    { rewrite <- (take_drop (draws ws) nft_pool), Hdrop, fmap_app.
      apply elem_of_app. right. left. }
    assert (asset x ∉ asset <$> take (draws ws) nft_pool) as Hout.
    { intros Hin'. apply (Hdisj _ Hin'). left. }
    intros Hempty.
    assert (asset x ∈ (∅ : gset string)) as Hbad; [|set_solver].
    rewrite <- Hempty. set_solver.
  - apply set_eq. intros x. rewrite elem_of_difference, !elem_of_list_to_set.
    split; [|set_solver]. intros [Hin Hout]. destruct Hout.
    rewrite <- (take_drop (draws ws) nft_pool), fmap_app.
    apply elem_of_app. by left.
Qed.

Lemma validate_misses_leftovers_witness :
  NoDup (asset <$> demo_pool) ∧ dict_wf [("A", 2)] ∧
  Forall (λ wc : string * Z, 0 ≤ wc.2) [("A", 2)] ∧
  py_sum (dict_values [("A", 2)]) < len demo_pool ∧
  ∃ allocations,
    allocate_nfts demo_pool [("A", 2)] = Returned allocations ∧
    validate_allocation allocations [("A", 2)] (len demo_pool) = true ∧
    missing (pool_assets demo_pool) allocations ≠ ∅.
Proof.
  assert (NoDup (asset <$> demo_pool)) as Hids by by_evaluation.
  assert (dict_wf [("A", 2)]) as Hwf by by_evaluation.
  assert (Forall (λ wc : string * Z, 0 ≤ wc.2) [("A", 2)]) as Hnn
    by by_evaluation.
  assert (py_sum (dict_values [("A", 2)]) < len demo_pool) as Hsum
    by reflexivity.
  destruct (validate_misses_leftovers demo_pool [("A", 2)] Hids Hwf Hnn Hsum)
    as (allocations & Hrun & Hvalid & Hmissing & _).
  repeat split; try assumption. exists allocations. repeat split; assumption.
Defined.

(** ** Counts that are zero or negative *)

Lemma cursor_slices_elem ws rest w c :
  (w, c) ∈ ws →
  ∃ rest',
    {| wallet := w;
       nfts := to_entry <$> take (Z.to_nat c) rest';
       total_nfts := len (to_entry <$> take (Z.to_nat c) rest') |}
      ∈ cursor_slices ws rest.
Proof.
  revert rest. induction ws as [|[w' c'] ws IH]; intros rest Hin.
  { by apply elem_of_nil in Hin. }
  apply elem_of_cons in Hin as [[= -> ->]|Hin]; simpl.
  - exists rest. left.
  - destruct (IH (drop (Z.to_nat c') rest) Hin) as [rest' Hrest'].
    exists rest'. by right.
Qed.

(** A recipient whose count is zero or negative gets an allocation without
    items; with a negative count the validator rejects the result. *)
Theorem nonpositive_count_gets_nothing nft_pool (eligible_wallets : dict Z)
    w c :
  dict_wf eligible_wallets →
  (w, c) ∈ eligible_wallets →
  c ≤ 0 →
  ∃ allocations,
    allocate_nfts nft_pool eligible_wallets = Returned allocations ∧
    {| wallet := w; nfts := []; total_nfts := 0 |} ∈ allocations ∧
    (c < 0 → ∀ total_pool_size,
       validate_allocation allocations eligible_wallets total_pool_size
         = false).
Proof.
  intros Hwf Hin Hc. eexists. split; [apply allocate_nfts_spec|].
  assert ((w, c) ∈ sorted_items eligible_wallets) as Hin'
    by (by rewrite sorted_items_perm).
  destruct (cursor_slices_elem _ nft_pool w c Hin') as [rest' Helem].
  replace (Z.to_nat c) with 0%nat in Helem by lia. simpl in Helem.
  split; [done|].
  intros Hneg total. apply not_true_is_false.
  rewrite validate_allocation_true. intros (Hok & _).
  rewrite Forall_forall in Hok. specialize (Hok _ Helem).
  unfold count_ok in Hok. simpl in Hok.
  rewrite (dict_get_elem_of eligible_wallets w c) in Hok by done.
  rewrite len_nil in Hok. lia.
Qed.

Lemma nonpositive_count_gets_nothing_witness :
  dict_wf [("A", 5); ("B", -1)] ∧
  ∃ allocations,
    allocate_nfts demo_pool [("A", 5); ("B", -1)] = Returned allocations ∧
    {| wallet := "B"; nfts := []; total_nfts := 0 |} ∈ allocations ∧
    validate_allocation allocations [("A", 5); ("B", -1)] 5 = false.
Proof.
  assert (dict_wf [("A", 5); ("B", -1)]) as Hwf by by_evaluation.
  assert (("B", -1) ∈ [("A", 5); ("B", -1)]) as Hin by (right; left).
  assert (-1 ≤ 0) as Hle by lia.
  destruct (nonpositive_count_gets_nothing demo_pool _ "B" (-1) Hwf Hin Hle)
    as (allocations & Hrun & Helem & Hreject).
  split; [assumption|]. exists allocations.
  repeat split; try assumption. apply Hreject. lia.
Defined.

(** ** What the validator reports, and what it does not look at *)

Lemma check_nfts_inl entries unique_ids x :
  check_nfts entries unique_ids = inl x →
  ∃ pre post, assets_of entries = pre ++ x :: post ∧
              (x ∈ unique_ids ∨ x ∈ pre).
Proof.
  unfold assets_of. revert unique_ids.
  induction entries as [|e es IH]; intros U; csimpl; [done|].
  case_bool_decide as He.
  - intros [= <-]. exists [], (entry_asset <$> es). auto.
  - intros (pre & post & Heq & Hx)%IH.
    exists (entry_asset e :: pre), post. rewrite Heq. split; [done|].
    destruct Hx as [Hx|Hx]; [|right; by right].
    apply elem_of_union in Hx as [Hx|Hx%elem_of_singleton]; [by left|].
    right. subst. left.
Qed.

Lemma check_allocations_inl allocations eligible_wallets total unique_ids v :
  check_allocations allocations eligible_wallets total unique_ids = inl v →
  (∃ a, a ∈ allocations ∧ ¬ count_ok eligible_wallets a ∧
        v = WrongCount (wallet a) (dict_get eligible_wallets (wallet a) 0)
                       (total_nfts a)) ∨
  (∃ x pre post,
     v = DuplicateAsset x ∧
     assets_of (all_nfts allocations) = pre ++ x :: post ∧
     (x ∈ unique_ids ∨ x ∈ pre)).
Proof.
  revert total unique_ids.
  induction allocations as [|a l IH]; intros t U; csimpl; [done|].
  destruct (Z.eqb_spec (total_nfts a)
              (dict_get eligible_wallets (wallet a) 0)) as [Hcount|Hcount];
    simpl.
  2:{ intros [= <-]. left. exists a. split; [left|done]. }
  rewrite all_nfts_cons. unfold assets_of at 1. rewrite fmap_app.
  fold (assets_of (nfts a)) (assets_of (all_nfts l)).
  destruct (check_nfts (nfts a) U) as [dup|U1] eqn:Hnfts.
  - intros [= <-]. right.
    apply check_nfts_inl in Hnfts as (pre & post & Heq & Hx).
    exists dup, pre, (post ++ assets_of (all_nfts l)).
    split; [done|]. split; [|done]. by rewrite Heq, <- app_assoc.
  - apply check_nfts_inr in Hnfts as (_ & _ & ->).
    intros [(a' & Ha' & Hbad & ->)|(x & pre & post & -> & Heq & Hx)]%IH.
    + left. exists a'. split; [by right|done].
    + right. exists x, (assets_of (nfts a) ++ pre), post.
      split; [done|]. split; [by rewrite Heq, <- app_assoc|].
      destruct Hx as [Hx|Hx]; [|right; apply elem_of_app; by right].
      apply elem_of_union in Hx as [Hx|Hx]; [by left|].
      right. apply elem_of_app. left. by apply elem_of_list_to_set in Hx.
Qed.

(** What the validator reports is true of its input: a reported wallet has
    an allocation whose count differs from its entitlement, a reported asset
    occurs twice among the entries, and the reported totals are the sums that
    were compared. *)
Theorem validate_report_sound allocations (eligible_wallets : dict Z)
    total_pool_size :
  match validate_report allocations eligible_wallets total_pool_size with
  | Valid =>
      validate_allocation allocations eligible_wallets total_pool_size = true
  | WrongCount w expected got =>
      ∃ a, a ∈ allocations ∧ wallet a = w ∧ total_nfts a = got ∧
           dict_get eligible_wallets w 0 = expected ∧ got ≠ expected
  | DuplicateAsset x => occurs_twice x (assets_of (all_nfts allocations))
  | TotalMismatch total_allocated expected_total =>
      total_allocated = py_sum (total_nfts <$> allocations) ∧
      expected_total = py_sum (dict_values eligible_wallets) ∧
      total_allocated ≠ expected_total
  | OverAllocated total_allocated total =>
      total_allocated = py_sum (total_nfts <$> allocations) ∧
      total = total_pool_size ∧ total < total_allocated
  end.
Proof.
  unfold validate_allocation.
  destruct (validate_report allocations eligible_wallets total_pool_size)
    as [|w e g|x|t e|t n] eqn:Hreport; [done|..];
    unfold validate_report in Hreport;
    destruct (check_allocations allocations eligible_wallets 0 ∅)
      as [failure|total] eqn:Hloop.
  - subst failure.
    apply check_allocations_inl in Hloop
      as [(a & Ha & Hbad & [= -> -> ->])|(? & ? & ? & [=] & _)].
    exists a. unfold count_ok in Hbad. done.
  - destruct (negb _); [done|]. by destruct (_ >? _).
  - subst failure.
    apply check_allocations_inl in Hloop
      as [(a & _ & _ & [=])|(y & pre & post & [= ->] & Heq & Hy)].
    exists pre, post. split; [done|]. destruct Hy as [Hy|Hy]; [|done].
    by apply not_elem_of_empty in Hy.
  - destruct (negb _); [done|]. by destruct (_ >? _).
  - subst failure.
    apply check_allocations_inl in Hloop
      as [(a & _ & _ & [=])|(? & ? & ? & [=] & _)].
  - apply check_allocations_total in Hloop as ->. rewrite Z.add_0_l in *.
    destruct (Z.eqb_spec (py_sum (total_nfts <$> allocations))
                (py_sum (dict_values eligible_wallets))) as [Heq|Hne];
      simpl in Hreport.
    + by destruct (_ >? _).
    + by injection Hreport as <- <-.
  - subst failure.
    apply check_allocations_inl in Hloop
      as [(a & _ & _ & [=])|(? & ? & ? & [=] & _)].
  - apply check_allocations_total in Hloop as ->. rewrite Z.add_0_l in *.
    destruct (Z.eqb_spec (py_sum (total_nfts <$> allocations))
                (py_sum (dict_values eligible_wallets))) as [Heq|Hne];
      simpl in Hreport; [|done].
    destruct (Z.gtb_spec (py_sum (total_nfts <$> allocations))
                total_pool_size) as [Hgt|Hle]; [|done].
    injection Hreport as <- <-. done.
Qed.

(** The validator never compares [total_nfts] with the number of entries:
    a list that it accepts is still accepted after the entries of every
    allocation have been removed and the counts kept. *)
Theorem validate_ignores_entries allocations (eligible_wallets : dict Z)
    total_pool_size :
  validate_allocation allocations eligible_wallets total_pool_size = true →
  validate_allocation (without_entries <$> allocations) eligible_wallets
    total_pool_size = true.
Proof.
  rewrite !validate_allocation_true. intros (Hok & _ & Hsum & Hle).
  assert (total_nfts <$> (without_entries <$> allocations) =
          total_nfts <$> allocations) as Htotals
    by (by rewrite <- list_fmap_compose).
  assert (all_nfts (without_entries <$> allocations) = []) as Hnone.
  { unfold all_nfts. clear.
    induction allocations as [|a l IH]; csimpl; done. }
  rewrite Htotals, Hnone. split; [|split; [constructor|done]].
  apply Forall_fmap. eapply Forall_impl; [exact Hok|]. done.
Qed.

Lemma validate_ignores_entries_witness :
  validate_allocation
    [ {| wallet := "A";
         nfts := [ {| entry_asset := "n1"; entry_rarity := None |} ];
         total_nfts := 1 |} ] [("A", 1)] 1 = true ∧
  validate_allocation
    [ {| wallet := "A"; nfts := []; total_nfts := 1 |} ] [("A", 1)] 1 = true.
Proof.
  assert (validate_allocation
            [ {| wallet := "A";
                 nfts := [ {| entry_asset := "n1"; entry_rarity := None |} ];
                 total_nfts := 1 |} ] [("A", 1)] 1 = true) as Hvalid
    by reflexivity.
  split; [assumption|].
  exact (validate_ignores_entries _ _ _ Hvalid).
Defined.

(** ** The run of [main] *)

Lemma positive_counts (counts : list Z) :
  forallb (λ count, count >? 0) counts = true ↔ Forall (λ count, 0 < count) counts.
Proof.
  induction counts as [|c l IH]; simpl.
  - split; [constructor|done].
  - rewrite andb_true_iff, IH, Forall_cons.
    destruct (Z.gtb_spec c 0); split; intros [? ?]; split; try done; lia.
Qed.

Lemma positive_values (d : dict Z) :
  Forall (λ count, 0 < count) (dict_values d) ↔ Forall (λ wc, 0 < wc.2) d.
Proof.
  unfold dict_values. induction d as [|[w c] d IH]; csimpl.
  - split; constructor.
  - rewrite !Forall_cons, IH. done.
Qed.

Lemma dict_get_perm {V} (d d' : dict V) k default :
  dict_wf d → d ≡ₚ d' → dict_get d k default = dict_get d' k default.
Proof.
  intros Hwf Hperm.
  assert (dict_wf d') as Hwf' by (unfold dict_wf in *; by rewrite <- Hperm).
  destruct (decide (k ∈ d.*1)) as [Hin|Hout].
  - apply list_elem_of_fmap in Hin as ([k' v] & -> & Hin). simpl.
    rewrite (dict_get_elem_of d k' v), (dict_get_elem_of d' k' v);
      [done..|by rewrite <- Hperm|done|done].
  - rewrite !dict_get_absent; [done|by rewrite <- Hperm|done].
Qed.

Lemma validate_allocation_perm allocations (d d' : dict Z) total :
  dict_wf d → d ≡ₚ d' →
  validate_allocation allocations d total
  = validate_allocation allocations d' total.
Proof.
  intros Hwf Hperm. apply eq_true_iff_eq. rewrite !validate_allocation_true.
  assert (py_sum (dict_values d) = py_sum (dict_values d')) as ->.
  { apply py_sum_perm. unfold dict_values. by rewrite Hperm. }
  assert (Forall (count_ok d) allocations ↔ Forall (count_ok d') allocations)
    as ->; [|done].
  apply Forall_iff. intros a. unfold count_ok.
  by rewrite (dict_get_perm d d').
Qed.


Section MainFacts.
Context {G : Type} `{RandomSource G}.
Implicit Types (nft_assets : list (string * option string)) (g : G).


Lemma main_flow_prechecks_fail config_seed rarity_percentages nft_assets
    (eligible_wallets : dict Z) g :
  py_sum (dict_values eligible_wallets) ≠ len nft_assets ∨
  ¬ Forall (λ wc, 0 < wc.2) eligible_wallets →
  main_flow config_seed rarity_percentages nft_assets eligible_wallets g
  = SystemExit 1.
Proof.
  intros Hfail. unfold main_flow.
  destruct (Z.eqb_spec (py_sum (dict_values eligible_wallets))
              (len nft_assets)) as [Hsum|Hsum]; simpl; [|done].
  destruct Hfail as [?|Hcounts]; [done|].
  destruct (forallb _ _) eqn:Hall; simpl; [|done].
  destruct Hcounts. apply positive_counts in Hall.
  by apply positive_values in Hall.
Qed.

Lemma main_flow_after_prechecks config_seed rarity_percentages nft_assets
    (eligible_wallets : dict Z) g :
  py_sum (dict_values eligible_wallets) = len nft_assets →
  Forall (λ wc, 0 < wc.2) eligible_wallets →
  main_flow config_seed rarity_percentages nft_assets eligible_wallets g =
  match generate_nft_pool nft_assets rarity_percentages
          (random_seed (default default_seed config_seed)) with
  | Returned (nft_pool, g') =>
      let allocations :=
        cursor_slices (sorted_items eligible_wallets) nft_pool in
      if negb (validate_allocation allocations eligible_wallets
                 (len nft_assets))
      then SystemExit 1
      else if bool_decide
                (missing (original_assets nft_assets) allocations ≠ ∅)
      then SystemExit 1
      else if bool_decide
                (extra (original_assets nft_assets) allocations ≠ ∅)
      then SystemExit 1
      else Returned (save_allocations allocations, g')
  | SystemExit c => SystemExit c
  | IndexError => IndexError
  | OverflowError => OverflowError
  | ValueError => ValueError
  | ZeroDivisionError => ZeroDivisionError
  end.
Proof.
  intros Hsum Hpos. unfold main_flow.
  rewrite (proj2 (Z.eqb_eq _ _) Hsum). simpl.
  assert (forallb (λ count, count >? 0) (dict_values eligible_wallets)
          = true) as ->.
  { apply positive_counts. by apply positive_values. }
  simpl. unfold Run.bind at 1. unfold NFTAllocator_init, Run.put.
  unfold Run.bind at 1.
  destruct (generate_nft_pool _ _ _) as [[nft_pool g']| | | | |]; [|done..].
  unfold Run.bind, Run.lift. rewrite allocate_nfts_spec. simpl.
  destruct (validate_allocation _ _ _); simpl; [|done].
  repeat case_bool_decide; done.
Qed.
End MainFacts.

Section MainClaims.
Context {G : Type} `{RandomSource G}.
Implicit Types (nft_assets : list (string * option string)) (g : G).





(** The saved allocation depends on the seed, the assets, the percentage
    table and the contents of the wallet table only: neither the iteration
    order of the wallet table nor the state of the generator before the run
    changes it. *)
Theorem main_flow_reproducible config_seed rarity_percentages nft_assets
    (eligible_wallets reordered : dict Z) g g' :
  dict_wf eligible_wallets →
  reordered ≡ₚ eligible_wallets →
  Run.value (main_flow config_seed rarity_percentages nft_assets reordered) g'
  = Run.value (main_flow config_seed rarity_percentages nft_assets
                 eligible_wallets) g.
Proof.
  intros Hwf Hperm. unfold Run.value.
  assert (dict_wf reordered) as Hwf'
    by (unfold dict_wf in *; by rewrite Hperm).
  assert (py_sum (dict_values reordered)
          = py_sum (dict_values eligible_wallets)) as Hsums.
  { apply py_sum_perm. unfold dict_values. by rewrite Hperm. }
  destruct (decide (py_sum (dict_values eligible_wallets) = len nft_assets))
    as [Hsum|Hsum].
  2:{ rewrite !main_flow_prechecks_fail; [done|auto|left; congruence]. }
  destruct (decide (Forall (λ wc : string * Z, 0 < wc.2) eligible_wallets))
    as [Hpos|Hpos].
  2:{ rewrite !main_flow_prechecks_fail; [done|auto|right].
      by rewrite Hperm. }
  rewrite !main_flow_after_prechecks;
    [|done|done|congruence|by rewrite Hperm].
  destruct (generate_nft_pool _ _ _) as [[pool g0]| | | | |]; [|done..].
  cbv zeta.
  rewrite (sorted_items_order_irrelevant reordered eligible_wallets)
    by done.
  by rewrite (validate_allocation_perm _ reordered eligible_wallets).
Qed.
End MainClaims.



Lemma main_flow_reproducible_witness :
  dict_wf plain_wallets ∧ reverse plain_wallets ≡ₚ plain_wallets ∧
  Run.value (main_flow (Some "test") (Some rare_common) plain_assets
               (reverse plain_wallets)) (7 : Lcg.state)
  = Run.value (main_flow (Some "test") (Some rare_common) plain_assets
                 plain_wallets) (0 : Lcg.state).
Proof.
  assert (dict_wf plain_wallets) as Hwf by by_evaluation.
  assert (reverse plain_wallets ≡ₚ plain_wallets) as Hperm
    by apply reverse_Permutation.
  split; [assumption|]. split; [assumption|].
  exact (main_flow_reproducible (Some "test") (Some rare_common) plain_assets
           plain_wallets (reverse plain_wallets) (0 : Lcg.state)
           (7 : Lcg.state) Hwf Hperm).
Defined.

(** ** The loaders *)

Lemma dict_get_lookup {V} (d : dict V) k default :
  dict_get d k default = from_option id default (dict_lookup d k).
Proof.
  induction d as [|[k' v] d IH]; simpl; [done|].
  by destruct (String.eqb k' k).
Qed.

Lemma load_asset_item_encodes item ar :
  encodes_asset item ar → load_asset_item item = Some (loaded_asset ar).
Proof.
  destruct ar as [a r]. unfold encodes_asset, loaded_asset.
  destruct item as [| | | |s|items|members]; try done; simpl.
  - by intros [= -> ->].
  - intros [-> Hr]. rewrite dict_get_lookup.
    destruct r as [r|]; [by rewrite Hr|]. by destruct Hr as [-> | ->].
Qed.

Lemma typed_loaded_assets (assets : list (string * option string)) :
  typed_assets (loaded_asset <$> assets) = Some assets.
Proof.
  unfold typed_assets. apply mapM_Some. 
  induction assets as [|[a [r|]] l IH]; csimpl; constructor; done.
Qed.

(** The documented formats of the assets file are read back exactly: a list
    of objects with an ["asset"] and an optional ["rarity"] member (a [null]
    rarity counts as none), or of bare address strings, either at the top
    level or under the key ["assets"] of an object, loads as the assets it
    stands for. *)
Theorem load_nft_assets_decodes items (assets : list (string * option string)) :
  Forall2 encodes_asset items assets →
  load_nft_assets (Parsed (JList items)) = Value (loaded_asset <$> assets) ∧
  (∀ members, dict_lookup members "assets" = Some (JList items) →
     load_nft_assets (Parsed (JDict members))
       = Value (loaded_asset <$> assets)) ∧
  typed_assets (loaded_asset <$> assets) = Some assets.
Proof.
  intros Henc.
  assert (omap load_asset_item items = loaded_asset <$> assets) as Hitems.
  { induction Henc as [|item ar items assets Hi _ IH]; csimpl; [done|].
    by rewrite (load_asset_item_encodes _ _ Hi), IH. }
  split; [by simpl; rewrite Hitems|].
  split; [|apply typed_loaded_assets].
  intros members Hm. simpl. rewrite Hm. simpl. by rewrite Hitems.
Qed.

Lemma load_nft_assets_decodes_witness :
  Forall2 encodes_asset
    [ JDict [("asset", JStr "n1"); ("rarity", JStr "Rare")];
      JDict [("rarity", JNull); ("asset", JStr "n2")];
      JStr "n3" ]
    [("n1", Some "Rare"); ("n2", None); ("n3", None)] ∧
  load_nft_assets
    (Parsed (JList [ JDict [("asset", JStr "n1"); ("rarity", JStr "Rare")];
                     JDict [("rarity", JNull); ("asset", JStr "n2")];
                     JStr "n3" ]))
  = Value [ (JStr "n1", JStr "Rare"); (JStr "n2", JNull);
            (JStr "n3", JNull) ].
Proof.
  assert (Forall2 encodes_asset
            [ JDict [("asset", JStr "n1"); ("rarity", JStr "Rare")];
              JDict [("rarity", JNull); ("asset", JStr "n2")];
              JStr "n3" ]
            [("n1", Some "Rare"); ("n2", None); ("n3", None)]) as Henc.
  { constructor; [by split|].
    constructor; [split; [reflexivity|right; reflexivity]|].
    constructor; [reflexivity|constructor]. }
  split; [assumption|].
  exact (proj1 (load_nft_assets_decodes _ _ Henc)).
Defined.

(** Items of the assets list that are neither a string nor an object with an
    ["asset"] member are passed over without any error: the file loads as if
    they were not there. *)
Theorem load_nft_assets_skips before item after :
  load_asset_item item = None →
  load_nft_assets (Parsed (JList (before ++ item :: after)))
  = load_nft_assets (Parsed (JList (before ++ after))).
Proof.
  intros Hskip. simpl. f_equal.
  rewrite !omap_app. csimpl. by rewrite Hskip.
Qed.

Lemma load_nft_assets_skips_witness :
  load_asset_item (JInt 7) = None ∧
  load_nft_assets (Parsed (JList ([JStr "n1"] ++ JInt 7 :: [JStr "n2"])))
  = load_nft_assets (Parsed (JList ([JStr "n1"] ++ [JStr "n2"]))).
Proof.
  assert (load_asset_item (JInt 7) = None) as Hskip by reflexivity.
  split; [assumption|].
  exact (load_nft_assets_skips [JStr "n1"] (JInt 7) [JStr "n2"] Hskip).
Defined.

(** *** The wallets file as a list *)

Lemma add_wallet_elem seen w x :
  x ∈ add_wallet seen w ↔ x ∈ seen ∨ x = w.
Proof.
  unfold add_wallet. case_bool_decide as Hin.
  - split; [by left|]. by intros [?| ->].
  - rewrite elem_of_app, list_elem_of_singleton. done.
Qed.

Lemma add_wallet_NoDup seen w : NoDup seen → NoDup (add_wallet seen w).
Proof.
  intros Hnd. unfold add_wallet. case_bool_decide as Hin; [done|].
  apply NoDup_app. split; [done|]. split; [|apply NoDup_singleton].
  intros x Hx ->%list_elem_of_singleton. done.
Qed.

Lemma foldl_add_wallet_elem ws seen x :
  x ∈ foldl add_wallet seen ws ↔ x ∈ seen ∨ x ∈ ws.
Proof.
  revert seen. induction ws as [|w ws IH]; intros seen; simpl.
  - split; [by left|]. intros [?|Hx]; [done|]. by apply elem_of_nil in Hx.
  - rewrite IH, add_wallet_elem, elem_of_cons. tauto.
Qed.

Lemma foldl_add_wallet_NoDup ws seen :
  NoDup seen → NoDup (foldl add_wallet seen ws).
Proof.
  revert seen. induction ws as [|w ws IH]; intros seen Hnd; simpl; [done|].
  by apply IH, add_wallet_NoDup.
Qed.

Lemma pydict_set_wallet seen w :
  pydict_set ((λ w, (JStr w, JInt 0)) <$> seen) (JStr w) (JInt 0)
  = (λ w, (JStr w, JInt 0)) <$> add_wallet seen w.
Proof.
  induction seen as [|k seen IH]; csimpl; [done|].
  unfold add_wallet in *.
  destruct (String.eqb_spec k w) as [->|Hne].
  - rewrite bool_decide_eq_true_2 by left. done.
  - rewrite IH. case_bool_decide as Hin.
    + rewrite bool_decide_eq_true_2 by (by right). done.
    + rewrite bool_decide_eq_false_2; [done|].
      intros [?|?]%elem_of_cons; [by subst|done].
Qed.

Lemma zero_counts_wallets ws seen :
  zero_counts (JStr <$> ws) ((λ w, (JStr w, JInt 0)) <$> seen)
  = Value ((λ w, (JStr w, JInt 0)) <$> foldl add_wallet seen ws).
Proof.
  revert seen. induction ws as [|w ws IH]; intros seen; csimpl; [done|].
  by rewrite pydict_set_wallet, IH.
Qed.

(** A wallets file that is a list of wallet addresses loads as the table
    that gives every listed wallet the count zero, and [main] exits with
    code 1 on that table unless both the list and the assets are empty: the
    list form of the file cannot be used for an allocation. *)
Theorem wallet_list_is_rejected (ws : list string) :
  let table : dict Z := (λ w, (w, 0)) <$> first_occurrences ws in
  ∃ loaded,
    load_eligible_wallets (Parsed (JList (JStr <$> ws))) = Value loaded ∧
    typed_wallets loaded = Some table ∧
    dict_wf table ∧
    (∀ w, w ∈ table.*1 ↔ w ∈ ws) ∧
    ∀ (G : Type) (R : RandomSource G) config_seed rarity_percentages
      nft_assets (g : G),
      ws ≠ [] ∨ nft_assets ≠ [] →
      Run.value (main_flow config_seed rarity_percentages nft_assets table) g
      = SystemExit 1.
Proof.
  intros table.
  assert (table.*1 = first_occurrences ws) as Hkeys.
  { unfold table. rewrite <- list_fmap_compose. apply list_fmap_id. }
  exists ((λ w, (JStr w, JInt 0)) <$> first_occurrences ws).
  split; [|split; [|split; [|split]]].
  - simpl. apply (zero_counts_wallets ws []).
  - unfold typed_wallets, table. apply mapM_Some.
    apply Forall2_fmap, Forall_Forall2_diag, Forall_forall. done.
  - unfold dict_wf. rewrite Hkeys.
    apply foldl_add_wallet_NoDup. constructor.
  - intros w. rewrite Hkeys. unfold first_occurrences.
    rewrite foldl_add_wallet_elem. split; [|by right].
    intros [Hw|?]; [|done]. by apply elem_of_nil in Hw.
  - intros G R config_seed rarity_percentages nft_assets g Hne.
    unfold Run.value. rewrite main_flow_prechecks_fail; [done|].
    destruct ws as [|w ws].
    + left. destruct Hne as [?|Hassets]; [done|].
      unfold table, first_occurrences. simpl.
      destruct nft_assets; [done|]. rewrite len_cons.
      pose proof (len_nonneg nft_assets). unfold py_sum. simpl. lia.
    + right. intros Hpos. rewrite Forall_forall in Hpos.
      assert (w ∈ first_occurrences (w :: ws)) as Hw.
      { apply foldl_add_wallet_elem. right. left. }
      specialize (Hpos (w, 0)). simpl in Hpos.
      assert (0 < 0); [|lia]. apply Hpos.
      unfold table. apply list_elem_of_fmap. by exists w.
Qed.

(** [["A", "B", "A"]] loads as [{"A": 0, "B": 0}], on which the run over
    ten assets exits. *)
Lemma wallet_list_is_rejected_witness :
  load_eligible_wallets (Parsed (JList [JStr "A"; JStr "B"; JStr "A"]))
  = Value [(JStr "A", JInt 0); (JStr "B", JInt 0)] ∧
  Run.value (main_flow None None plain_assets [("A", 0); ("B", 0)])
    (0 : Lcg.state)
  = SystemExit 1.
Proof.
  destruct (wallet_list_is_rejected ["A"; "B"; "A"])
    as (loaded & _ & _ & _ & _ & Hexit).
  split; [reflexivity|].
  apply (Hexit Lcg.state _ None None plain_assets (0 : Lcg.state)).
  left. discriminate.
Defined.

(** *** Lists with elements that cannot be keys *)

Lemma pydict_set_values d key :
  Forall (λ kv : json * json, kv.2 = JInt 0) d →
  Forall (λ kv : json * json, kv.2 = JInt 0) (pydict_set d key (JInt 0)).
Proof.
  induction 1 as [|[k v] d Hv Hd IH]; simpl.
  - by repeat constructor.
  - destruct (key_eqb k key); constructor; done.
Qed.

Lemma zero_counts_hashable items d :
  Forall (λ kv : json * json, kv.2 = JInt 0) d →
  match zero_counts items d with
  | Value d' =>
      Forall (λ x, hashable x = true) items ∧
      Forall (λ kv : json * json, kv.2 = JInt 0) d'
  | Exited _ => False
  | Raised e => e = TypeError ∧ ¬ Forall (λ x, hashable x = true) items
  end.
Proof.
  revert d. induction items as [|x items IH]; intros d Hd; simpl.
  { split; [constructor|done]. }
  destruct (hashable x) eqn:Hx.
  - specialize (IH (pydict_set d x (JInt 0)) (pydict_set_values d x Hd)).
    destruct (zero_counts items _) as [d'|code|e]; [|done|].
    + destruct IH as [Hall Hd']. split; [by constructor|done].
    + destruct IH as [-> Hnot]. split; [done|].
      intros Hall. apply Forall_cons in Hall as [_ Hall]. done.
  - split; [done|]. intros Hall. apply Forall_cons in Hall as [Hx' _].
    congruence.
Qed.

(** A wallets file that is a list loads exactly when none of its elements is
    itself a list or an object, and then every count is zero; otherwise the
    loader ends in a [TypeError] that it does not catch, not in its
    [sys.exit(1)]. *)
Theorem load_eligible_wallets_list items :
  match load_eligible_wallets (Parsed (JList items)) with
  | Value loaded =>
      Forall (λ x, hashable x = true) items ∧
      Forall (λ kv : json * json, kv.2 = JInt 0) loaded
  | Exited _ => False
  | Raised e => e = TypeError ∧ ¬ Forall (λ x, hashable x = true) items
  end.
Proof. simpl. apply zero_counts_hashable. constructor. Qed.

(** ** The verifier *)



(** The items saved by the allocator have no ["id"] member. *)
Lemma nft_fields_no_id allocations :
  all_nfts allocations ≠ [] →
  nft_fields (allocation_json <$> allocations) "id" = None.
Proof.
  intros Hsome. unfold nft_fields.
  assert (mapM (λ alloc,
                  nfts ← py_getitem alloc "nfts";
                  items ← py_items nfts;
                  mapM (λ nft, py_getitem nft "id") items)
               (allocation_json <$> allocations) = None) as ->; [|done].
  induction allocations as [|a l IH]; [done|].
  rewrite all_nfts_cons in Hsome. csimpl.
  destruct (nfts a) as [|e es] eqn:Hnfts; csimpl; [|done].
  specialize (IH Hsome).
  match goal with |- ?m ≫= _ = None => replace m with (@None (list (list json))) end.
  done.
Qed.

Lemma verify_checks_needs_ids config eligible_wallets allocation_data
    allocations_value allocations :
  py_getitem allocation_data "allocations" = Some allocations_value →
  py_items allocations_value = Some allocations →
  nft_fields allocations "id" = None →
  verify_checks config eligible_wallets allocation_data = None.
Proof.
  intros Hvalue Hitems Hids. unfold verify_checks.
  rewrite Hvalue. simpl.
  destruct (py_getitem config "seed"); simpl; [|done].
  destruct (py_len eligible_wallets); simpl; [|done].
  destruct (py_len allocations_value); simpl; [|done].
  rewrite Hitems. simpl. rewrite Hids.
  repeat match goal with
         | |- None = None => reflexivity
         | |- (?m ≫= _) = None => destruct m; simpl
         end.
Qed.

(** The verifier cannot pass on what the allocator saves: it reads the
    ["id"] of every item, the saved items have an ["asset"] and a
    ["rarity"] only, and the resulting [KeyError] makes it return 1,
    whatever the configuration and the wallets file are. *)
Theorem verify_rejects_saved_allocation config_file wallets_file allocations :
  all_nfts allocations ≠ [] →
  verify_allocation config_file wallets_file
    (Parsed (file_json (save_allocations allocations))) = 1.
Proof.
  intros Hsome. unfold verify_allocation.
  destruct config_file as [| |config]; [done..|].
  destruct wallets_file as [| |eligible_wallets]; [done..|].
  rewrite (verify_checks_needs_ids config eligible_wallets _
             (JList (allocation_json <$> allocations))
             (allocation_json <$> allocations)); [done..|].
  by apply nft_fields_no_id.
Qed.

Lemma verify_rejects_saved_allocation_witness :
  all_nfts (cursor_slices (sorted_items demo_wallets) demo_pool) ≠ [] ∧
  verify_allocation
    (Parsed (JDict [("seed", JStr "test"); ("total_nfts", JInt 5);
                    ("rarity_percentages", JDict [])]))
    (Parsed (JDict [("A", JInt 2); ("B", JInt 3)]))
    (Parsed (file_json (save_allocations
                          (cursor_slices (sorted_items demo_wallets)
                                         demo_pool)))) = 1.
Proof.
  assert (all_nfts (cursor_slices (sorted_items demo_wallets) demo_pool)
          ≠ []) as Hsome by discriminate.
  split; [assumption|].
  exact (verify_rejects_saved_allocation _ _ _ Hsome).
Defined.


(** *** The verifier on files of its own format *)



















(** ** The table of rarity counts *)

Lemma Forall_exists_Forall2 {A B} (R : A → B → Prop) (l : list A) :
  Forall (λ a, ∃ b, R a b) l → ∃ k, Forall2 R l k.
Proof.
  induction 1 as [|a l [b Hb] _ [k IH]]; [by exists []|].
  exists (b :: k). by constructor.
Qed.

(** Whatever the percentages are (they need not add up to 100, nor lie
    between 0 and 100), the counts that the percentage branch computes have
    one entry per rarity of the table, in ascending order of the rarities,
    and add up to the number of items: the last rarity takes what the others
    leave, which may be negative.  The counts are computed exactly when
    [int(total_nfts * percentage / 100)] raises for none of the rarities
    before the last. *)
Theorem rarity_counts_add_up total_nfts (table : dict number) :
  dict_wf table → table ≠ [] →
  (∀ counts, rarity_counts_of total_nfts table = Returned counts →
     py_sum (dict_values counts) = total_nfts ∧
     counts.*1 = (sorted_items table).*1 ∧
     StronglySorted str_lt counts.*1) ∧
  ((∃ counts, rarity_counts_of total_nfts table = Returned counts) ↔
   ∀ init last, sorted_items table = init ++ [last] →
     Forall (λ e, ∃ c, percentage_count total_nfts e.2 = Returned c) init).
Proof.
  intros Hwf Hne. split.
  - intros counts Hcounts.
    destruct (rarity_counts_sorted _ _ _ Hwf Hcounts) as (Hkeys & _ & _).
    split; [by apply (rarity_counts_total total_nfts table)|].
    split; [done|]. rewrite Hkeys. by apply sorted_items_keys_sorted.
  - rewrite rarity_counts_of_spec by done. split.
    + intros [counts Hcounts] init [r p] Hsorted.
      rewrite Hsorted in Hcounts.
      apply bucket_counts_snoc in Hcounts as (cs & Hcs & _).
      clear -Hcs. induction Hcs; constructor; eauto.
    + intros Hinit.
      destruct (sorted_items table) as [|e l] eqn:Hsorted using rev_ind.
      { exfalso. apply Hne, Permutation_nil.
        by rewrite <- Hsorted, sorted_items_perm. }
      clear IHl. destruct e as [r p].
      destruct (Forall_exists_Forall2 _ _ (Hinit l (r, p) eq_refl))
        as [cs Hcs].
      eexists. apply bucket_counts_snoc. by exists cs.
Qed.

Lemma rarity_counts_add_up_witness :
  dict_wf oversubscribed ∧ oversubscribed ≠ [] ∧
  rarity_counts_of 1 oversubscribed
  = Returned [("A", 1); ("B", 1); ("C", -1)] ∧
  py_sum (dict_values [("A", 1); ("B", 1); ("C", -1)]) = 1.
Proof.
  assert (dict_wf oversubscribed) as Hwf by by_evaluation.
  assert (oversubscribed ≠ []) as Hne by discriminate.
  assert (rarity_counts_of 1 oversubscribed
          = Returned [("A", 1); ("B", 1); ("C", -1)]) as Hcounts
    by (vm_compute; reflexivity).
  split; [assumption|]. split; [assumption|]. split; [assumption|].
  exact (proj1 (proj1 (rarity_counts_add_up 1 oversubscribed Hwf Hne)
                  _ Hcounts)).
Defined.
